(** * feed-cli: a shallow embedding of the sync engine, the store and the
      query composer, with the properties of the specification.

    The development follows the package layout of the repository:
    [strconv] and [time] model the two Go standard-library packages the
    query composer computes with, [model] holds the data types of
    [model/types.go], [feed] the normalizer of [feed/fetcher.go], [store]
    the SQLite layer of [store/store.go] and the composer of
    [store/query.go], [opml] the reader and writer of [opml/opml.go],
    and [main] the commands of [cmd/feed-cli/main.go]. *)

From Stdlib Require Import Ascii String ZArith Lia.
From stdpp Require Import base numbers list sorting strings gmap.

Open Scope Z_scope.

(** ** Results of fallible calls *)

(** A Go call returning [(T, error)] with a non-nil error leaves [T]
    meaningless, so such calls return a [result]. *)
Inductive result (A E : Type) : Type :=
| Ok (a : A)
| Err (e : E).
Arguments Ok {A E} a.
Arguments Err {A E} e.

Definition is_ok {A E} (r : result A E) : bool :=
  match r with Ok _ => true | Err _ => false end.

(** ** 64-bit signed integers *)

Definition MaxInt64 : Z := 2 ^ 63 - 1.
Definition MinInt64 : Z := - 2 ^ 63.

(** Two's-complement wrap-around of an [int64] result. *)
Definition wrap64 (z : Z) : Z := (z + 2 ^ 63) mod 2 ^ 64 - 2 ^ 63.

Definition in_int64 (z : Z) : Prop := MinInt64 <= z <= MaxInt64.

(** ** Package strconv: [Atoi] on a 64-bit platform *)

Module strconv.

Inductive NumError : Type := ErrSyntax | ErrRange.

Definition isDigit (c : ascii) : bool :=
  ((48 <=? N_of_ascii c) && (N_of_ascii c <=? 57))%N.

Definition digitVal (c : ascii) : Z := Z.of_N (N_of_ascii c) - 48.

Definition maxUint64 : Z := 2 ^ 64 - 1.

(** The digit loop of [ParseUint] in base 10: a byte that is not a
    decimal digit is a syntax error, an accumulator that leaves the
    [uint64] range is a range error, whichever comes first. *)
Fixpoint parseDigits (n : Z) (s : string) : result Z NumError :=
  match s with
  | EmptyString => Ok n
  | String c s' =>
      if isDigit c then
        if maxUint64 / 10 + 1 <=? n then Err ErrRange
        else
          let n1 := n * 10 + digitVal c in
          if maxUint64 <? n1 then Err ErrRange else parseDigits n1 s'
      else Err ErrSyntax
  end.

Definition ParseUint (s : string) : result Z NumError :=
  match s with
  | EmptyString => Err ErrSyntax
  | _ => parseDigits 0 s
  end.

(** [ParseInt(s, 10, 0)]: an optional sign, then [ParseUint]; the
    magnitude has to fit the signed range of [int]. *)
Definition ParseInt (s : string) : result Z NumError :=
  match s with
  | EmptyString => Err ErrSyntax
  | String c s' =>
      let neg := Ascii.eqb c "-" in
      let body := if Ascii.eqb c "+" || neg then s' else s in
      match ParseUint body with
      | Err ErrSyntax => Err ErrSyntax
      | Err ErrRange => Err ErrRange
      | Ok un =>
          if negb neg && (2 ^ 63 <=? un) then Err ErrRange
          else if neg && (2 ^ 63 <? un) then Err ErrRange
          else Ok (if neg then - un else un)
      end
  end.

(** [Atoi] is [ParseInt(s, 10, 0)]; its fast path for short strings
    computes the same value. *)
Definition Atoi (s : string) : result Z NumError := ParseInt s.

End strconv.

(** ** Package time *)

Module time.

(** [Duration] is an [int64] count of nanoseconds. *)
Definition Duration : Type := Z.

Definition Nanosecond : Duration := 1.
Definition Second : Duration := 1000000000 * Nanosecond.
Definition Minute : Duration := 60 * Second.
Definition Hour : Duration := 60 * Minute.

(** [Duration] arithmetic is [int64] arithmetic: it wraps. *)
Definition mul (a b : Duration) : Duration := wrap64 (a * b).
Definition neg (d : Duration) : Duration := wrap64 (- d).

(** An instant, as the number of nanoseconds since the Unix epoch.  A
    [Time] keeps whole seconds in an [int64] counted from year 1, so
    adding any [Duration] to a wall-clock reading cannot leave its
    range and [Add] is exact. *)
Definition Time : Type := Z.

Definition Add (t : Time) (d : Duration) : Time := t + d.

(** Whole seconds since the epoch, rounded down. *)
Definition Unix (t : Time) : Z := t / 1000000000.

End time.

(** ** Package store, file query.go *)

Module query.

Import time.

(** The four error sites of [ParseDuration]. *)
Inductive ParseError : Type :=
| ErrEmpty
| ErrFormat (s : string)
| ErrNumber (digits : string)
| ErrUnit (unit : string).

Definition isUnit (c : ascii) : bool :=
  Ascii.eqb c "d" || Ascii.eqb c "w" || Ascii.eqb c "m" || Ascii.eqb c "y".

(** The longest prefix of decimal digits and what follows it. *)
Fixpoint spanDigits (s : string) : string * string :=
  match s with
  | EmptyString => (EmptyString, EmptyString)
  | String c s' =>
      if strconv.isDigit c then
        let '(ds, rest) := spanDigits s' in (String c ds, rest)
      else (EmptyString, s)
  end.

(** [durationPattern.FindStringSubmatch] for [^(\d+)([dwmy])$]: the two
    groups when the whole string matches.  [\d] is an ASCII digit and
    [$] is the end of the text; no unit letter is a digit, so the
    greedy digit run is the only candidate for group 1. *)
Definition durationPattern (s : string) : option (string * string) :=
  match spanDigits s with
  | (String c ds, String u EmptyString) =>
      if isUnit u then Some (String c ds, String u EmptyString) else None
  | _ => None
  end.

Definition ParseDuration (s : string) : result Duration ParseError :=
  if String.eqb s "" then Err ErrEmpty
  else
    match durationPattern s with
    | None => Err (ErrFormat s)
    | Some (m1, unit) =>
        match strconv.Atoi m1 with
        | Err _ => Err (ErrNumber m1)
        | Ok num =>
            if num <? 0 then Err (ErrNumber m1)
            else if String.eqb unit "d" then Ok (mul (mul num 24) Hour)
            else if String.eqb unit "w" then Ok (mul (mul (mul num 7) 24) Hour)
            else if String.eqb unit "m" then Ok (mul (mul (mul num 30) 24) Hour)
            else if String.eqb unit "y" then Ok (mul (mul (mul num 365) 24) Hour)
            else Err (ErrUnit unit)
        end
    end.

(** [now] is the reading of [time.Now()] taken by the call. *)
Definition SinceToUnixTime (now : Time) (since : string)
  : result Z ParseError :=
  match ParseDuration since with
  | Err e => Err e
  | Ok duration => Ok (Unix (Add now (neg duration)))
  end.

(** [QueryOptions] of store.go; [SinceTime] is a nullable pointer. *)
Record QueryOptions : Type := mkQueryOptions {
  Limit : Z;
  Offset : Z;
  UnreadOnly : bool;
  Tag : string;
  SinceTime : option Z
}.

(** The error of [BuildQueryOptions] wraps the one of [ParseDuration]. *)
Inductive BuildError : Type :=
| ErrSinceFlag (cause : ParseError).

(** Go returns the options next to the error; both are kept. *)
Definition BuildQueryOptions (now : Time) (limit offset : Z) (unread : bool)
    (since tag : string) : QueryOptions * option BuildError :=
  let opts := mkQueryOptions limit offset unread tag None in
  if negb (String.eqb since "") then
    match SinceToUnixTime now since with
    | Err e => (opts, Some (ErrSinceFlag e))
    | Ok sinceUnix =>
        (mkQueryOptions limit offset unread tag (Some sinceUnix), None)
    end
  else (opts, None).

(** *** The grammar of the shorthand, as the specification words it *)

Fixpoint allDigits (s : string) : bool :=
  match s with
  | EmptyString => true
  | String c s' => strconv.isDigit c && allDigits s'
  end.

(** The number a digit string denotes. *)
Fixpoint decimalFrom (acc : Z) (s : string) : Z :=
  match s with
  | EmptyString => acc
  | String c s' => decimalFrom (acc * 10 + strconv.digitVal c) s'
  end.

Definition decimal (s : string) : Z := decimalFrom 0 s.

(** [<digits><unit>]: a non-empty digit string followed by one unit. *)
Definition shorthand (s ds : string) (u : ascii) : Prop :=
  s = (ds +:+ String u EmptyString)%string /\
  ds <> EmptyString /\ allDigits ds = true /\ isUnit u = true.

(** Days per unit: d, w, m, y. *)
Definition unitDays (u : ascii) : Z :=
  if Ascii.eqb u "d" then 1
  else if Ascii.eqb u "w" then 7
  else if Ascii.eqb u "m" then 30
  else 365.

End query.

(** ** Package model *)

Module model.

Record Feed : Type := mkFeed {
  Feed_ID : Z;
  URL : string;
  Feed_Title : string;
  Category : string;
  LastUpdated : option time.Time;
  ETag : string;
  LastModified : string
}.

Definition feedWithID (f : Feed) (id : Z) : Feed :=
  mkFeed id (URL f) (Feed_Title f) (Category f) (LastUpdated f) (ETag f)
         (LastModified f).

Record Entry : Type := mkEntry {
  ID : Z;
  FeedID : Z;
  GUID : string;
  Title : string;
  Link : string;
  Content : string;
  Published : time.Time;
  IsRead : bool;
  Tags : list string
}.

Definition withFeedID (e : Entry) (fid : Z) : Entry :=
  mkEntry (ID e) fid (GUID e) (Title e) (Link e) (Content e)
          (Published e) (IsRead e) (Tags e).

Definition withID (e : Entry) (id : Z) : Entry :=
  mkEntry id (FeedID e) (GUID e) (Title e) (Link e) (Content e)
          (Published e) (IsRead e) (Tags e).

(** [Validate]: the URL is the one required field. *)
Definition Validate (f : Feed) : result unit string :=
  if String.eqb (URL f) "" then Err "feed URL is required"%string
  else Ok tt.

Definition IsUnread (e : Entry) : bool := negb (IsRead e).

(** The range loop of [HasTag]. *)
Fixpoint hasTagLoop (tags : list string) (tag : string) : bool :=
  match tags with
  | [] => false
  | t :: rest => if String.eqb t tag then true else hasTagLoop rest tag
  end.

Definition HasTag (e : Entry) (tag : string) : bool :=
  hasTagLoop (Tags e) tag.

End model.

(** ** The parser library: what a parsed payload looks like *)

Module gofeed.

(** The fields of [gofeed.Item] and [gofeed.Feed] the normalizer reads;
    the two [*Parsed] fields are nullable pointers. *)
Record Item : Type := mkItem {
  GUID : string;
  Title : string;
  Link : string;
  Content : string;
  Description : string;
  PublishedParsed : option time.Time;
  UpdatedParsed : option time.Time
}.

Record Feed : Type := mkFeed {
  Feed_Title : string;
  Feed_Link : string;
  Items : list Item
}.

End gofeed.

(** ** Package feed, file fetcher.go *)

Module feed.

(** [now] is what [time.Now()] returns if the conversion reads the
    clock. *)
Definition convertItem (now : time.Time) (item : gofeed.Item) : model.Entry :=
  let guid :=
    if String.eqb (gofeed.GUID item) "" then gofeed.Link item
    else gofeed.GUID item in
  let content :=
    if negb (String.eqb (gofeed.Content item) "") then gofeed.Content item
    else if negb (String.eqb (gofeed.Description item) "")
         then gofeed.Description item
         else EmptyString in
  let published :=
    match gofeed.PublishedParsed item with
    | Some t => t
    | None =>
        match gofeed.UpdatedParsed item with
        | Some t => t
        | None => now
        end
    end in
  model.mkEntry 0 0 guid (gofeed.Title item) (gofeed.Link item) content
                published false [].

(** [clock i] is the reading of the clock while item [i] is converted. *)
Definition convert (clock : nat -> time.Time) (gf : gofeed.Feed) (url : string)
  : model.Feed * list model.Entry :=
  let url' :=
    if String.eqb url "" && negb (String.eqb (gofeed.Feed_Link gf) "")
    then gofeed.Feed_Link gf else url in
  (model.mkFeed 0 url' (gofeed.Feed_Title gf) EmptyString None EmptyString
                EmptyString,
   imap (fun i item => convertItem (clock i) item) (gofeed.Items gf)).

Section Fetcher.

(** The network and the wire-format parser, [parser.ParseURL]: a
    parsed payload, or the text of the transport or parse error. *)
Variable ParseURL : string -> result gofeed.Feed string.

(** The clock during the fetch of a given URL. *)
Variable Now : string -> nat -> time.Time.

(** The text of [fmt.Errorf("failed to fetch feed from %s: %w")]. *)
Definition fetchError (url cause : string) : string :=
  ("failed to fetch feed from " +:+ url +:+ ": " +:+ cause)%string.

Definition Fetch (url : string)
  : result (model.Feed * list model.Entry) string :=
  match ParseURL url with
  | Err cause => Err (fetchError url cause)
  | Ok parsedFeed => Ok (convert (Now url) parsedFeed url)
  end.

End Fetcher.

Section Parser.

(** The wire-format parser on a payload, [parser.ParseString]. *)
Variable ParseString : string -> result gofeed.Feed string.

(** The clock while the payload is converted. *)
Variable Clock : nat -> time.Time.

Inductive ParseFailure : Type :=
| EmptyContent                (* "feed content is empty" *)
| NotParsed (cause : string). (* "failed to parse feed: ..." *)

Definition Parse (content : string)
  : result (model.Feed * list model.Entry) ParseFailure :=
  if String.eqb content "" then Err EmptyContent
  else
    match ParseString content with
    | Err cause => Err (NotParsed cause)
    | Ok parsedFeed => Ok (convert Clock parsedFeed EmptyString)
    end.

End Parser.

Section Cache.

Variable ParseURL : string -> result gofeed.Feed string.
Variable Now : string -> nat -> time.Time.

(** The third component is [modified]. *)
Definition FetchWithCache (url etag lastModified : string)
  : result (model.Feed * list model.Entry * bool) string :=
  match Fetch ParseURL Now url with
  | Err err => Err err
  | Ok (feed, entries) => Ok (feed, entries, true)
  end.

End Cache.

(** [strings.Contains]: does [substr] occur in [s]? *)
Fixpoint Contains (s substr : string) : bool :=
  String.prefix substr s ||
  match s with
  | EmptyString => false
  | String _ s' => Contains s' substr
  end.

(** The map literal of [ExtractCategories]: keyword and category. *)
Definition keywords : list (string * string) :=
  [("golang", "golang"); ("go ", "golang"); ("rust", "rust");
   ("python", "python"); ("javascript", "javascript");
   ("typescript", "typescript")]%string.

Section Categories.

(** [strings.ToLower]. *)
Variable ToLower : string -> string.

(** The order in which [range] visits the entries of a map is chosen
    by the runtime: any order may come. *)
Variable rangeMap : list (string * string) -> list (string * string).

Definition ExtractCategories (content : string) : list string :=
  let content := ToLower content in
  omap (fun kv => if Contains content kv.1 then Some kv.2 else None)
       (rangeMap keywords).

End Categories.

End feed.

(** ** Package store, file store.go *)

Module store.

Import query.

(** A row of table [entries]. *)
Record EntryRow : Type := mkEntryRow {
  row_id : Z;
  row_feed_id : Z;
  row_guid : string;
  row_title : string;
  row_link : string;
  row_content : string;
  row_published : Z;
  row_is_read : Z
}.

(** A row of table [feeds]; column [last_updated] is never written. *)
Record FeedRow : Type := mkFeedRow {
  frow_id : Z;
  frow_url : string;
  frow_title : string;
  frow_category : string;
  frow_etag : string;
  frow_last_modified : string
}.

(** The database: the two populated tables, each with the counter of
    its AUTOINCREMENT key (the largest key handed out so far).  The
    connection never turns [PRAGMA foreign_keys] on, so the FOREIGN KEY
    clauses of the schema constrain nothing. *)
Record DB : Type := mkDB {
  feeds : list FeedRow;
  feeds_seq : Z;
  entries : list EntryRow;
  entries_seq : Z
}.

Definition emptyDB : DB := mkDB [] 0 [] 0.

Inductive Error : Type :=
| ErrConstraint   (* a UNIQUE constraint failed *)
| ErrSyntax       (* the statement does not parse *)
| ErrNotFound     (* sql.ErrNoRows, reported as "not found" *)
| ErrDriver.      (* any other failure of the driver: I/O, busy, full *)

Definition boolToInt (b : bool) : Z := if b then 1 else 0.
Definition intToBool (i : Z) : bool := negb (i =? 0).
Definition unixToTime (unix : Z) : time.Time := unix * 1000000000.

Definition rowOfEntry (id : Z) (e : model.Entry) : EntryRow :=
  mkEntryRow id (model.FeedID e) (model.GUID e) (model.Title e)
             (model.Link e) (model.Content e)
             (time.Unix (model.Published e)) (boolToInt (model.IsRead e)).

Definition entryOfRow (r : EntryRow) : model.Entry :=
  model.mkEntry (row_id r) (row_feed_id r) (row_guid r) (row_title r)
                (row_link r) (row_content r) (unixToTime (row_published r))
                (intToBool (row_is_read r)) [].

(** UNIQUE(feed_id, guid): is the pair taken by a row other than
    [self]? *)
Definition keyTaken (self : option Z) (fid : Z) (guid : string)
    (rows : list EntryRow) : bool :=
  existsb (fun r =>
             (row_feed_id r =? fid) && String.eqb (row_guid r) guid &&
             match self with
             | Some id => negb (row_id r =? id)
             | None => true
             end) rows.

Definition hasEntry (id : Z) (rows : list EntryRow) : bool :=
  existsb (fun r => row_id r =? id) rows.

(** [SaveEntry] as SQL: INSERT when the entry has no id, and the new id
    is written back into the entry; UPDATE ... WHERE id = ? otherwise.
    A statement that violates UNIQUE(feed_id, guid) changes nothing. *)
Definition sqlSaveEntry (e : model.Entry) (d : DB)
  : result (model.Entry * DB) Error :=
  if model.ID e =? 0 then
    if keyTaken None (model.FeedID e) (model.GUID e) (entries d)
    then Err ErrConstraint
    else
      let id := entries_seq d + 1 in
      Ok (model.withID e id,
          mkDB (feeds d) (feeds_seq d)
               (entries d ++ [rowOfEntry id e]) id)
  else if hasEntry (model.ID e) (entries d) then
    if keyTaken (Some (model.ID e)) (model.FeedID e) (model.GUID e)
                (entries d)
    then Err ErrConstraint
    else
      Ok (e, mkDB (feeds d) (feeds_seq d)
                  (map (fun r => if row_id r =? model.ID e
                                 then rowOfEntry (model.ID e) e else r)
                       (entries d))
                  (entries_seq d))
  else Ok (e, d).

Definition setRead (isRead : bool) (r : EntryRow) : EntryRow :=
  mkEntryRow (row_id r) (row_feed_id r) (row_guid r) (row_title r)
             (row_link r) (row_content r) (row_published r)
             (boolToInt isRead).

(** UPDATE entries SET is_read = ? WHERE id = ?: no row is no error. *)
Definition sqlMarkEntryRead (id : Z) (isRead : bool) (d : DB)
  : result (unit * DB) Error :=
  Ok (tt,
      mkDB (feeds d) (feeds_seq d)
           (map (fun r => if row_id r =? id then setRead isRead r else r)
                (entries d))
           (entries_seq d)).

Definition sqlGetEntry (id : Z) (d : DB) : result (model.Entry * DB) Error :=
  match find (fun r => row_id r =? id) (entries d) with
  | Some r => Ok (entryOfRow r, d)
  | None => Err ErrNotFound
  end.

(** ORDER BY published DESC. *)
Definition newerFirst (r1 r2 : EntryRow) : Prop :=
  row_published r2 <= row_published r1.

#[global] Instance newerFirst_dec r1 r2 : Decision (newerFirst r1 r2).
Proof. unfold newerFirst. apply _. Defined.

(** [GetEntries]: the WHERE filters, the ordering, then LIMIT and
    OFFSET.  The statement gets its LIMIT clause only for a positive
    limit and its OFFSET clause only for a positive offset; SQLite
    admits OFFSET only after LIMIT, so an offset without a limit is a
    statement that does not parse. *)
Definition sqlGetEntries (opts : QueryOptions) (d : DB)
  : result (list model.Entry * DB) Error :=
  let unread := List.filter (fun r => negb (UnreadOnly opts) ||
                                      (row_is_read r =? 0))
                            (entries d) in
  let recent := List.filter (fun r => match SinceTime opts with
                                      | Some t => t <=? row_published r
                                      | None => true
                                      end) unread in
  let ordered := merge_sort newerFirst recent in
  if (Limit opts <=? 0) && (0 <? Offset opts) then Err ErrSyntax
  else
    let skipped := if 0 <? Offset opts
                   then drop (Z.to_nat (Offset opts)) ordered else ordered in
    let capped := if 0 <? Limit opts
                  then take (Z.to_nat (Limit opts)) skipped else skipped in
    Ok (map entryOfRow capped, d).

Definition feedOfRow (r : FeedRow) : model.Feed :=
  model.mkFeed (frow_id r) (frow_url r) (frow_title r) (frow_category r)
               None (frow_etag r) (frow_last_modified r).

Definition rowOfFeed (id : Z) (f : model.Feed) : FeedRow :=
  mkFeedRow id (model.URL f) (model.Feed_Title f) (model.Category f)
            (model.ETag f) (model.LastModified f).

(** UNIQUE(url), for a row other than [self]. *)
Definition urlTaken (self : option Z) (url : string) (rows : list FeedRow)
  : bool :=
  existsb (fun r =>
             String.eqb (frow_url r) url &&
             match self with
             | Some id => negb (frow_id r =? id)
             | None => true
             end) rows.

Definition sqlSaveFeed (f : model.Feed) (d : DB)
  : result (model.Feed * DB) Error :=
  if model.Feed_ID f =? 0 then
    if urlTaken None (model.URL f) (feeds d) then Err ErrConstraint
    else
      let id := feeds_seq d + 1 in
      Ok (model.feedWithID f id,
          mkDB (feeds d ++ [rowOfFeed id f]) id (entries d) (entries_seq d))
  else if existsb (fun r => frow_id r =? model.Feed_ID f) (feeds d) then
    if urlTaken (Some (model.Feed_ID f)) (model.URL f) (feeds d)
    then Err ErrConstraint
    else
      Ok (f, mkDB (map (fun r => if frow_id r =? model.Feed_ID f
                                 then rowOfFeed (model.Feed_ID f) f else r)
                       (feeds d))
                  (feeds_seq d) (entries d) (entries_seq d))
  else Ok (f, d).

Definition sqlGetFeed (id : Z) (d : DB) : result (model.Feed * DB) Error :=
  match find (fun r => frow_id r =? id) (feeds d) with
  | Some r => Ok (feedOfRow r, d)
  | None => Err ErrNotFound
  end.

Definition sqlGetAllFeeds (d : DB) : result (list model.Feed * DB) Error :=
  Ok (map feedOfRow (feeds d), d).

(** DELETE FROM feeds WHERE id = ?. *)
Definition sqlDeleteFeed (id : Z) (d : DB) : result (unit * DB) Error :=
  Ok (tt, mkDB (List.filter (fun r => negb (frow_id r =? id)) (feeds d))
             (feeds_seq d)
               (entries d) (entries_seq d)).

(** The handle [*Store]: the database behind a driver that can fail.
    [driver] scripts the failures to come, one flag per call that
    reaches the driver; a failing call leaves the database as it was.
    Past the end of the script no call fails. *)
Record Store : Type := mkStore {
  db : DB;
  driver : list bool
}.

Definition exec {A : Type} (stmt : DB -> result (A * DB) Error) (s : Store)
  : result A Error * Store :=
  match driver s with
  | true :: script => (Err ErrDriver, mkStore (db s) script)
  | script =>
      match stmt (db s) with
      | Ok (a, d') => (Ok a, mkStore d' (tail script))
      | Err e => (Err e, mkStore (db s) (tail script))
      end
  end.

Definition SaveFeed (f : model.Feed) := exec (sqlSaveFeed f).
Definition GetFeed (id : Z) := exec (sqlGetFeed id).
Definition GetAllFeeds := exec sqlGetAllFeeds.
Definition DeleteFeed (id : Z) := exec (sqlDeleteFeed id).
Definition SaveEntry (e : model.Entry) := exec (sqlSaveEntry e).
Definition GetEntry (id : Z) := exec (sqlGetEntry id).
Definition GetEntries (opts : QueryOptions) := exec (sqlGetEntries opts).
Definition MarkEntryRead (id : Z) (isRead : bool) :=
  exec (sqlMarkEntryRead id isRead).

(** A driver that is not going to fail. *)
Definition quiet (s : Store) : Prop :=
  Forall (fun b => b = false) (driver s).

(** *** Integrity of the database *)

(** The pair the UNIQUE(feed_id, guid) constraint is about. *)
Definition entryKey (r : EntryRow) : Z * string :=
  (row_feed_id r, row_guid r).

(** Primary keys and the two UNIQUE constraints, with the AUTOINCREMENT
    counters ahead of every key in use. *)
Record wellFormed (d : DB) : Prop := mkWellFormed {
  wf_entry_ids : NoDup (map row_id (entries d));
  wf_entry_keys : NoDup (map entryKey (entries d));
  wf_entry_seq : Forall (fun r => row_id r <= entries_seq d) (entries d);
  wf_feed_ids : NoDup (map frow_id (feeds d));
  wf_feed_urls : NoDup (map frow_url (feeds d));
  wf_feed_seq : Forall (fun r => frow_id r <= feeds_seq d) (feeds d)
}.

(** A call of the store's interface, and the store it leaves. *)
Inductive Call : Type :=
| CallSaveFeed (f : model.Feed)
| CallGetFeed (id : Z)
| CallGetAllFeeds
| CallDeleteFeed (id : Z)
| CallSaveEntry (e : model.Entry)
| CallGetEntry (id : Z)
| CallGetEntries (opts : QueryOptions)
| CallMarkEntryRead (id : Z) (isRead : bool).

Definition call (c : Call) (s : Store) : Store :=
  match c with
  | CallSaveFeed f => (SaveFeed f s).2
  | CallGetFeed id => (GetFeed id s).2
  | CallGetAllFeeds => (GetAllFeeds s).2
  | CallDeleteFeed id => (DeleteFeed id s).2
  | CallSaveEntry e => (SaveEntry e s).2
  | CallGetEntry id => (GetEntry id s).2
  | CallGetEntries opts => (GetEntries opts s).2
  | CallMarkEntryRead id isRead => (MarkEntryRead id isRead s).2
  end.

Definition history (calls : list Call) (s : Store) : Store :=
  fold_left (fun s c => call c s) calls s.

(** The databases the interface can build from the empty schema, under
    any behaviour of the driver. *)
Definition reachable (d : DB) : Prop :=
  exists calls script, db (history calls (mkStore emptyDB script)) = d.

(** How many rows of table [entries] hold the given key. *)
Definition rowsWithKey (fid : Z) (guid : string) (d : DB) : nat :=
  length (List.filter (fun r => (row_feed_id r =? fid) &&
                                String.eqb (row_guid r) guid) (entries d)).

(** The outcomes of marking the given identifiers read, in order:
    [true] for a call that returned no error. *)
Fixpoint markOutcomes (ids : list Z) (s : Store) : list bool :=
  match ids with
  | [] => []
  | id :: rest =>
      let '(r, s') := MarkEntryRead id true s in
      is_ok r :: markOutcomes rest s'
  end.

(** The identifiers among them whose call returned no error. *)
Fixpoint markedIds (ids : list Z) (s : Store) : list Z :=
  match ids with
  | [] => []
  | id :: rest =>
      let '(r, s') := MarkEntryRead id true s in
      if is_ok r then id :: markedIds rest s' else markedIds rest s'
  end.

(** The rows after marking a set of identifiers read. *)
Definition markSet (ids : list Z) (r : EntryRow) : EntryRow :=
  if existsb (Z.eqb (row_id r)) ids then setRead true r else r.

Definition succeeded (outcomes : list bool) : nat :=
  length (List.filter (fun b => b) outcomes).

(** How many rows have a read flag that differs between two states of
    the table (marking keeps the rows in place). *)
Definition flagsChanged (before after : list EntryRow) : nat :=
  length (List.filter (fun p => negb (row_is_read p.1 =? row_is_read p.2))
                      (zip before after)).


(** AUTOINCREMENT starts at one: every key in use is positive. *)
Record positiveKeys (d : DB) : Prop := mkPositiveKeys {
  pos_feed_seq : 0 <= feeds_seq d;
  pos_entry_seq : 0 <= entries_seq d;
  pos_feed_ids : Forall (fun r => 0 < frow_id r) (feeds d);
  pos_entry_ids : Forall (fun r => 0 < row_id r) (entries d)
}.

(** *** A small database for the examples *)

Definition sampleEntry (fid : Z) (guid : string) (published : time.Time)
  : model.Entry :=
  model.mkEntry 0 fid guid guid EmptyString EmptyString published false [].

(** Two unread entries of feed 1, saved through the interface. *)
Definition sampleDB : DB :=
  db (history [CallSaveEntry (sampleEntry 1 "a" 2000000000);
               CallSaveEntry (sampleEntry 1 "b" 1000000000)]
              (mkStore emptyDB [])).

End store.

(** ** Package opml, file opml.go *)

Module opml.

(** An [<outline>] element: a feed, a folder of outlines, or both. *)
#[warnings="-register-all"]
Inductive Outline : Type := mkOutline {
  Text : string;
  Title : string;
  Type_ : string;
  XMLUrl : string;
  Category : string;
  Outlines : list Outline
}.

Record Head : Type := mkHead {
  Head_Title : string;
  DateCreated : string
}.

Record Body : Type := mkBody {
  Body_Outlines : list Outline
}.

Record OPML : Type := mkOPML {
  Version : string;
  OPML_Head : Head;
  OPML_Body : Body
}.

(** One turn of the loop of [extractFeeds]: the feed of the outline, if
    it has an [xmlUrl], then the feeds of the outlines nested in it. *)
Fixpoint extractOutline (parentCategory : string) (outline : Outline)
  : list model.Feed :=
  match outline with
  | mkOutline text title _ xmlUrl category outlines =>
      (if negb (String.eqb xmlUrl "") then
         [model.mkFeed 0 xmlUrl
            (if String.eqb title "" then text else title)
            (if negb (String.eqb category "") then category
             else if negb (String.eqb parentCategory "") then parentCategory
             else EmptyString)
            None EmptyString EmptyString]
       else []) ++
      (if (0 <? length outlines)%nat then
         let categoryForChildren :=
           if String.eqb text "" then parentCategory else text in
         List.flat_map (extractOutline categoryForChildren) outlines
       else [])
  end.

Definition extractFeeds (outlines : list Outline) (parentCategory : string)
  : list model.Feed :=
  List.flat_map (extractOutline parentCategory) outlines.

(** Every outline of a forest, parents before children, in the order
    of the document. *)
Fixpoint outlineAndBelow (outline : Outline) : list Outline :=
  match outline with
  | mkOutline _ _ _ _ _ outlines =>
      outline :: List.flat_map outlineAndBelow outlines
  end.

Definition allOutlines (outlines : list Outline) : list Outline :=
  List.flat_map outlineAndBelow outlines.

Section Reading.

(** [xml.NewDecoder(r).Decode(&opml)] on the bytes of the reader. *)
Variable Decode : string -> result OPML string.

Definition Parse (r : string) : result (list model.Feed) string :=
  match Decode r with
  | Err err => Err ("failed to parse OPML: " +:+ err)%string
  | Ok opml => Ok (extractFeeds (Body_Outlines (OPML_Body opml)) EmptyString)
  end.

End Reading.

(** The first loop of [Generate]: the map from category to its feeds,
    and the feeds without a category. *)
Definition categorize (feeds : list model.Feed)
  : gmap string (list model.Feed) * list model.Feed :=
  foldl (fun acc feed =>
           if String.eqb (model.Category feed) "" then
             (acc.1, acc.2 ++ [feed])
           else
             (<[model.Category feed :=
                  default [] (acc.1 !! model.Category feed) ++ [feed]]> acc.1,
              acc.2))
        (∅, []) feeds.

(** The outline of a feed under its category. *)
Definition categorizedOutline (feed : model.Feed) : Outline :=
  mkOutline (model.Feed_Title feed) (model.Feed_Title feed) "rss"
            (model.URL feed) (model.Category feed) [].

(** The outline of a feed without a category. *)
Definition plainOutline (feed : model.Feed) : Outline :=
  mkOutline (model.Feed_Title feed) (model.Feed_Title feed) "rss"
            (model.URL feed) EmptyString [].

Definition categoryOutline (group : string * list model.Feed) : Outline :=
  mkOutline group.1 group.1 EmptyString EmptyString EmptyString
            (map categorizedOutline group.2).

(** The three places where [Generate] can fail. *)
Inductive Stage : Type :=
| WriteHeader
| Encode
| WriteNewline.

Section Writing.

(** The order in which [range categories] visits the map is chosen by
    the runtime; [rangeMap] is that choice. *)
Variable rangeMap :
  gmap string (list model.Feed) -> list (string * list model.Feed).

(** [time.Now().Format(time.RFC1123)]. *)
Variable dateCreated : string.

(** The document [Generate] builds before it writes anything. *)
Definition document (feeds : list model.Feed) : OPML :=
  let '(categories, uncategorized) := categorize feeds in
  mkOPML "2.0"
         (mkHead "feed-cli Subscriptions" dateCreated)
         (mkBody (map categoryOutline (rangeMap categories) ++
                  map plainOutline uncategorized)).

(** Does the writer take what a stage sends it? *)
Variable accepts : Stage -> bool.

(** The document written, or the stage that failed. *)
Definition Generate (feeds : list model.Feed) : result OPML Stage :=
  let opml := document feeds in
  if negb (accepts WriteHeader) then Err WriteHeader
  else if negb (accepts Encode) then Err Encode
  else if negb (accepts WriteNewline) then Err WriteNewline
  else Ok opml.

End Writing.

(** What a feed keeps on its way through an OPML document: the URL,
    the title and the category. *)
Definition subscription (feed : model.Feed) : model.Feed :=
  model.mkFeed 0 (model.URL feed) (model.Feed_Title feed)
               (model.Category feed) None EmptyString EmptyString.

End opml.

(** ** Package main, file cmd/feed-cli/main.go *)

Module main.

Import store.

Definition ExitSuccess : Z := 0.
Definition ExitGeneralError : Z := 1.
Definition ExitUsageError : Z := 2.
Definition ExitDataError : Z := 3.

(** Why a command gave up; the message texts are left out. *)
Inductive Cause : Type :=
| Usage
| OpenFailed
| StoreFailed (e : store.Error).

(** The non-nil errors an action returns: [cli.Exit] with its exit code,
    or the encoder's error when the report cannot be written. *)
Inductive Failure : Type :=
| Exit (cause : Cause) (code : Z)
| WriteFailed.

(** What an action reads from [*cli.Context] and its surroundings: the
    positional arguments, the [--feed-id] flag, whether [getStore] gets a
    database, and whether standard output takes the report. *)
Record Context : Type := mkContext {
  Args : list string;
  feedIDFlag : Z;
  canOpen : bool;
  canWrite : bool
}.

Definition NArg (c : Context) : nat := length (Args c).

(** [disk] is the database file with the driver in front of it. *)
Definition getStore (c : Context) (disk : Store) : result Store Cause :=
  if canOpen c then Ok disk else Err OpenFailed.

Definition outputJSON {A : Type} (c : Context) (v : A) : result A Failure :=
  if canWrite c then Ok v else Err WriteFailed.

(** A scanner for the examples: the value of a string of digits. *)
Definition scanDigits (s : string) : option Z :=
  match s with
  | EmptyString => None
  | _ => if query.allDigits s then Some (query.decimal s) else None
  end.

Section ReadTracking.

(** [fmt.Sscanf(arg, "%d", &id)]: the identifier scanned, or none when
    the call returns an error. *)
Variable Sscanf : string -> option Z.

Fixpoint markReadLoop (args : list string) (marked : nat) (s : Store)
  : nat * Store :=
  match args with
  | [] => (marked, s)
  | arg :: rest =>
      match Sscanf arg with
      | None => markReadLoop rest marked s
      | Some id =>
          match MarkEntryRead id true s with
          | (Err _, s') => markReadLoop rest marked s'
          | (Ok _, s') => markReadLoop rest (S marked) s'
          end
      end
  end.

(** The report is the number [marked_read]. *)
Definition markRead (c : Context) (disk : Store)
  : result nat Failure * Store :=
  if (NArg c <? 1)%nat then (Err (Exit Usage ExitUsageError), disk)
  else
    match getStore c disk with
    | Err cause => (Err (Exit cause ExitDataError), disk)
    | Ok s =>
        let '(marked, s') := markReadLoop (Args c) 0 s in
        (outputJSON c marked, s')
    end.

End ReadTracking.

(** The loop of [markAllRead]: the error of each call is dropped. *)
Fixpoint markAllLoop (entries : list model.Entry) (s : Store) : Store :=
  match entries with
  | [] => s
  | entry :: rest =>
      markAllLoop rest (snd (MarkEntryRead (model.ID entry) true s))
  end.

Definition unreadOptions : query.QueryOptions :=
  query.mkQueryOptions 0 0 true EmptyString None.

Definition markAllRead (c : Context) (disk : Store)
  : result nat Failure * Store :=
  match getStore c disk with
  | Err cause => (Err (Exit cause ExitDataError), disk)
  | Ok s =>
      match GetEntries unreadOptions s with
      | (Err e, s') => (Err (Exit (StoreFailed e) ExitDataError), s')
      | (Ok entries, s') =>
          (outputJSON c (length entries), markAllLoop entries s')
      end
  end.

(** *** updateFeeds *)

(** A value of the [results] map: [{"error": msg}] or
    [{"new_entries": n, "total_entries": m}]. *)
Inductive ResultEntry : Type :=
| ResError (msg : string)
| ResCounts (new_entries total_entries : nat).

Record Report : Type := mkReport {
  updated_feeds : nat;
  total_new_entries : nat;
  report_results : gmap string ResultEntry
}.

(** Where a goroutine of the fan-out stands. *)
Inductive Phase : Type :=
| Spawned                    (* started, about to send on [sem] *)
| Fetching                   (* holds a slot, about to call [Fetch] *)
| Saving (entries todo : list model.Entry) (newEntries : nat)
| Locking (r : ResultEntry)  (* about to take [mu] *)
| Writing (r : ResultEntry)  (* holds [mu], about to write its outcome *)
| Unlocking                  (* about to release [mu] *)
| Releasing                  (* deferred receive from [sem] *)
| Finishing                  (* deferred [wg.Done()] *)
| Done.

(** The state shared by the main goroutine and the workers. *)
Record State : Type := mkState {
  st : Store;
  results : gmap string ResultEntry;
  totalNewEntries : nat;
  mu : bool;                          (* is the mutex held? *)
  wg : nat;                           (* counter of the wait group *)
  sem : nat;                          (* tokens in the channel *)
  pending : list model.Feed;          (* rest of the range loop *)
  tasks : list (model.Feed * Phase);  (* goroutines, in spawn order *)
  returned : bool                     (* has [wg.Wait()] returned? *)
}.

(** Capacity of the channel [sem]. *)
Definition semCap : nat := 50.

Definition init (feedsToUpdate : list model.Feed) (s : Store) : State :=
  mkState s ∅ 0 false 0 0 feedsToUpdate [] false.

Definition setTask (i : nat) (f : model.Feed) (p : Phase) (g : State)
  : list (model.Feed * Phase) :=
  <[i := (f, p)]> (tasks g).

(** Threads: the main goroutine and the workers by spawn index. *)
Inductive Tid : Type :=
| Main
| Worker (i : nat).

(** *** Reading a state *)

(** Does a goroutine in this phase hold a slot of [sem]? *)
Definition holdsSlot (p : Phase) : bool :=
  match p with
  | Fetching | Saving _ _ _ | Locking _ | Writing _ | Unlocking | Releasing =>
      true
  | Spawned | Finishing | Done => false
  end.

(** Is its fetch in flight? *)
Definition fetching (p : Phase) : bool :=
  match p with
  | Fetching => true
  | _ => false
  end.

(** Does it hold [mu]? *)
Definition holdsMutex (p : Phase) : bool :=
  match p with
  | Writing _ | Unlocking => true
  | _ => false
  end.

(** Has it yet to call [wg.Done()]? *)
Definition live (p : Phase) : bool :=
  match p with
  | Done => false
  | _ => true
  end.

(** Has it written its entry of [results]? *)
Definition wrote (p : Phase) : bool :=
  match p with
  | Unlocking | Releasing | Finishing | Done => true
  | _ => false
  end.

(** Can a goroutine in this phase step whatever the others do? *)
Definition unblocked (p : Phase) : bool :=
  match p with
  | Spawned | Locking _ | Done => false
  | _ => true
  end.

Definition waitsLock (p : Phase) : bool :=
  match p with
  | Locking _ => true
  | _ => false
  end.

Definition waitsSlot (p : Phase) : bool :=
  match p with
  | Spawned => true
  | _ => false
  end.

Definition countPhase (P : Phase -> bool) (ts : list (model.Feed * Phase))
  : nat :=
  sum_list_with (fun t => if P t.2 then 1%nat else 0%nat) ts.

Definition inFlight (g : State) : nat := countPhase fetching (tasks g).
Definition slotsHeld (g : State) : nat := countPhase holdsSlot (tasks g).

Definition newOf (r : ResultEntry) : nat :=
  match r with
  | ResError _ => 0%nat
  | ResCounts n _ => n
  end.

(** The sum of [new_entries] over the entries of a report that have
    one. *)
Definition sumNew (m : gmap string ResultEntry) : nat :=
  map_fold (fun _ r acc => (newOf r + acc)%nat) 0%nat m.

(** Feeds for the examples: [n] feeds with identifiers 1 to n and the
    URLs u, ux, uxx, ... *)
Definition sampleFeed (i : nat) : model.Feed :=
  model.mkFeed (Z.of_nat (S i))
               (String "u" (string_of_list_ascii (replicate i "x"%char)))
               EmptyString EmptyString None EmptyString EmptyString.

Definition sampleFeeds (n : nat) : list model.Feed :=
  map sampleFeed (seq 0 n).

Section Sync.

Variable ParseURL : string -> result gofeed.Feed string.
Variable Now : string -> nat -> time.Time.

(** One step of the main goroutine: the next iteration of the range
    loop ([wg.Add(1)] and [go]), or, after the loop, [wg.Wait()], which
    returns only at counter zero. *)
Definition stepMain (g : State) : option State :=
  match pending g with
  | f :: rest =>
      Some (mkState (st g) (results g) (totalNewEntries g) (mu g)
                    (S (wg g)) (sem g) rest (tasks g ++ [(f, Spawned)])
                    (returned g))
  | [] =>
      if returned g then None
      else if (wg g =? 0)%nat then
        Some (mkState (st g) (results g) (totalNewEntries g) (mu g) (wg g)
                      (sem g) [] (tasks g) true)
      else None
  end.

(** One step of worker [i]; [None] when it is blocked or has finished. *)
Definition stepWorker (i : nat) (g : State) : option State :=
  match tasks g !! i with
  | None => None
  | Some (f, phase) =>
      let move p :=
        mkState (st g) (results g) (totalNewEntries g) (mu g) (wg g) (sem g)
                (pending g) (setTask i f p g) (returned g) in
      match phase with
      | Spawned =>
          if (sem g <? semCap)%nat then
            Some (mkState (st g) (results g) (totalNewEntries g) (mu g)
                          (wg g) (S (sem g)) (pending g)
                          (setTask i f Fetching g) (returned g))
          else None
      | Fetching =>
          match feed.Fetch ParseURL Now (model.URL f) with
          | Err msg => Some (move (Locking (ResError msg)))
          | Ok (_, entries) => Some (move (Saving entries entries 0))
          end
      | Saving entries [] newEntries =>
          Some (move (Locking (ResCounts newEntries (length entries))))
      | Saving entries (entry :: todo) newEntries =>
          let '(r, s') :=
            SaveEntry (model.withFeedID entry (model.Feed_ID f)) (st g) in
          let n := match r with
                   | Err _ => newEntries
                   | Ok _ => S newEntries
                   end in
          Some (mkState s' (results g) (totalNewEntries g) (mu g) (wg g)
                        (sem g) (pending g)
                        (setTask i f (Saving entries todo n) g) (returned g))
      | Locking r =>
          if mu g then None
          else
            Some (mkState (st g) (results g) (totalNewEntries g) true (wg g)
                          (sem g) (pending g) (setTask i f (Writing r) g)
                          (returned g))
      | Writing r =>
          let total := match r with
                       | ResError _ => totalNewEntries g
                       | ResCounts n _ => (totalNewEntries g + n)%nat
                       end in
          Some (mkState (st g) (<[model.URL f := r]> (results g)) total
                        (mu g) (wg g) (sem g) (pending g)
                        (setTask i f Unlocking g) (returned g))
      | Unlocking =>
          Some (mkState (st g) (results g) (totalNewEntries g) false (wg g)
                        (sem g) (pending g) (setTask i f Releasing g)
                        (returned g))
      | Releasing =>
          Some (mkState (st g) (results g) (totalNewEntries g) (mu g) (wg g)
                        (pred (sem g)) (pending g) (setTask i f Finishing g)
                        (returned g))
      | Finishing =>
          Some (mkState (st g) (results g) (totalNewEntries g) (mu g)
                        (pred (wg g)) (sem g) (pending g)
                        (setTask i f Done g) (returned g))
      | Done => None
      end
  end.

Definition step (t : Tid) (g : State) : option State :=
  match t with
  | Main => stepMain g
  | Worker i => stepWorker i g
  end.

(** Running a schedule: the threads in the order they take their steps.
    [None] when the schedule asks a blocked or finished thread to move. *)
Fixpoint steps (sched : list Tid) (g : State) : option State :=
  match sched with
  | [] => Some g
  | t :: sched' =>
      match step t g with
      | Some g' => steps sched' g'
      | None => None
      end
  end.

(** *** What holds of every state of a run *)

(** The entry a source is due: the error of its fetch, or counts whose
    total is the number of items fetched. *)
Definition due (f : model.Feed) (r : ResultEntry) : Prop :=
  match feed.Fetch ParseURL Now (model.URL f) with
  | Err msg => r = ResError msg
  | Ok (_, entries) =>
      exists n, r = ResCounts n (length entries) /\ (n <= length entries)%nat
  end.

(** What a goroutine carries agrees with what its fetch returned. *)
Definition carries (f : model.Feed) (p : Phase) : Prop :=
  match p with
  | Saving entries todo n =>
      (exists fd, feed.Fetch ParseURL Now (model.URL f) = Ok (fd, entries)) /\
      (n + length todo <= length entries)%nat /\
      (exists gone, entries = gone ++ todo)
  | Locking r | Writing r => due f r
  | _ => True
  end.

Record Inv (feedsToUpdate : list model.Feed) (g : State) : Prop := mkInv {
  inv_feeds : (tasks g).*1 ++ pending g = feedsToUpdate;
  inv_sem : sem g = countPhase holdsSlot (tasks g);
  inv_cap : (sem g <= semCap)%nat;
  inv_mu : (if mu g then 1%nat else 0%nat) = countPhase holdsMutex (tasks g);
  inv_wg : wg g = countPhase live (tasks g);
  inv_carries : forall i f p, tasks g !! i = Some (f, p) -> carries f p;
  inv_unwritten : forall i f p,
      tasks g !! i = Some (f, p) -> wrote p = false ->
      results g !! model.URL f = None;
  inv_written : forall i f p,
      tasks g !! i = Some (f, p) -> wrote p = true ->
      exists r, results g !! model.URL f = Some r /\ due f r;
  inv_pending : forall f, f ∈ pending g -> results g !! model.URL f = None;
  inv_dom : forall u, is_Some (results g !! u) ->
                      exists f, f ∈ (tasks g).*1 /\ model.URL f = u;
  inv_total : totalNewEntries g = sumNew (results g);
  inv_returned : returned g = true -> pending g = [] /\ wg g = 0%nat
}.

(** How many items the fetch of a feed yields. *)
Definition fetched (f : model.Feed) : nat :=
  match feed.Fetch ParseURL Now (model.URL f) with
  | Ok (_, entries) => length entries
  | Err _ => 0%nat
  end.

(** The steps a goroutine has left, at most. *)
Definition weight (t : model.Feed * Phase) : nat :=
  match t.2 with
  | Spawned => 8 + fetched t.1
  | Fetching => 7 + fetched t.1
  | Saving _ todo _ => 6 + length todo
  | Locking _ => 5
  | Writing _ => 4
  | Unlocking => 3
  | Releasing => 2
  | Finishing => 1
  | Done => 0
  end%nat.

Definition measure (g : State) : nat :=
  (sum_list_with weight (tasks g) +
   sum_list_with (fun f => 9 + fetched f) (pending g) +
   (if returned g then 0 else 1))%nat.

(** The items of the working set are all in the store already. *)
Definition persisted (feedsToUpdate : list model.Feed) (d : DB) : Prop :=
  forall f fd entries e,
    f ∈ feedsToUpdate ->
    feed.Fetch ParseURL Now (model.URL f) = Ok (fd, entries) ->
    e ∈ entries ->
    keyTaken None (model.Feed_ID f) (model.GUID e) (store.entries d) = true.

(** While a run with a quiet driver goes on: what each goroutine has
    gone through is in the store. *)
Definition saved (d : DB) (f : model.Feed) (p : Phase) : Prop :=
  match p with
  | Spawned | Fetching => True
  | Saving entries todo _ =>
      forall gone e, entries = gone ++ todo -> e ∈ gone ->
        keyTaken None (model.Feed_ID f) (model.GUID e) (store.entries d) = true
  | _ =>
      forall fd entries e,
        feed.Fetch ParseURL Now (model.URL f) = Ok (fd, entries) ->
        e ∈ entries ->
        keyTaken None (model.Feed_ID f) (model.GUID e) (store.entries d) = true
  end.

(** While a run over a store that has everything goes on: nothing is
    new. *)
Definition nothingNew (p : Phase) : Prop :=
  match p with
  | Saving _ _ n => n = 0%nat
  | Locking r | Writing r => newOf r = 0%nat
  | _ => True
  end.

(** The working set: one feed by id, or all of them. *)
Definition resolve (c : Context) (s : Store)
  : result (list model.Feed) Failure * Store :=
  if 0 <? feedIDFlag c then
    match GetFeed (feedIDFlag c) s with
    | (Err e, s') => (Err (Exit (StoreFailed e) ExitDataError), s')
    | (Ok f, s') => (Ok [f], s')
    end
  else
    match GetAllFeeds s with
    | (Err e, s') => (Err (Exit (StoreFailed e) ExitDataError), s')
    | (Ok feeds, s') => (Ok feeds, s')
    end.

Definition reportOf (feedsToUpdate : list model.Feed) (g : State) : Report :=
  mkReport (length feedsToUpdate) (totalNewEntries g) (results g).

(** [updateFeeds] under a schedule of its goroutines.  [None] when the
    schedule is not a complete run: it asks for an impossible step or
    stops before [wg.Wait()] has returned. *)
Definition updateFeeds (c : Context) (sched : list Tid) (disk : Store)
  : option (result Report Failure * Store) :=
  match getStore c disk with
  | Err cause => Some (Err (Exit cause ExitDataError), disk)
  | Ok s =>
      match resolve c s with
      | (Err failure, s') => Some (Err failure, s')
      | (Ok feedsToUpdate, s') =>
          match steps sched (init feedsToUpdate s') with
          | Some g =>
              if returned g
              then Some (outputJSON c (reportOf feedsToUpdate g), st g)
              else None
          | None => None
          end
      end
  end.

End Sync.

(** *** A sync for the examples *)

Definition sampleItem (guid : string) : gofeed.Item :=
  gofeed.mkItem guid guid ("https://x/" +:+ guid)%string EmptyString
                EmptyString None None.

(** The feed at u has three items, the fetch of ux fails, and any
    other feed has one item. *)
Definition sampleParseURL (url : string) : result gofeed.Feed string :=
  if String.eqb url "u" then
    Ok (gofeed.mkFeed "U" EmptyString
                      [sampleItem "a"; sampleItem "b"; sampleItem "c"])
  else if String.eqb url "ux" then Err "timeout"%string
  else Ok (gofeed.mkFeed "other" EmptyString [sampleItem "d"]).

Definition sampleNow (url : string) (i : nat) : time.Time :=
  1700000000000000000.

Definition newFeed (url : string) : model.Feed :=
  model.mkFeed 0 url EmptyString EmptyString None EmptyString EmptyString.

(** The feeds u, ux and uxx, and item a of feed u already stored. *)
Definition sampleSyncDB : DB :=
  db (history [CallSaveFeed (newFeed "u"); CallSaveFeed (newFeed "ux");
               CallSaveFeed (newFeed "uxx");
               CallSaveEntry (sampleEntry 1 "a" 0)]
              (mkStore emptyDB [])).

(** Three sources one after the other. *)
Definition serialSchedule : list Tid :=
  [Main; Main; Main] ++ replicate 11 (Worker 0) ++ replicate 7 (Worker 1) ++
  replicate 9 (Worker 2) ++ [Main].

(** The same three sources with their steps interleaved. *)
Definition mixedSchedule : list Tid :=
  [Main; Main; Worker 0; Worker 1; Main; Worker 0; Worker 0; Worker 1;
   Worker 2; Worker 0; Worker 0; Worker 1; Worker 2; Worker 0; Worker 1;
   Worker 1; Worker 2; Worker 0; Worker 0; Worker 1; Worker 2; Worker 0;
   Worker 0; Worker 1; Worker 2; Worker 0; Worker 2; Worker 2; Worker 2;
   Worker 2; Main].

Definition sampleContext : Context := mkContext [] 0 true true.

(** *** The other commands *)

(** Why one of them gave up; the message texts are left out. *)
Inductive Reason : Type :=
| BadUsage                              (* the usage line of the command *)
| NoStore                               (* [getStore] failed *)
| InvalidFeed                           (* [Validate] failed *)
| FetchFailed (msg : string)            (* [Fetch] failed *)
| StoreError (e : store.Error)          (* a call of the store failed *)
| InvalidID                             (* [Sscanf] failed *)
| InvalidOptions (e : query.BuildError) (* [BuildQueryOptions] failed *)
| NoFile                                (* [os.Open] failed *)
| BadOPML (msg : string)                (* [opml.Parse] failed *)
| NoOutput                              (* [os.Create] failed *)
| NotGenerated (stage : opml.Stage).    (* [opml.Generate] failed *)

(** [cli.Exit] with its exit code, or the error of the JSON encoder. *)
Inductive Abort : Type :=
| ExitCode (why : Reason) (code : Z)
| EncodeFailed.

Definition printJSON {A : Type} (c : Context) (v : A) : result A Abort :=
  match outputJSON c v with
  | Ok v => Ok v
  | Err _ => Err EncodeFailed
  end.

(** [c.Args().Get(n)]: the empty string past the last argument. *)
Definition Get (c : Context) (n : nat) : string := nth n (Args c) EmptyString.

(** The report of [list]. *)
Record Listing : Type := mkListing {
  count : nat;
  limit : Z;
  offset : Z;
  listed : list model.Entry
}.

(** The report of [import]; an error is kept as the URL and the error
    of [SaveFeed]. *)
Record Import : Type := mkImport {
  imported : nat;
  skipped : nat;
  total : nat;
  errors : list (string * store.Error)
}.

(** What [export] leaves: the document written and, when it went to a
    file, the report with the path and the number of feeds. *)
Record Export : Type := mkExport {
  exported : opml.OPML;
  status : option (string * nat)
}.

(** The loop of [importOPML]. *)
Fixpoint importLoop (feeds : list model.Feed) (imported skipped : nat)
    (errors : list (string * store.Error)) (s : Store)
  : nat * nat * list (string * store.Error) * Store :=
  match feeds with
  | [] => (imported, skipped, errors, s)
  | newFeed :: rest =>
      match SaveFeed newFeed s with
      | (Err err, s') =>
          importLoop rest imported (S skipped)
                     (errors ++ [(model.URL newFeed, err)]) s'
      | (Ok _, s') => importLoop rest (S imported) skipped errors s'
      end
  end.

Section Commands.

Variable ParseURL : string -> result gofeed.Feed string.
Variable Now : string -> nat -> time.Time.
Variable Sscanf : string -> option Z.

(** [category] is the flag [--category]. *)
Definition addFeed (c : Context) (category : string) (disk : Store)
  : result model.Feed Abort * Store :=
  if (NArg c <? 1)%nat then (Err (ExitCode BadUsage ExitUsageError), disk)
  else
    let url := Get c 0 in
    match getStore c disk with
    | Err _ => (Err (ExitCode NoStore ExitDataError), disk)
    | Ok s =>
        let newFeed :=
          model.mkFeed 0 url EmptyString category None EmptyString
                       EmptyString in
        match model.Validate newFeed with
        | Err _ => (Err (ExitCode InvalidFeed ExitDataError), s)
        | Ok _ =>
            match feed.Fetch ParseURL Now url with
            | Err msg => (Err (ExitCode (FetchFailed msg) ExitDataError), s)
            | Ok (parsedFeed, _) =>
                let newFeed :=
                  model.mkFeed 0 url (model.Feed_Title parsedFeed) category
                               None EmptyString EmptyString in
                match SaveFeed newFeed s with
                | (Err e, s') =>
                    (Err (ExitCode (StoreError e) ExitDataError), s')
                | (Ok newFeed, s') => (printJSON c newFeed, s')
                end
            end
        end
    end.

Definition listFeeds (c : Context) (disk : Store)
  : result (list model.Feed) Abort * Store :=
  match getStore c disk with
  | Err _ => (Err (ExitCode NoStore ExitDataError), disk)
  | Ok s =>
      match GetAllFeeds s with
      | (Err e, s') => (Err (ExitCode (StoreError e) ExitDataError), s')
      | (Ok feeds, s') => (printJSON c feeds, s')
      end
  end.

(** The flags [--limit], [--offset], [--unread], [--since] and [--tag],
    and the reading of the clock. *)
Definition listEntries (c : Context) (now : time.Time) (limit offset : Z)
    (unread : bool) (since tag : string) (disk : Store)
  : result Listing Abort * Store :=
  match getStore c disk with
  | Err _ => (Err (ExitCode NoStore ExitDataError), disk)
  | Ok s =>
      match query.BuildQueryOptions now limit offset unread since tag with
      | (_, Some err) => (Err (ExitCode (InvalidOptions err) ExitUsageError), s)
      | (opts, None) =>
          match GetEntries opts s with
          | (Err e, s') => (Err (ExitCode (StoreError e) ExitDataError), s')
          | (Ok entries, s') =>
              (printJSON c (mkListing (length entries) (query.Limit opts)
                                      (query.Offset opts) entries), s')
          end
      end
  end.

Definition showEntry (c : Context) (disk : Store)
  : result model.Entry Abort * Store :=
  if (NArg c <? 1)%nat then (Err (ExitCode BadUsage ExitUsageError), disk)
  else
    match Sscanf (Get c 0) with
    | None => (Err (ExitCode InvalidID ExitUsageError), disk)
    | Some id =>
        match getStore c disk with
        | Err _ => (Err (ExitCode NoStore ExitDataError), disk)
        | Ok s =>
            match GetEntry id s with
            | (Err e, s') => (Err (ExitCode (StoreError e) ExitDataError), s')
            | (Ok entry, s') => (printJSON c entry, s')
            end
        end
    end.

(** The report is the identifier [feed_id]. *)
Definition removeFeed (c : Context) (disk : Store)
  : result Z Abort * Store :=
  if (NArg c <? 1)%nat then (Err (ExitCode BadUsage ExitUsageError), disk)
  else
    match Sscanf (Get c 0) with
    | None => (Err (ExitCode InvalidID ExitUsageError), disk)
    | Some feedID =>
        match getStore c disk with
        | Err _ => (Err (ExitCode NoStore ExitDataError), disk)
        | Ok s =>
            match DeleteFeed feedID s with
            | (Err e, s') => (Err (ExitCode (StoreError e) ExitDataError), s')
            | (Ok _, s') => (printJSON c feedID, s')
            end
        end
    end.

(** [os.Open]: the bytes of the file at a path, if it opens. *)
Variable Open : string -> option string.

Variable Decode : string -> result opml.OPML string.

Definition importOPML (c : Context) (disk : Store)
  : result Import Abort * Store :=
  if (NArg c <? 1)%nat then (Err (ExitCode BadUsage ExitUsageError), disk)
  else
    match Open (Get c 0) with
    | None => (Err (ExitCode NoFile ExitDataError), disk)
    | Some file =>
        match opml.Parse Decode file with
        | Err msg => (Err (ExitCode (BadOPML msg) ExitDataError), disk)
        | Ok feeds =>
            match getStore c disk with
            | Err _ => (Err (ExitCode NoStore ExitDataError), disk)
            | Ok s =>
                let '(imported, skipped, errors, s') :=
                  importLoop feeds 0 0 [] s in
                (printJSON c (mkImport imported skipped (length feeds) errors),
                 s')
            end
        end
    end.

Variable rangeMap :
  gmap string (list model.Feed) -> list (string * list model.Feed).
Variable dateCreated : string.

(** [os.Create]: can the file at a path be created? *)
Variable Create : string -> bool.

(** Does the writer at a path take what a stage of [Generate] sends it?
    The empty path stands for standard output. *)
Variable accepts : string -> opml.Stage -> bool.

(** [output] is the flag [--output]. *)
Definition exportOPML (c : Context) (output : string) (disk : Store)
  : result Export Abort * Store :=
  match getStore c disk with
  | Err _ => (Err (ExitCode NoStore ExitDataError), disk)
  | Ok s =>
      match GetAllFeeds s with
      | (Err e, s') => (Err (ExitCode (StoreError e) ExitDataError), s')
      | (Ok feeds, s') =>
          if negb (String.eqb output "") && negb (Create output) then
            (Err (ExitCode NoOutput ExitDataError), s')
          else
            match opml.Generate rangeMap dateCreated (accepts output) feeds with
            | Err stage =>
                (Err (ExitCode (NotGenerated stage) ExitDataError), s')
            | Ok doc =>
                if negb (String.eqb output "") then
                  (printJSON c (mkExport doc (Some (output, length feeds))), s')
                else (Ok (mkExport doc None), s')
            end
      end
  end.

End Commands.

(** *** Samples for the other commands *)

Definition sampleLeaf (title xmlUrl category : string) : opml.Outline :=
  opml.mkOutline title title "rss" xmlUrl category [].

Definition sampleFolder (text : string) (outlines : list opml.Outline)
  : opml.Outline :=
  opml.mkOutline text EmptyString EmptyString EmptyString EmptyString outlines.

(** Two feeds in a folder, one of them with a category of its own, an
    outline without [xmlUrl], and a feed outside every folder. *)
Definition sampleOutlines : list opml.Outline :=
  [sampleFolder "Tech" [sampleLeaf "Go" "https://go.dev/feed" EmptyString;
                        sampleLeaf "Rust" "https://rust.org/feed" "lang"];
   sampleLeaf "Broken" EmptyString EmptyString;
   sampleLeaf "News" "https://news.org/rss" EmptyString].

Definition sampleOPML : opml.OPML :=
  opml.mkOPML "2.0" (opml.mkHead "subscriptions" EmptyString)
              (opml.mkBody sampleOutlines).

(** A file system with one file, which decodes to the sample. *)
Definition sampleOpen (path : string) : option string :=
  if String.eqb path "subs.opml" then Some "<opml>"%string else None.

Definition sampleDecode (file : string) : result opml.OPML string :=
  if String.eqb file "<opml>" then Ok sampleOPML
  else Err "unexpected EOF"%string.

(** A runtime that visits a map from its last key to its first. *)
Definition sampleRange {A : Type} (m : gmap string A) : list (string * A) :=
  reverse (map_to_list m).

(** Three subscriptions, two of them in one category. *)
Definition sampleSubscriptions : list model.Feed :=
  [model.mkFeed 1 "https://go.dev/feed" "Go" "tech" None EmptyString
                EmptyString;
   model.mkFeed 2 "https://news.org/rss" "News" EmptyString None EmptyString
                EmptyString;
   model.mkFeed 3 "https://rust.org/feed" "Rust" "tech" None EmptyString
                EmptyString].

(** The database of the three subscriptions, with one entry. *)
Definition sampleSubscribedDB : DB :=
  db (history (map (fun f => CallSaveFeed (model.feedWithID f 0))
                   sampleSubscriptions ++
               [CallSaveEntry (sampleEntry 1 "a" 2000000000)])
              (mkStore emptyDB [])).

(** A decoder that returns a given document. *)
Definition decodeTo (doc : opml.OPML) (file : string)
  : result opml.OPML string := Ok doc.

End main.

(** * Properties *)

(** ** Machine arithmetic *)

Lemma wrap64_id (z : Z) : in_int64 z -> wrap64 z = z.
Proof.
  unfold in_int64, MinInt64, MaxInt64, wrap64. intros Hz.
  rewrite Z.mod_small; lia.
Qed.

Lemma wrap64_range (z : Z) : in_int64 (wrap64 z).
Proof.
  unfold in_int64, MinInt64, MaxInt64, wrap64.
  pose proof (Z.mod_pos_bound (z + 2 ^ 63) (2 ^ 64)). lia.
Qed.

Lemma mul_exact (a b : Z) : in_int64 (a * b) -> time.mul a b = a * b.
Proof. apply wrap64_id. Qed.

Lemma neg_exact (d : Z) : MinInt64 < d <= MaxInt64 -> time.neg d = - d.
Proof.
  intros Hd. apply wrap64_id. unfold in_int64, MinInt64, MaxInt64 in *. lia.
Qed.

(** ** strconv *)

Section StrconvFacts.

Import strconv query.

Lemma isDigit_digitVal (c : ascii) :
  isDigit c = true -> 0 <= digitVal c <= 9.
Proof.
  unfold isDigit, digitVal. intros H.
  apply andb_prop in H as [H1 H2].
  apply N.leb_le in H1, H2. lia.
Qed.

Lemma isDigit_not_sign (c : ascii) :
  isDigit c = true -> Ascii.eqb c "+" = false /\ Ascii.eqb c "-" = false.
Proof.
  intros H. split.
  - destruct (Ascii.eqb_spec c "+") as [->|]; [discriminate H | reflexivity].
  - destruct (Ascii.eqb_spec c "-") as [->|]; [discriminate H | reflexivity].
Qed.

Lemma isUnit_not_digit (c : ascii) : isUnit c = true -> isDigit c = false.
Proof.
  unfold isUnit. intros H.
  repeat (apply orb_prop in H as [H|H]);
    apply Ascii.eqb_eq in H; subst c; reflexivity.
Qed.

Lemma decimalFrom_lower (s : string) (acc : Z) :
  allDigits s = true -> 0 <= acc -> acc <= decimalFrom acc s.
Proof.
  revert acc. induction s as [|c s IH]; intros acc Hs Hacc; simpl in *.
  - lia.
  - apply andb_prop in Hs as [Hc Hs].
    pose proof (isDigit_digitVal c Hc).
    specialize (IH (acc * 10 + digitVal c) Hs). lia.
Qed.

(** On digits, the loop of [ParseUint] computes the decimal value, and
    reports a range error exactly when that value leaves [uint64]. *)
Lemma parseDigits_allDigits (s : string) (n : Z) :
  allDigits s = true -> 0 <= n <= maxUint64 ->
  parseDigits n s =
    if decimalFrom n s <=? maxUint64 then Ok (decimalFrom n s)
    else Err ErrRange.
Proof.
  revert n. induction s as [|c s IH]; intros n Hs Hn; simpl in *.
  - destruct (Z.leb_spec n maxUint64); [reflexivity | lia].
  - apply andb_prop in Hs as [Hc Hs]. rewrite Hc.
    pose proof (isDigit_digitVal c Hc) as Hd.
    pose proof (decimalFrom_lower s (n * 10 + digitVal c) Hs) as Hlow.
    unfold maxUint64 in *.
    destruct (Z.leb_spec ((2 ^ 64 - 1) / 10 + 1) n) as [Hcut|Hcut].
    + change ((2 ^ 64 - 1) / 10 + 1) with 1844674407370955162 in Hcut.
      destruct (Z.leb_spec (decimalFrom (n * 10 + digitVal c) s) (2 ^ 64 - 1));
        [lia | reflexivity].
    + destruct (Z.ltb_spec (2 ^ 64 - 1) (n * 10 + digitVal c)) as [Hov|Hov].
      * destruct (Z.leb_spec (decimalFrom (n * 10 + digitVal c) s) (2 ^ 64 - 1));
          [lia | reflexivity].
      * apply IH; [assumption | lia].
Qed.

(** [Atoi] on a non-empty digit string: its value when that fits [int],
    a range error otherwise. *)
Lemma Atoi_digits (ds : string) :
  ds <> EmptyString -> allDigits ds = true ->
  Atoi ds = if decimal ds <=? MaxInt64 then Ok (decimal ds) else Err ErrRange.
Proof.
  intros Hne Hds. destruct ds as [|c ds]; [congruence|].
  pose proof Hds as Hall. simpl in Hds. apply andb_prop in Hds as [Hc _].
  destruct (isDigit_not_sign c Hc) as [Hplus Hminus].
  unfold Atoi, ParseInt. rewrite Hplus, Hminus. cbn [orb negb andb].
  unfold ParseUint.
  rewrite (parseDigits_allDigits (String c ds) 0 Hall)
    by (unfold maxUint64; lia).
  fold (decimal (String c ds)).
  pose proof (decimalFrom_lower (String c ds) 0 Hall ltac:(lia)) as Hpos.
  fold (decimal (String c ds)) in Hpos.
  unfold maxUint64, MaxInt64.
  destruct (Z.leb_spec (decimal (String c ds)) (2 ^ 64 - 1)).
  - destruct (Z.leb_spec (2 ^ 63) (decimal (String c ds)));
      destruct (Z.leb_spec (decimal (String c ds)) (2 ^ 63 - 1));
      try lia; reflexivity.
  - destruct (Z.leb_spec (decimal (String c ds)) (2 ^ 63 - 1));
      [lia | reflexivity].
Qed.

End StrconvFacts.

(** ** The query composer *)

Section QueryFacts.

Import strconv query time.

Lemma spanDigits_app (ds : string) (u : ascii) :
  allDigits ds = true -> isDigit u = false ->
  spanDigits (ds +:+ String u EmptyString) = (ds, String u EmptyString).
Proof.
  intros Hds Hu. induction ds as [|c ds IH]; simpl in *.
  - rewrite Hu. reflexivity.
  - apply andb_prop in Hds as [Hc Hds]. rewrite Hc, (IH Hds). reflexivity.
Qed.

Lemma spanDigits_sound (s ds rest : string) :
  spanDigits s = (ds, rest) ->
  s = (ds +:+ rest)%string /\ allDigits ds = true.
Proof.
  revert ds rest. induction s as [|c s IH]; intros ds rest H; simpl in H.
  - injection H as <- <-. split; reflexivity.
  - destruct (isDigit c) eqn:Hc.
    + destruct (spanDigits s) as [ds' rest'] eqn:Hs.
      injection H as <- <-. destruct (IH _ _ eq_refl) as [-> Hall].
      split; [reflexivity | simpl; rewrite Hc, Hall; reflexivity].
    + injection H as <- <-. split; reflexivity.
Qed.

(** The matcher accepts exactly the grammar [<digits><unit>]. *)
Lemma durationPattern_shorthand (s ds : string) (u : ascii) :
  shorthand s ds u ->
  durationPattern s = Some (ds, String u EmptyString).
Proof.
  intros (-> & Hne & Hds & Hu). unfold durationPattern.
  rewrite (spanDigits_app ds u Hds (isUnit_not_digit u Hu)).
  destruct ds as [|c ds]; [congruence|]. rewrite Hu. reflexivity.
Qed.

Lemma durationPattern_sound (s m1 m2 : string) :
  durationPattern s = Some (m1, m2) ->
  exists u, m2 = String u EmptyString /\ shorthand s m1 u.
Proof.
  unfold durationPattern. intros H.
  destruct (spanDigits s) as [ds rest] eqn:Hs.
  destruct (spanDigits_sound s ds rest Hs) as [-> Hall].
  destruct ds as [|c ds]; [discriminate|].
  destruct rest as [|u [|? ?]]; try discriminate.
  destruct (isUnit u) eqn:Hu; [|discriminate].
  injection H as <- <-. exists u. split; [reflexivity|].
  repeat split; [discriminate | assumption | assumption].
Qed.

Lemma shorthand_nonempty (s ds : string) (u : ascii) :
  shorthand s ds u -> String.eqb s "" = false.
Proof.
  intros (-> & _). destruct ds; reflexivity.
Qed.

Lemma unit_product (n : Z) (u : ascii) :
  0 <= n -> isUnit u = true ->
  n * unitDays u * 24 * Hour <= MaxInt64 ->
  (if String.eqb (String u EmptyString) "d" then Ok (mul (mul n 24) Hour)
   else if String.eqb (String u EmptyString) "w"
        then Ok (mul (mul (mul n 7) 24) Hour)
   else if String.eqb (String u EmptyString) "m"
        then Ok (mul (mul (mul n 30) 24) Hour)
   else if String.eqb (String u EmptyString) "y"
        then Ok (mul (mul (mul n 365) 24) Hour)
   else Err (ErrUnit (String u EmptyString)))
  = (Ok (n * unitDays u * 24 * Hour) : result Duration ParseError).
Proof.
  intros Hn Hu Hfit. unfold isUnit in Hu.
  change Hour with 3600000000000 in *.
  assert (Hin : forall k, 1 <= k -> n * k * 24 * 3600000000000 <= MaxInt64 ->
                 in_int64 (n * k) /\ in_int64 (n * k * 24) /\
                 in_int64 (n * k * 24 * 3600000000000)).
  { intros k Hk Hle. unfold in_int64, MinInt64, MaxInt64 in *. nia. }
  repeat (apply orb_prop in Hu as [Hu|Hu]);
    apply Ascii.eqb_eq in Hu; subst u; cbn in Hfit |- *;
    match type of Hfit with
    | n * ?k * 24 * _ <= _ =>
        destruct (Hin k ltac:(lia) Hfit) as (H1 & H2 & H3)
    end;
    unfold mul; f_equal.
  - rewrite Z.mul_1_r in *. rewrite (wrap64_id _ H2), (wrap64_id _ H3).
    reflexivity.
  - rewrite (wrap64_id _ H1), (wrap64_id _ H2), (wrap64_id _ H3). reflexivity.
  - rewrite (wrap64_id _ H1), (wrap64_id _ H2), (wrap64_id _ H3). reflexivity.
  - rewrite (wrap64_id _ H1), (wrap64_id _ H2), (wrap64_id _ H3). reflexivity.
Qed.

Lemma decimal_nonneg (ds : string) : allDigits ds = true -> 0 <= decimal ds.
Proof. intros H. apply (decimalFrom_lower ds 0 H). lia. Qed.

(** A shorthand whose duration fits 64-bit nanoseconds parses to it. *)
Lemma ParseDuration_fits (s ds : string) (u : ascii) :
  shorthand s ds u ->
  decimal ds * unitDays u * 24 * Hour <= MaxInt64 ->
  ParseDuration s = Ok (decimal ds * unitDays u * 24 * Hour).
Proof.
  intros Hsh Hfit. pose proof Hsh as (_ & Hne & Hds & Hu).
  unfold ParseDuration.
  rewrite (shorthand_nonempty _ _ _ Hsh), (durationPattern_shorthand _ _ _ Hsh).
  rewrite (Atoi_digits ds Hne Hds).
  pose proof (decimal_nonneg ds Hds) as Hpos.
  assert (Hsmall : decimal ds <= MaxInt64).
  { assert (1 <= unitDays u).
    { unfold unitDays. repeat destruct (Ascii.eqb _ _); lia. }
    change Hour with 3600000000000 in Hfit.
    unfold MaxInt64 in *. nia. }
  destruct (Z.leb_spec (decimal ds) MaxInt64); [|lia].
  destruct (Z.ltb_spec (decimal ds) 0); [lia|].
  apply unit_product; assumption.
Qed.

(** A shorthand whose number does not fit [int] is refused. *)
Lemma ParseDuration_number_too_large (s ds : string) (u : ascii) :
  shorthand s ds u -> MaxInt64 < decimal ds ->
  ParseDuration s = Err (ErrNumber ds).
Proof.
  intros Hsh Hbig. pose proof Hsh as (_ & Hne & Hds & Hu).
  unfold ParseDuration.
  rewrite (shorthand_nonempty _ _ _ Hsh), (durationPattern_shorthand _ _ _ Hsh).
  rewrite (Atoi_digits ds Hne Hds).
  destruct (Z.leb_spec (decimal ds) MaxInt64); [lia | reflexivity].
Qed.

(** Whatever is not a shorthand is refused. *)
Lemma ParseDuration_other (s : string) :
  (forall ds u, ~ shorthand s ds u) ->
  ParseDuration s = Err (if String.eqb s "" then ErrEmpty else ErrFormat s).
Proof.
  intros Hno. unfold ParseDuration.
  destruct (String.eqb s ""); [reflexivity|].
  destruct (durationPattern s) as [[m1 m2]|] eqn:Hm; [|reflexivity].
  destruct (durationPattern_sound s m1 m2 Hm) as (u & _ & Hsh).
  destruct (Hno m1 u Hsh).
Qed.

(** Every duration [ParseDuration] returns is an [int64]. *)
Lemma ParseDuration_int64 (s : string) (d : Duration) :
  ParseDuration s = Ok d -> in_int64 d.
Proof.
  unfold ParseDuration. intros H.
  destruct (String.eqb s ""); [discriminate|].
  destruct (durationPattern s) as [[m1 m2]|]; [|discriminate].
  destruct (Atoi m1); [|discriminate].
  destruct (a <? 0); [discriminate|].
  repeat (destruct (String.eqb m2 _);
          [injection H as <-; apply wrap64_range|]).
  discriminate.
Qed.

End QueryFacts.

Section QueryClaims.

Import query time.

(** Closed instances of the grammar are decided by evaluation. *)
Ltac solve_shorthand :=
  unfold shorthand;
  split; [reflexivity | split; [discriminate | split; reflexivity]].

(** The examples of the specification, evaluated. *)
Lemma ParseDuration_examples :
  ParseDuration "7d" = Ok (7 * 24 * Hour) /\
  ParseDuration "2w" = Ok (14 * 24 * Hour) /\
  ParseDuration "3m" = Ok (90 * 24 * Hour) /\
  ParseDuration "1y" = Ok (365 * 24 * Hour) /\
  ParseDuration "7x" = Err (ErrFormat "7x") /\
  ParseDuration "d" = Err (ErrFormat "d") /\
  ParseDuration "7" = Err (ErrFormat "7") /\
  ParseDuration "" = Err ErrEmpty /\
  ParseDuration "-7d" = Err (ErrFormat "-7d").
Proof. repeat split; vm_compute; reflexivity. Qed.

(** C5, as the code has it.  [ParseDuration] maps a string
    [<digits><unit>], unit among d, w, m, y, whose duration fits the
    64-bit nanosecond count of a [Duration], to n*24h, n*7*24h, n*30*24h
    and n*365*24h respectively; it refuses a string [<digits><unit>] whose
    number does not fit [int]; and it refuses every string that is not of
    the form [<digits><unit>]: the empty string with the empty-string
    error, any other with the format error.  The examples of the
    specification come out as it says. *)
Theorem C5_ParseDuration_amended :
  (forall s ds u, shorthand s ds u ->
     decimal ds * unitDays u * 24 * Hour <= MaxInt64 ->
     ParseDuration s = Ok (decimal ds * unitDays u * 24 * Hour)) /\
  (forall s ds u, shorthand s ds u -> MaxInt64 < decimal ds ->
     ParseDuration s = Err (ErrNumber ds)) /\
  (forall s, (forall ds u, ~ shorthand s ds u) ->
     ParseDuration s = Err (if String.eqb s "" then ErrEmpty else ErrFormat s)) /\
  (ParseDuration "7d" = Ok (7 * 24 * Hour) /\
   ParseDuration "2w" = Ok (14 * 24 * Hour) /\
   ParseDuration "3m" = Ok (90 * 24 * Hour) /\
   ParseDuration "1y" = Ok (365 * 24 * Hour) /\
   ParseDuration "7x" = Err (ErrFormat "7x") /\
   ParseDuration "d" = Err (ErrFormat "d") /\
   ParseDuration "7" = Err (ErrFormat "7") /\
   ParseDuration "" = Err ErrEmpty /\
   ParseDuration "-7d" = Err (ErrFormat "-7d")).
Proof.
  split; [exact ParseDuration_fits|].
  split; [exact ParseDuration_number_too_large|].
  split; [exact ParseDuration_other|].
  exact ParseDuration_examples.
Qed.

(** The theorem at "30d": the hypotheses hold and it gives 30 days. *)
Lemma C5_ParseDuration_witness :
  shorthand "30d" "30" "d" /\
  decimal "30" * unitDays "d" * 24 * Hour <= MaxInt64 /\
  ParseDuration "30d" = Ok (30 * 24 * Hour).
Proof.
  assert (Hs : shorthand "30d" "30" "d").
  { solve_shorthand. }
  assert (Hfit : decimal "30" * unitDays "d" * 24 * Hour <= MaxInt64).
  { vm_compute. discriminate. }
  split; [exact Hs|]. split; [exact Hfit|].
  exact (proj1 C5_ParseDuration_amended "30d" "30" "d"%char Hs Hfit).
Defined.

(** C5 as stated fails, at two strings of the form [<digits><unit>].
    For "9223372036854775808d" [ParseDuration] returns an error instead of
    9223372036854775808 days, because the number is beyond [int].  For
    "300y" it returns a negative duration instead of 300 x 365 x 24h,
    because the product is beyond [int64]. *)
Lemma C5_ParseDuration_counterexample :
  (shorthand "9223372036854775808d" "9223372036854775808" "d" /\
   ParseDuration "9223372036854775808d"
   = Err (ErrNumber "9223372036854775808")) /\
  (shorthand "300y" "300" "y" /\
   ParseDuration "300y" = Ok (-8985944073709551616) /\
   300 * 365 * 24 * Hour = 9460800000000000000).
Proof.
  split.
  - split; [solve_shorthand | vm_compute; reflexivity].
  - split; [solve_shorthand|]. split; vm_compute; reflexivity.
Qed.

(** Between the two ranges of C5 the product wraps around: 300 years is
    accepted and comes out negative, and 2^47 days comes out as the
    smallest [int64]. *)
Lemma ParseDuration_wraps :
  ParseDuration "300y" = Ok (-8985944073709551616) /\
  ParseDuration "140737488355328d" = Ok MinInt64.
Proof. split; vm_compute; reflexivity. Qed.

(** With no shorthand there is no lower bound, and nothing can fail. *)
Lemma BuildQueryOptions_empty (now limit offset : Z) (unread : bool)
    (tag : string) :
  BuildQueryOptions now limit offset unread "" tag =
    (mkQueryOptions limit offset unread tag None, None).
Proof. reflexivity. Qed.

(** With a shorthand that [ParseDuration] accepts, the lower bound is
    the clock reading plus the negated duration, in whole seconds. *)
Lemma BuildQueryOptions_accepted (now limit offset : Z) (unread : bool)
    (since tag : string) (d : Duration) :
  ParseDuration since = Ok d ->
  BuildQueryOptions now limit offset unread since tag =
    (mkQueryOptions limit offset unread tag (Some (Unix (Add now (neg d)))),
     None).
Proof.
  intros Hd. unfold BuildQueryOptions, SinceToUnixTime.
  destruct (String.eqb_spec since "") as [->|_]; [discriminate Hd|].
  cbn [negb]. rewrite Hd. reflexivity.
Qed.

Lemma BuildQueryOptions_refused (now limit offset : Z) (unread : bool)
    (since tag : string) (e : ParseError) :
  since <> EmptyString -> ParseDuration since = Err e ->
  BuildQueryOptions now limit offset unread since tag =
    (mkQueryOptions limit offset unread tag None, Some (ErrSinceFlag e)).
Proof.
  intros Hne He. unfold BuildQueryOptions, SinceToUnixTime.
  destruct (String.eqb_spec since "") as [->|_]; [congruence|].
  cbn [negb]. rewrite He. reflexivity.
Qed.

(** Except for the smallest [int64], whose negation wraps to itself, the
    bound is [now - d]. *)
Lemma BuildQueryOptions_minus (now limit offset : Z) (unread : bool)
    (since tag : string) (d : Duration) :
  ParseDuration since = Ok d -> d <> MinInt64 ->
  BuildQueryOptions now limit offset unread since tag =
    (mkQueryOptions limit offset unread tag (Some (Unix (now - d))), None).
Proof.
  intros Hd Hmin. rewrite (BuildQueryOptions_accepted _ _ _ _ _ _ d Hd).
  pose proof (ParseDuration_int64 since d Hd) as Hr.
  rewrite neg_exact by (unfold in_int64 in Hr; lia).
  reflexivity.
Qed.

Lemma BuildQueryOptions_wraps (now : Z) :
  BuildQueryOptions now 0 0 false "140737488355328d" "" =
    (mkQueryOptions 0 0 false "" (Some (Unix (now + MinInt64))), None).
Proof.
  rewrite (BuildQueryOptions_accepted _ _ _ _ _ _ MinInt64
             (proj2 ParseDuration_wraps)).
  reflexivity.
Qed.

(** C6, as the code has it.  With the empty shorthand
    [BuildQueryOptions] succeeds and leaves [SinceTime] absent.  With a
    shorthand that [ParseDuration] accepts it succeeds and sets
    [SinceTime] to the whole seconds of [now - parsedDuration], [now]
    being the clock reading of the call, unless the parsed duration is
    the smallest [int64]; for a shorthand [<digits><unit>] whose duration
    fits the 64-bit nanosecond count that is [now] minus n days, weeks,
    30-day months or 365-day years.  With a shorthand whose number does
    not fit [int] it returns the error and no lower bound.  In each case
    Limit, Offset, UnreadOnly and Tag are the arguments unchanged. *)
Theorem C6_BuildQueryOptions_amended (now limit offset : Z) (unread : bool)
    (tag : string) :
  BuildQueryOptions now limit offset unread "" tag =
    (mkQueryOptions limit offset unread tag None, None) /\
  (forall since d, ParseDuration since = Ok d -> d <> MinInt64 ->
     BuildQueryOptions now limit offset unread since tag =
       (mkQueryOptions limit offset unread tag (Some (Unix (now - d))),
        None)) /\
  (forall since ds u, shorthand since ds u ->
     decimal ds * unitDays u * 24 * Hour <= MaxInt64 ->
     BuildQueryOptions now limit offset unread since tag =
       (mkQueryOptions limit offset unread tag
          (Some (Unix (now - decimal ds * unitDays u * 24 * Hour))), None)) /\
  (forall since ds u, shorthand since ds u -> MaxInt64 < decimal ds ->
     BuildQueryOptions now limit offset unread since tag =
       (mkQueryOptions limit offset unread tag None,
        Some (ErrSinceFlag (ErrNumber ds)))).
Proof.
  split; [apply BuildQueryOptions_empty|]. split; [|split].
  - intros since d Hd Hmin. apply BuildQueryOptions_minus; assumption.
  - intros since ds u Hs Hfit.
    pose proof (ParseDuration_fits since ds u Hs Hfit) as Hd.
    apply BuildQueryOptions_minus; [exact Hd|].
    destruct Hs as (_ & _ & Hds & Hu).
    pose proof (decimal_nonneg ds Hds).
    assert (0 <= unitDays u).
    { unfold unitDays. repeat destruct (Ascii.eqb _ _); lia. }
    change Hour with 3600000000000. unfold MinInt64. nia.
  - intros since ds u Hs Hbig.
    apply BuildQueryOptions_refused.
    + destruct Hs as (-> & _). destruct ds; discriminate.
    + apply ParseDuration_number_too_large with (u := u); assumption.
Qed.

(** The theorem at "2w", read at second 1700000000: the hypotheses hold
    and the bound is fourteen days earlier. *)
Lemma C6_BuildQueryOptions_witness :
  shorthand "2w" "2" "w" /\
  decimal "2" * unitDays "w" * 24 * Hour <= MaxInt64 /\
  BuildQueryOptions 1700000000000000000 10 0 true "2w" "go" =
    (mkQueryOptions 10 0 true "go" (Some 1698790400), None).
Proof.
  assert (Hs : shorthand "2w" "2" "w").
  { solve_shorthand. }
  assert (Hfit : decimal "2" * unitDays "w" * 24 * Hour <= MaxInt64).
  { vm_compute. discriminate. }
  split; [exact Hs|]. split; [exact Hfit|].
  exact (proj1 (proj2 (proj2 (C6_BuildQueryOptions_amended
                                1700000000000000000 10 0 true "go")))
           "2w" "2" "w"%char Hs Hfit).
Defined.

(** C6 as stated fails, at two tokens.  "9223372036854775808d" is not
    empty and has the form [<digits><unit>], yet [BuildQueryOptions] does
    not succeed on it.  "140737488355328d" is accepted with the smallest
    [int64] as parsed duration, and the lower bound is the whole seconds
    of [now + parsedDuration], not of [now - parsedDuration]. *)
Lemma C6_BuildQueryOptions_counterexample :
  (shorthand "9223372036854775808d" "9223372036854775808" "d" /\
   BuildQueryOptions 1700000000000000000 10 0 true "9223372036854775808d" "go"
   = (mkQueryOptions 10 0 true "go" None,
      Some (ErrSinceFlag (ErrNumber "9223372036854775808")))) /\
  (shorthand "140737488355328d" "140737488355328" "d" /\
   ParseDuration "140737488355328d" = Ok MinInt64 /\
   BuildQueryOptions 1700000000000000000 10 0 true "140737488355328d" "go"
   = (mkQueryOptions 10 0 true "go" (Some (-7523372037)), None) /\
   Unix (1700000000000000000 - MinInt64) = 10923372036).
Proof.
  split.
  - split; [solve_shorthand | vm_compute; reflexivity].
  - split; [solve_shorthand|]. repeat split; vm_compute; reflexivity.
Qed.

End QueryClaims.


(** ** The store *)

Section StoreFacts.

Import store.

Lemma keyTaken_app (self : option Z) (fid : Z) (guid : string)
    (rows rows' : list EntryRow) :
  keyTaken self fid guid (rows ++ rows') =
    keyTaken self fid guid rows || keyTaken self fid guid rows'.
Proof. unfold keyTaken. apply existsb_app. Qed.

(** No row holds a key that is not taken. *)
Lemma keyTaken_false (fid : Z) (guid : string) (rows : list EntryRow) :
  keyTaken None fid guid rows = false ->
  ~ In (fid, guid) (map entryKey rows).
Proof.
  induction rows as [|r rows IH]; cbn; intros H; [tauto|].
  apply orb_false_elim in H as [Hr Hrows].
  intros [Heq|Hin]; [|exact (IH Hrows Hin)].
  unfold entryKey in Heq. injection Heq as <- <-.
  rewrite Z.eqb_refl, String.eqb_refl in Hr. discriminate.
Qed.

Lemma keyTaken_true (fid : Z) (guid : string) (rows : list EntryRow) :
  keyTaken None fid guid rows = true ->
  In (fid, guid) (map entryKey rows).
Proof.
  induction rows as [|r rows IH]; cbn; intros H; [discriminate|].
  apply orb_prop in H as [Hr|Hrows]; [left | right; exact (IH Hrows)].
  rewrite andb_true_r in Hr. apply andb_prop in Hr as [Hf Hg].
  apply Z.eqb_eq in Hf. apply String.eqb_eq in Hg.
  unfold entryKey. congruence.
Qed.

Lemma keyTaken_In (fid : Z) (guid : string) (rows : list EntryRow) :
  In (fid, guid) (map entryKey rows) -> keyTaken None fid guid rows = true.
Proof.
  intros Hin. destruct (keyTaken None fid guid rows) eqn:H; [reflexivity|].
  destruct (keyTaken_false _ _ _ H Hin).
Qed.

(** INSERT of an entry whose key is free: the next id, one more row. *)
Lemma sqlSaveEntry_insert (e : model.Entry) (d : DB) :
  model.ID e = 0 ->
  keyTaken None (model.FeedID e) (model.GUID e) (entries d) = false ->
  sqlSaveEntry e d =
    Ok (model.withID e (entries_seq d + 1),
        mkDB (feeds d) (feeds_seq d)
             (entries d ++ [rowOfEntry (entries_seq d + 1) e])
             (entries_seq d + 1)).
Proof.
  intros Hid Hfree. unfold sqlSaveEntry. rewrite Hid, Hfree. reflexivity.
Qed.

(** INSERT of an entry whose key is taken: the constraint fails. *)
Lemma sqlSaveEntry_duplicate (e : model.Entry) (d : DB) :
  model.ID e = 0 ->
  keyTaken None (model.FeedID e) (model.GUID e) (entries d) = true ->
  sqlSaveEntry e d = Err ErrConstraint.
Proof.
  intros Hid Htaken. unfold sqlSaveEntry. rewrite Hid, Htaken. reflexivity.
Qed.

(** A statement that fails leaves the database alone, whatever the
    driver does; one that succeeds consumes one flag of the script. *)
Lemma exec_Err {A : Type} (stmt : DB -> result (A * DB) Error) (s : Store)
    (e : Error) (s' : Store) :
  exec stmt s = (Err e, s') -> db s' = db s /\ driver s' = tail (driver s).
Proof.
  unfold exec. intros H.
  destruct (driver s) as [|[|] script]; cbn in H.
  - destruct (stmt (db s)) as [[a d']|e']; [discriminate|].
    injection H as _ <-. split; reflexivity.
  - injection H as _ <-. split; reflexivity.
  - destruct (stmt (db s)) as [[a d']|e']; [discriminate|].
    injection H as _ <-. split; reflexivity.
Qed.

Lemma exec_Ok {A : Type} (stmt : DB -> result (A * DB) Error) (s : Store)
    (a : A) (s' : Store) :
  exec stmt s = (Ok a, s') ->
  stmt (db s) = Ok (a, db s') /\ driver s' = tail (driver s) /\
  head (driver s) <> Some true.
Proof.
  unfold exec. intros H.
  destruct (driver s) as [|[|] script]; cbn in H.
  - destruct (stmt (db s)) as [[a' d']|e']; [|discriminate].
    injection H as <- <-.
    split; [reflexivity | split; [reflexivity | discriminate]].
  - discriminate.
  - destruct (stmt (db s)) as [[a' d']|e']; [|discriminate].
    injection H as <- <-.
    split; [reflexivity | split; [reflexivity | discriminate]].
Qed.

(** The database after a call is the one before, or the one the
    statement computes. *)
Lemma exec_db {A : Type} (stmt : DB -> result (A * DB) Error) (s : Store) :
  db (exec stmt s).2 = db s \/
  exists a, stmt (db s) = Ok (a, db (exec stmt s).2).
Proof.
  destruct (exec stmt s) as [[a|e] s'] eqn:H; cbn [snd].
  - right. exists a. exact (proj1 (exec_Ok _ _ _ _ H)).
  - left. exact (proj1 (exec_Err _ _ _ _ H)).
Qed.

(** With no failure scripted the statement runs. *)
Lemma exec_quiet {A : Type} (stmt : DB -> result (A * DB) Error) (s : Store) :
  head (driver s) <> Some true ->
  exec stmt s =
    match stmt (db s) with
    | Ok (a, d') => (Ok a, mkStore d' (tail (driver s)))
    | Err e => (Err e, mkStore (db s) (tail (driver s)))
    end.
Proof.
  unfold exec. intros H. destruct (driver s) as [|[|] script];
    [reflexivity | cbn in H; congruence | reflexivity].
Qed.

Lemma exec_fault {A : Type} (stmt : DB -> result (A * DB) Error) (s : Store) :
  head (driver s) = Some true ->
  exec stmt s = (Err ErrDriver, mkStore (db s) (tail (driver s))).
Proof.
  unfold exec. intros H. destruct (driver s) as [|[|] script];
    [discriminate | reflexivity | discriminate].
Qed.

(** *** Integrity is kept by every call *)

Lemma NoDup_cons_In {A : Type} (x : A) (l : list A) :
  NoDup (x :: l) <-> ~ In x l /\ NoDup l.
Proof. rewrite NoDup_cons, list_elem_of_In. reflexivity. Qed.

(** Replacing the element of identifier [i] by one with the same
    identifier keeps the identifiers, and keeps the keys distinct when no
    other element holds the new key. *)
Lemma replace_NoDup {A K : Type} (id : A -> Z) (key : A -> K) (x' : A)
    (i : Z) (l : list A) :
  id x' = i ->
  NoDup (map id l) -> NoDup (map key l) ->
  (forall x, In x l -> id x <> i -> key x <> key x') ->
  map id (map (fun x => if id x =? i then x' else x) l) = map id l /\
  NoDup (map key (map (fun x => if id x =? i then x' else x) l)).
Proof.
  intros Hid'. induction l as [|x t IH]; intros Hids Hkeys Hother; cbn.
  - split; [reflexivity | constructor].
  - cbn [map] in Hids, Hkeys.
    apply NoDup_cons_In in Hids as [Hx Hids].
    apply NoDup_cons_In in Hkeys as [Hkx Hkeys].
    destruct (IH Hids Hkeys) as [IHid IHkey].
    { intros y Hy. apply Hother. right. exact Hy. }
    assert (Hin : forall k,
              In k (map key (map (fun x => if id x =? i then x' else x) t)) ->
              In k (map key t) \/ k = key x').
    { intros k Hk. apply in_map_iff in Hk as (y & <- & Hy).
      apply in_map_iff in Hy as (z & <- & Hz).
      destruct (id z =? i); [right; reflexivity | left; apply in_map; exact Hz]. }
    destruct (Z.eqb_spec (id x) i) as [Hxi|Hxi].
    + split; [cbn; congruence|]. apply NoDup_cons_In. split; [|exact IHkey].
      intros Hk. destruct (Hin _ Hk) as [Hk'|_].
      * apply in_map_iff in Hk' as (y & Hyk & Hy).
        refine (Hother y (or_intror Hy) _ Hyk).
        intros Hyi. apply Hx. rewrite Hxi, <- Hyi. apply in_map. exact Hy.
      * (* the new key is new among the rest, or the rest is unchanged *)
        assert (Hsame : map (fun x => if id x =? i then x' else x) t = t).
        { clear -Hx Hxi. induction t as [|y t IHt]; cbn; [reflexivity|].
          destruct (Z.eqb_spec (id y) i) as [Hyi|_].
          - destruct Hx. left. congruence.
          - f_equal. apply IHt. intros Hin. apply Hx. right. exact Hin. }
        rewrite Hsame in Hk. apply in_map_iff in Hk as (y & Hyk & Hy).
        refine (Hother y (or_intror Hy) _ Hyk).
        intros Hyi. apply Hx. rewrite Hxi, <- Hyi. apply in_map. exact Hy.
    + split; [cbn; congruence|]. apply NoDup_cons_In. split; [|exact IHkey].
      intros Hk. destruct (Hin _ Hk) as [Hk'|Hk'].
      * exact (Hkx Hk').
      * exact (Hother x (or_introl eq_refl) Hxi Hk').
Qed.

Lemma keyTaken_other (id fid : Z) (guid : string) (rows : list EntryRow) :
  keyTaken (Some id) fid guid rows = false ->
  forall r, In r rows -> row_id r <> id -> entryKey r <> (fid, guid).
Proof.
  unfold keyTaken. intros H r Hr Hne Hk.
  assert (Hex : existsb (fun r => (row_feed_id r =? fid) &&
                          String.eqb (row_guid r) guid &&
                          negb (row_id r =? id)) rows = true).
  { apply existsb_exists. exists r. split; [exact Hr|].
    unfold entryKey in Hk. injection Hk as -> ->.
    rewrite Z.eqb_refl, String.eqb_refl.
    destruct (Z.eqb_spec (row_id r) id); [contradiction | reflexivity]. }
  congruence.
Qed.

Lemma urlTaken_other (id : Z) (url : string) (rows : list FeedRow) :
  urlTaken (Some id) url rows = false ->
  forall r, In r rows -> frow_id r <> id -> frow_url r <> url.
Proof.
  unfold urlTaken. intros H r Hr Hne Hk.
  assert (Hex : existsb (fun r => String.eqb (frow_url r) url &&
                          negb (frow_id r =? id)) rows = true).
  { apply existsb_exists. exists r. split; [exact Hr|].
    rewrite Hk, String.eqb_refl.
    destruct (Z.eqb_spec (frow_id r) id); [contradiction | reflexivity]. }
  congruence.
Qed.

Lemma urlTaken_false (url : string) (rows : list FeedRow) :
  urlTaken None url rows = false -> ~ In url (map frow_url rows).
Proof.
  induction rows as [|r rows IH]; cbn; intros H; [tauto|].
  apply orb_false_elim in H as [Hr Hrows].
  intros [Heq|Hin]; [|exact (IH Hrows Hin)].
  rewrite Heq, String.eqb_refl in Hr. discriminate.
Qed.

Lemma NoDup_snoc {A : Type} (l : list A) (x : A) :
  NoDup l -> ~ In x l -> NoDup (l ++ [x]).
Proof.
  intros Hl Hx. apply NoDup_app. split; [exact Hl|]. split.
  - intros y Hy Hy'. apply list_elem_of_In in Hy.
    apply list_elem_of_singleton in Hy'. subst y. exact (Hx Hy).
  - apply NoDup_singleton.
Qed.

Lemma wellFormed_empty : wellFormed emptyDB.
Proof. split; cbn; constructor. Qed.

Lemma seq_fresh {A : Type} (id : A -> Z) (n : Z) (l : list A) :
  Forall (fun r => id r <= n) l -> ~ In (n + 1) (map id l).
Proof.
  intros Hle Hin. apply in_map_iff in Hin as (r & Hr & Hin).
  rewrite Forall_forall in Hle. apply list_elem_of_In in Hin.
  specialize (Hle r Hin). cbn in Hle. lia.
Qed.

Lemma sqlSaveEntry_wf (e e' : model.Entry) (d d' : DB) :
  wellFormed d -> sqlSaveEntry e d = Ok (e', d') -> wellFormed d'.
Proof.
  intros [Hids Hkeys Hseq Hfids Hfurls Hfseq]. unfold sqlSaveEntry.
  destruct (model.ID e =? 0).
  - destruct (keyTaken None _ _ _) eqn:Hfree; [discriminate|].
    intros H. injection H as _ <-. split; cbn; try assumption.
    + rewrite map_app. apply NoDup_snoc; [exact Hids|].
      apply seq_fresh. exact Hseq.
    + rewrite map_app. apply NoDup_snoc; [exact Hkeys|].
      apply keyTaken_false. exact Hfree.
    + apply Forall_app. split.
      * eapply Forall_impl; [exact Hseq|]. cbn. intros; lia.
      * constructor; [cbn; lia | constructor].
  - destruct (hasEntry _ _); [|intros H; injection H as _ <-; split; assumption].
    destruct (keyTaken (Some _) _ _ _) eqn:Hfree; [discriminate|].
    intros H. injection H as _ <-.
    destruct (replace_NoDup row_id entryKey (rowOfEntry (model.ID e) e)
                (model.ID e) (entries d) eq_refl Hids Hkeys) as [Hid' Hkey'].
    { intros r Hr Hne. exact (keyTaken_other _ _ _ _ Hfree r Hr Hne). }
    split; cbn; try assumption.
    + rewrite Hid'. exact Hids.
    + rewrite Forall_forall in *. intros r Hr.
      apply list_elem_of_In, in_map_iff in Hr as (r0 & <- & Hr0).
      apply list_elem_of_In in Hr0.
      destruct (Z.eqb_spec (row_id r0) (model.ID e)) as [Heq|_];
        [cbn; rewrite <- Heq|]; apply Hseq; exact Hr0.
Qed.

Lemma sqlMarkEntryRead_rows (id : Z) (isRead : bool) (d d' : DB) :
  sqlMarkEntryRead id isRead d = Ok (tt, d') ->
  map row_id (entries d') = map row_id (entries d) /\
  map entryKey (entries d') = map entryKey (entries d) /\
  feeds d' = feeds d /\ feeds_seq d' = feeds_seq d /\
  entries_seq d' = entries_seq d.
Proof.
  unfold sqlMarkEntryRead. intros H. injection H as <-. cbn.
  rewrite !map_map. repeat split; apply map_ext; intros r;
    destruct (row_id r =? id); reflexivity.
Qed.

Lemma sqlMarkEntryRead_wf (id : Z) (isRead : bool) (d d' : DB) (u : unit) :
  wellFormed d -> sqlMarkEntryRead id isRead d = Ok (u, d') -> wellFormed d'.
Proof.
  intros [Hids Hkeys Hseq Hfids Hfurls Hfseq] H. destruct u.
  destruct (sqlMarkEntryRead_rows _ _ _ _ H) as (Hi & Hk & Hf & Hfs & Hes).
  split; rewrite ?Hi, ?Hk, ?Hf, ?Hfs, ?Hes; try assumption.
  unfold sqlMarkEntryRead in H. injection H as <-. cbn.
  rewrite Forall_forall in *. intros r Hr.
  apply list_elem_of_In, in_map_iff in Hr as (r0 & <- & Hr0).
  apply list_elem_of_In in Hr0.
  destruct (row_id r0 =? id); cbn; apply Hseq; exact Hr0.
Qed.

Lemma sqlSaveFeed_wf (f f' : model.Feed) (d d' : DB) :
  wellFormed d -> sqlSaveFeed f d = Ok (f', d') -> wellFormed d'.
Proof.
  intros [Hids Hkeys Hseq Hfids Hfurls Hfseq]. unfold sqlSaveFeed.
  destruct (model.Feed_ID f =? 0).
  - destruct (urlTaken None _ _) eqn:Hfree; [discriminate|].
    intros H. injection H as _ <-. split; cbn; try assumption.
    + rewrite map_app. apply NoDup_snoc; [exact Hfids|].
      apply seq_fresh. exact Hfseq.
    + rewrite map_app. apply NoDup_snoc; [exact Hfurls|].
      apply urlTaken_false. exact Hfree.
    + apply Forall_app. split.
      * eapply Forall_impl; [exact Hfseq|]. cbn. intros; lia.
      * constructor; [cbn; lia | constructor].
  - destruct (existsb _ _); [|intros H; injection H as _ <-; split; assumption].
    destruct (urlTaken (Some _) _ _) eqn:Hfree; [discriminate|].
    intros H. injection H as _ <-.
    destruct (replace_NoDup frow_id frow_url (rowOfFeed (model.Feed_ID f) f)
                (model.Feed_ID f) (feeds d) eq_refl Hfids Hfurls)
      as [Hid' Hkey'].
    { intros r Hr Hne. exact (urlTaken_other _ _ _ Hfree r Hr Hne). }
    split; cbn; try assumption.
    + rewrite Hid'. exact Hfids.
    + rewrite Forall_forall in *. intros r Hr.
      apply list_elem_of_In, in_map_iff in Hr as (r0 & <- & Hr0).
      apply list_elem_of_In in Hr0.
      destruct (Z.eqb_spec (frow_id r0) (model.Feed_ID f)) as [Heq|_];
        [cbn; rewrite <- Heq|]; apply Hfseq; exact Hr0.
Qed.

Lemma NoDup_map_filter {A K : Type} (key : A -> K) (p : A -> bool)
    (l : list A) :
  NoDup (map key l) -> NoDup (map key (List.filter p l)).
Proof.
  induction l as [|x t IH]; cbn; intros H; [constructor|].
  apply NoDup_cons_In in H as [Hx Ht].
  destruct (p x); [|exact (IH Ht)].
  cbn. apply NoDup_cons_In. split; [|exact (IH Ht)].
  intros Hin. apply Hx. apply in_map_iff in Hin as (y & Hy & Hin).
  apply filter_In in Hin as [Hin _]. rewrite <- Hy. apply in_map. exact Hin.
Qed.

Lemma sqlDeleteFeed_wf (id : Z) (d d' : DB) (u : unit) :
  wellFormed d -> sqlDeleteFeed id d = Ok (u, d') -> wellFormed d'.
Proof.
  intros [Hids Hkeys Hseq Hfids Hfurls Hfseq] H.
  unfold sqlDeleteFeed in H. injection H as _ <-.
  split; cbn; try assumption.
  - apply NoDup_map_filter. exact Hfids.
  - apply NoDup_map_filter. exact Hfurls.
  - rewrite Forall_forall in *. intros r Hr.
    apply list_elem_of_In, filter_In in Hr as [Hr _].
    apply Hfseq, list_elem_of_In. exact Hr.
Qed.

Lemma sqlGetEntries_db (opts : query.QueryOptions) (d d' : DB)
    (l : list model.Entry) :
  sqlGetEntries opts d = Ok (l, d') -> d' = d.
Proof.
  unfold sqlGetEntries. destruct (_ && _); [discriminate|].
  intros H. injection H as _ <-. reflexivity.
Qed.

Lemma sqlGetFeed_db (id : Z) (d d' : DB) (f : model.Feed) :
  sqlGetFeed id d = Ok (f, d') -> d' = d.
Proof.
  unfold sqlGetFeed. destruct (find _ _); [|discriminate].
  intros H. injection H as _ <-. reflexivity.
Qed.

Lemma sqlGetAllFeeds_db (d d' : DB) (l : list model.Feed) :
  sqlGetAllFeeds d = Ok (l, d') -> d' = d /\ l = map feedOfRow (feeds d).
Proof.
  unfold sqlGetAllFeeds. intros H. injection H as <- <-.
  split; reflexivity.
Qed.

Lemma sqlGetEntry_db (id : Z) (d d' : DB) (e : model.Entry) :
  sqlGetEntry id d = Ok (e, d') -> d' = d.
Proof.
  unfold sqlGetEntry. destruct (find _ _); [|discriminate].
  intros H. injection H as _ <-. reflexivity.
Qed.

(** Whatever the call and whatever the driver does, integrity holds
    afterwards. *)
Lemma call_wf (c : Call) (s : Store) :
  wellFormed (db s) -> wellFormed (db (call c s)).
Proof.
  intros Hwf. destruct c; cbn [call];
    unfold SaveFeed, GetFeed, GetAllFeeds, DeleteFeed, SaveEntry, GetEntry,
      GetEntries, MarkEntryRead.
  - destruct (exec_db (sqlSaveFeed f) s) as [->|[a H]]; [exact Hwf|].
    exact (sqlSaveFeed_wf _ _ _ _ Hwf H).
  - destruct (exec_db (sqlGetFeed id) s) as [->|[a H]]; [exact Hwf|].
    rewrite (sqlGetFeed_db _ _ _ _ H). exact Hwf.
  - destruct (exec_db sqlGetAllFeeds s) as [->|[a H]]; [exact Hwf|].
    rewrite (proj1 (sqlGetAllFeeds_db _ _ _ H)). exact Hwf.
  - destruct (exec_db (sqlDeleteFeed id) s) as [->|[a H]]; [exact Hwf|].
    exact (sqlDeleteFeed_wf _ _ _ _ Hwf H).
  - destruct (exec_db (sqlSaveEntry e) s) as [->|[a H]]; [exact Hwf|].
    exact (sqlSaveEntry_wf _ _ _ _ Hwf H).
  - destruct (exec_db (sqlGetEntry id) s) as [->|[a H]]; [exact Hwf|].
    rewrite (sqlGetEntry_db _ _ _ _ H). exact Hwf.
  - destruct (exec_db (sqlGetEntries opts) s) as [->|[a H]]; [exact Hwf|].
    rewrite (sqlGetEntries_db _ _ _ _ H). exact Hwf.
  - destruct (exec_db (sqlMarkEntryRead id isRead) s) as [->|[a H]];
      [exact Hwf|].
    exact (sqlMarkEntryRead_wf _ _ _ _ _ Hwf H).
Qed.

Lemma history_wf (calls : list Call) (s : Store) :
  wellFormed (db s) -> wellFormed (db (history calls s)).
Proof.
  revert s. induction calls as [|c calls IH]; intros s Hwf; cbn.
  - exact Hwf.
  - apply IH, call_wf, Hwf.
Qed.

Lemma reachable_wellFormed (d : DB) : reachable d -> wellFormed d.
Proof.
  intros (calls & script & <-). apply history_wf. exact wellFormed_empty.
Qed.

(** With distinct keys, a key that is taken is held by one row. *)
Lemma rowsWithKey_taken (fid : Z) (guid : string) (d : DB) :
  NoDup (map entryKey (entries d)) ->
  keyTaken None fid guid (entries d) = true ->
  rowsWithKey fid guid d = 1%nat.
Proof.
  unfold rowsWithKey. induction (entries d) as [|r rows IH]; cbn;
    intros Hnd Ht; [discriminate|].
  apply NoDup_cons_In in Hnd as [Hr Hnd].
  rewrite andb_true_r in Ht.
  destruct ((row_feed_id r =? fid) && String.eqb (row_guid r) guid) eqn:Hk.
  - cbn. f_equal. apply andb_prop in Hk as [Hf Hg].
    apply Z.eqb_eq in Hf. apply String.eqb_eq in Hg.
    destruct (List.filter _ rows) as [|r' rest] eqn:Hfil; [reflexivity|].
    assert (Hin : In r' (List.filter (fun r => (row_feed_id r =? fid) &&
                                       String.eqb (row_guid r) guid) rows))
      by (rewrite Hfil; left; reflexivity).
    apply filter_In in Hin as [Hin Hk'].
    apply andb_prop in Hk' as [Hf' Hg'].
    apply Z.eqb_eq in Hf'. apply String.eqb_eq in Hg'.
    destruct Hr. apply in_map_iff. exists r'. split; [|exact Hin].
    unfold entryKey. congruence.
  - cbn in Ht. exact (IH Hnd Ht).
Qed.

End StoreFacts.
(** ** The normalizer *)

Section NormalizerClaims.

Import feed.

Lemma convertItem_GUID (now : time.Time) (item : gofeed.Item) :
  model.GUID (convertItem now item) =
    if String.eqb (gofeed.GUID item) "" then gofeed.Link item
    else gofeed.GUID item.
Proof. reflexivity. Qed.

Lemma convertItem_fresh (now : time.Time) (item : gofeed.Item) :
  model.ID (convertItem now item) = 0 /\
  model.IsRead (convertItem now item) = false.
Proof. split; reflexivity. Qed.

Lemma convert_lookup (clock : nat -> time.Time) (gf : gofeed.Feed)
    (url : string) (i : nat) :
  (convert clock gf url).2 !! i =
    convertItem (clock i) <$> gofeed.Items gf !! i.
Proof.
  exact (list_lookup_imap (fun i item => convertItem (clock i) item)
                          (gofeed.Items gf) i).
Qed.

Lemma convert_length (clock : nat -> time.Time) (gf : gofeed.Feed)
    (url : string) :
  length (convert clock gf url).2 = length (gofeed.Items gf).
Proof. unfold convert. cbn [snd]. apply length_imap. Qed.

(** C7.  The normalizer gives an entry the item's native identifier as
    its natural key when there is one, and the item's link otherwise.
    Hence two items without identifier and with different links get
    different keys, and both are retained: both are in the normalized
    list, at their positions, and a store that holds neither key for the
    feed accepts both inserts and then holds one row for each. *)
Theorem C7_natural_key_fallback (now : time.Time) (item : gofeed.Item) :
  (gofeed.GUID item <> EmptyString ->
     model.GUID (convertItem now item) = gofeed.GUID item) /\
  (gofeed.GUID item = EmptyString ->
     model.GUID (convertItem now item) = gofeed.Link item) /\
  (forall now' item',
     gofeed.GUID item = EmptyString -> gofeed.GUID item' = EmptyString ->
     gofeed.Link item <> gofeed.Link item' ->
     model.GUID (convertItem now item) <> model.GUID (convertItem now' item') /\
     (forall clock gf url i j,
        gofeed.Items gf !! i = Some item -> gofeed.Items gf !! j = Some item' ->
        (convert clock gf url).2 !! i = Some (convertItem (clock i) item) /\
        (convert clock gf url).2 !! j = Some (convertItem (clock j) item')) /\
     (forall d fid,
        store.keyTaken None fid (gofeed.Link item) (store.entries d) = false ->
        store.keyTaken None fid (gofeed.Link item') (store.entries d) = false ->
        exists e1 d1 e2 d2,
          store.sqlSaveEntry (model.withFeedID (convertItem now item) fid) d
            = Ok (e1, d1) /\
          store.sqlSaveEntry (model.withFeedID (convertItem now' item') fid) d1
            = Ok (e2, d2) /\
          store.entries d2 =
            store.entries d ++
              [store.rowOfEntry (model.ID e1)
                 (model.withFeedID (convertItem now item) fid);
               store.rowOfEntry (model.ID e2)
                 (model.withFeedID (convertItem now' item') fid)])).
Proof.
  split; [|split].
  - intros Hne. rewrite convertItem_GUID.
    destruct (String.eqb_spec (gofeed.GUID item) ""); congruence.
  - intros Hg. rewrite convertItem_GUID, Hg. reflexivity.
  - intros now' item' Hg Hg' Hlink.
    assert (Hk : model.GUID (convertItem now item) = gofeed.Link item)
      by (rewrite convertItem_GUID, Hg; reflexivity).
    assert (Hk' : model.GUID (convertItem now' item') = gofeed.Link item')
      by (rewrite convertItem_GUID, Hg'; reflexivity).
    split; [congruence|]. split.
    + intros clock gf url i j Hi Hj.
      rewrite !convert_lookup, Hi, Hj. split; reflexivity.
    + intros d fid Hfree Hfree'.
      set (e1 := model.withFeedID (convertItem now item) fid).
      set (e2 := model.withFeedID (convertItem now' item') fid).
      assert (Hg1 : model.GUID e1 = gofeed.Link item) by exact Hk.
      assert (Hg2 : model.GUID e2 = gofeed.Link item') by exact Hk'.
      eexists _, _, _, _. split; [|split].
      * apply sqlSaveEntry_insert; [reflexivity|].
        rewrite Hg1. change (model.FeedID e1) with fid. exact Hfree.
      * apply sqlSaveEntry_insert; [reflexivity|].
        cbn [store.entries]. rewrite keyTaken_app, Hg2.
        change (model.FeedID e2) with fid. rewrite Hfree'.
        cbn. rewrite Hg. cbn.
        destruct (String.eqb_spec (gofeed.Link item) (gofeed.Link item'));
          [congruence|]. rewrite andb_false_r. reflexivity.
      * cbn [store.entries store.entries_seq model.ID model.withID].
        rewrite <- app_assoc. reflexivity.
Qed.

(** The theorem at an item without identifier whose link is
    https://x/1: its key is the link. *)
Lemma C7_natural_key_witness :
  gofeed.GUID (gofeed.mkItem "" "t" "https://x/1" "" "" None None)
    = EmptyString /\
  model.GUID
    (convertItem 0 (gofeed.mkItem "" "t" "https://x/1" "" "" None None))
    = "https://x/1".
Proof.
  split; [reflexivity|].
  exact (proj1 (proj2 (C7_natural_key_fallback 0
           (gofeed.mkItem "" "t" "https://x/1" "" "" None None))) eq_refl).
Defined.

(** C8.  An item that carries no usable timestamp, neither a parsed
    publication date nor a parsed update date, gets the clock reading of
    its normalization as publication time; so does its entry in the
    normalized list, and every item of a payload has an entry there, each
    with a publication time. *)
Theorem C8_timestamp_fallback (now : time.Time) (item : gofeed.Item)
    (Hpublished : gofeed.PublishedParsed item = None)
    (Hupdated : gofeed.UpdatedParsed item = None) :
  model.Published (convertItem now item) = now /\
  (forall clock gf url i,
     gofeed.Items gf !! i = Some item ->
     exists e, (convert clock gf url).2 !! i = Some e /\
               model.Published e = clock i) /\
  (forall clock gf url,
     length (convert clock gf url).2 = length (gofeed.Items gf)).
Proof.
  assert (H : forall t, model.Published (convertItem t item) = t).
  { intros t. unfold convertItem. cbn [model.Published].
    rewrite Hpublished, Hupdated. reflexivity. }
  split; [apply H|]. split.
  - intros clock gf url i Hi. exists (convertItem (clock i) item).
    rewrite convert_lookup, Hi. split; [reflexivity | apply H].
  - intros. apply convert_length.
Qed.

(** The theorem at an item without dates, normalized at instant 42. *)
Lemma C8_timestamp_witness :
  model.Published
    (convertItem 42 (gofeed.mkItem "g" "t" "l" "" "" None None)) = 42.
Proof.
  exact (proj1 (C8_timestamp_fallback 42
                  (gofeed.mkItem "g" "t" "l" "" "" None None)
                  eq_refl eq_refl)).
Defined.

(** When the item carries a date, the entry keeps it: the publication
    date first, the update date second. *)
Lemma convertItem_dated (now : time.Time) (item : gofeed.Item) (t : time.Time) :
  (gofeed.PublishedParsed item = Some t ->
     model.Published (convertItem now item) = t) /\
  (gofeed.PublishedParsed item = None -> gofeed.UpdatedParsed item = Some t ->
     model.Published (convertItem now item) = t).
Proof.
  unfold convertItem. cbn [model.Published].
  split; [intros -> | intros -> ->]; reflexivity.
Qed.

End NormalizerClaims.

(** ** Read tracking *)

Section ReadTrackingFacts.

Import store main.

Lemma MarkEntryRead_Ok (id : Z) (isRead : bool) (s s' : Store) (u : unit) :
  MarkEntryRead id isRead s = (Ok u, s') ->
  entries (db s') =
    map (fun r => if row_id r =? id then setRead isRead r else r)
        (entries (db s)).
Proof.
  intros H. apply exec_Ok in H as (H & _ & _).
  unfold sqlMarkEntryRead in H. injection H as _ <-. reflexivity.
Qed.

Lemma MarkEntryRead_Err (id : Z) (isRead : bool) (s s' : Store) (e : Error) :
  MarkEntryRead id isRead s = (Err e, s') ->
  db s' = db s /\ e = ErrDriver /\ head (driver s) = Some true.
Proof.
  unfold MarkEntryRead, exec, sqlMarkEntryRead. intros H.
  destruct (driver s) as [|[|] script]; cbn in H; try discriminate.
  injection H as <- <-. repeat split.
Qed.

(** Marking an identifier no row carries is no error: the statement
    updates nothing and the call counts as a success. *)
Lemma MarkEntryRead_absent (id : Z) (s : Store) :
  head (driver s) <> Some true ->
  ~ In id (map row_id (entries (db s))) ->
  exists s', MarkEntryRead id true s = (Ok tt, s') /\ db s' = db s.
Proof.
  intros Hq Habs. unfold MarkEntryRead. rewrite (exec_quiet _ _ Hq).
  cbn. eexists. split; [reflexivity|]. cbn.
  destruct (db s) as [fs fq es eq]. cbn in *. f_equal.
  induction es as [|r es IH]; cbn; [reflexivity|].
  destruct (Z.eqb_spec (row_id r) id) as [Heq|_].
  - destruct Habs. left. exact Heq.
  - f_equal. apply IH. intros Hin. apply Habs. right. exact Hin.
Qed.

Lemma succeeded_cons (b : bool) (l : list bool) :
  succeeded (b :: l) = ((if b then 1 else 0) + succeeded l)%nat.
Proof. unfold succeeded. destruct b; reflexivity. Qed.

Lemma succeeded_le (l : list bool) : (succeeded l <= length l)%nat.
Proof.
  induction l as [|b l IH]; [cbn; lia|].
  rewrite succeeded_cons. destruct b; cbn [length]; lia.
Qed.

Lemma succeeded_lt (l : list bool) :
  In false l -> (succeeded l < length l)%nat.
Proof.
  induction l as [|b l IH]; [intros []|].
  rewrite succeeded_cons. pose proof (succeeded_le l).
  intros [->|Hin]; cbn [length]; [lia|].
  specialize (IH Hin). destruct b; lia.
Qed.

Lemma markOutcomes_length (ids : list Z) (s : Store) :
  length (markOutcomes ids s) = length ids.
Proof.
  revert s. induction ids as [|id ids IH]; intros s; cbn; [reflexivity|].
  destruct (MarkEntryRead id true s) as [r s']. cbn. f_equal. apply IH.
Qed.

Lemma markedIds_length (ids : list Z) (s : Store) :
  length (markedIds ids s) = succeeded (markOutcomes ids s).
Proof.
  revert s. induction ids as [|id ids IH]; intros s;
    cbn [markedIds markOutcomes]; [reflexivity|].
  destruct (MarkEntryRead id true s) as [r s'].
  rewrite succeeded_cons. destruct (is_ok r); cbn [length]; rewrite IH;
    reflexivity.
Qed.

Lemma markedIds_In (ids : list Z) (s : Store) (id : Z) :
  In id (markedIds ids s) -> In id ids.
Proof.
  revert s. induction ids as [|i ids IH]; intros s; cbn; [tauto|].
  destruct (MarkEntryRead i true s) as [r s'].
  destruct (is_ok r); cbn; [intros [H|H]|intros H]; eauto.
Qed.

Lemma markedIds_NoDup (ids : list Z) (s : Store) :
  NoDup ids -> NoDup (markedIds ids s).
Proof.
  revert s. induction ids as [|i ids IH]; intros s Hnd; cbn; [constructor|].
  apply NoDup_cons_In in Hnd as [Hi Hnd].
  destruct (MarkEntryRead i true s) as [r s'].
  destruct (is_ok r); [|exact (IH _ Hnd)].
  apply NoDup_cons_In. split; [|exact (IH _ Hnd)].
  intros Hin. exact (Hi (markedIds_In _ _ _ Hin)).
Qed.

Section Scanner.

Variable Sscanf : string -> option Z.

(** The loop of [markRead] counts the calls that returned no error,
    among the calls made for the arguments that scan. *)
Lemma markReadLoop_count (args : list string) (marked : nat) (s : Store) :
  (markReadLoop Sscanf args marked s).1 =
    (marked + succeeded (markOutcomes (omap Sscanf args) s))%nat.
Proof.
  revert marked s. induction args as [|arg args IH]; intros marked s.
  - cbn. unfold succeeded. cbn. lia.
  - cbn [markReadLoop omap list_omap]. destruct (Sscanf arg) as [id|].
    + cbn [markOutcomes].
      destruct (MarkEntryRead id true s) as [[u|e] s'];
        rewrite IH, succeeded_cons; cbn [is_ok]; lia.
    + apply IH.
Qed.

(** What [markRead] returns, in full. *)
Lemma markRead_result (c : Context) (disk : Store) :
  (markRead Sscanf c disk).1 =
    if (NArg c <? 1)%nat then Err (Exit Usage ExitUsageError)
    else if canOpen c then
      if canWrite c
      then Ok (succeeded (markOutcomes (omap Sscanf (Args c)) disk))
      else Err WriteFailed
    else Err (Exit OpenFailed ExitDataError).
Proof.
  unfold markRead, getStore, outputJSON.
  destruct (NArg c <? 1)%nat; [reflexivity|].
  destruct (canOpen c); [|reflexivity].
  pose proof (markReadLoop_count (Args c) 0 disk) as Hcount.
  destruct (markReadLoop Sscanf (Args c) 0 disk) as [marked s'].
  cbn [fst] in *. rewrite Hcount. destruct (canWrite c); reflexivity.
Qed.

End Scanner.

(** C10, as the code has it.  Given at least one argument, a store
    that opens and a standard output that takes the report, mark-read
    does not fail: an argument that does not scan as an identifier is
    skipped, so is an identifier whose [MarkEntryRead] returns an error,
    and the reported [marked_read] is the number of [MarkEntryRead] calls
    that returned no error (a call for an identifier no row carries is one
    of them).  Without a store that opens it fails with exit code 3, and
    with an output that refuses the report it fails with the writer's
    error. *)
Theorem C10_markRead_amended (Sscanf : string -> option Z) (c : Context)
    (disk : Store) (Hargs : (1 <= NArg c)%nat) :
  (canOpen c = true -> canWrite c = true ->
     (markRead Sscanf c disk).1 =
       Ok (succeeded (markOutcomes (omap Sscanf (Args c)) disk))) /\
  (canOpen c = false ->
     markRead Sscanf c disk = (Err (Exit OpenFailed ExitDataError), disk)) /\
  (canOpen c = true -> canWrite c = false ->
     (markRead Sscanf c disk).1 = Err WriteFailed).
Proof.
  assert (Hn : (NArg c <? 1)%nat = false) by (apply Nat.ltb_ge; exact Hargs).
  split; [|split].
  - intros Ho Hw. rewrite markRead_result, Hn, Ho, Hw. reflexivity.
  - intros Ho. unfold markRead, getStore. rewrite Hn, Ho. reflexivity.
  - intros Ho Hw. rewrite markRead_result, Hn, Ho, Hw. reflexivity.
Qed.

(** The theorem at three arguments, the second of which does not scan,
    with a driver that fails the first call: one call succeeds. *)
Lemma C10_markRead_witness :
  (1 <= NArg (mkContext ["1"; "x"; "2"] 0 true true))%nat /\
  (markRead scanDigits (mkContext ["1"; "x"; "2"] 0 true true)
            (mkStore emptyDB [true])).1 = Ok 1%nat.
Proof.
  assert (Hargs : (1 <= NArg (mkContext ["1"; "x"; "2"] 0 true true))%nat).
  { cbn. lia. }
  split; [exact Hargs|].
  exact (proj1 (C10_markRead_amended scanDigits
                  (mkContext ["1"; "x"; "2"] 0 true true)
                  (mkStore emptyDB [true]) Hargs) eq_refl eq_refl).
Defined.

(** C10 as stated fails: with one argument and a store that cannot be
    opened, mark-read fails. *)
Lemma C10_markRead_counterexample :
  (1 <= NArg (mkContext ["1"] 0 false true))%nat /\
  markRead scanDigits (mkContext ["1"] 0 false true) (mkStore emptyDB []) =
    (Err (Exit OpenFailed ExitDataError), mkStore emptyDB []).
Proof. split; [cbn; lia | reflexivity]. Qed.

(** *** mark-all-read *)

Lemma setRead_id (b : bool) (r : EntryRow) : row_id (setRead b r) = row_id r.
Proof. reflexivity. Qed.

Lemma markSet_nil (rows : list EntryRow) : map (markSet []) rows = rows.
Proof. induction rows as [|r rows IH]; cbn; [|rewrite IH]; reflexivity. Qed.

Lemma markSet_cons (id : Z) (ids : list Z) (r : EntryRow) :
  markSet ids (if row_id r =? id then setRead true r else r) =
    markSet (id :: ids) r.
Proof.
  unfold markSet. cbn [existsb].
  destruct (Z.eqb_spec (row_id r) id) as [Heq|Hne]; cbn [orb].
  - rewrite setRead_id. destruct (existsb _ ids); reflexivity.
  - reflexivity.
Qed.

(** The table after the loop of [markAllRead]: the rows of the
    identifiers whose call returned no error are marked, the others are
    as before. *)
Lemma markAllLoop_rows (es : list model.Entry) (s : Store) :
  entries (db (markAllLoop es s)) =
    map (markSet (markedIds (map model.ID es) s)) (entries (db s)).
Proof.
  revert s. induction es as [|e es IH]; intros s.
  - cbn. symmetry. apply markSet_nil.
  - cbn [markAllLoop map markedIds].
    destruct (MarkEntryRead (model.ID e) true s) as [[u|err] s'] eqn:H;
      cbn [snd is_ok]; rewrite IH.
    + rewrite (MarkEntryRead_Ok _ _ _ _ _ H), map_map.
      apply map_ext. intros r. apply markSet_cons.
    + destruct (MarkEntryRead_Err _ _ _ _ _ H) as (-> & _). reflexivity.
Qed.

Lemma flagsChanged_map (f : EntryRow -> EntryRow) (rows : list EntryRow) :
  flagsChanged rows (map f rows) =
    length (List.filter
              (fun r => negb (row_is_read r =? row_is_read (f r))) rows).
Proof.
  unfold flagsChanged. induction rows as [|r rows IH]; [reflexivity|].
  cbn [map zip zip_with List.filter fst snd].
  destruct (negb _); cbn [length]; rewrite IH; reflexivity.
Qed.

Lemma In_existsb (id : Z) (ids : list Z) :
  existsb (Z.eqb id) ids = true <-> In id ids.
Proof.
  rewrite existsb_exists. split.
  - intros (x & Hx & Heq). apply Z.eqb_eq in Heq. subst. exact Hx.
  - intros Hin. exists id. split; [exact Hin | apply Z.eqb_refl].
Qed.

Lemma NoDup_map_unique {A K : Type} (key : A -> K) (l : list A) (x y : A) :
  NoDup (map key l) -> In x l -> In y l -> key x = key y -> x = y.
Proof.
  induction l as [|z l IH]; cbn; intros Hnd Hx Hy Hk; [tauto|].
  apply NoDup_cons_In in Hnd as [Hz Hnd].
  destruct Hx as [->|Hx], Hy as [->|Hy].
  - reflexivity.
  - destruct Hz. rewrite Hk. apply in_map. exact Hy.
  - destruct Hz. rewrite <- Hk. apply in_map. exact Hx.
  - exact (IH Hnd Hx Hy Hk).
Qed.

(** Marking distinct identifiers of unread rows changes one flag each. *)
Lemma flagsChanged_markSet (ids : list Z) (rows : list EntryRow) :
  NoDup (map row_id rows) -> NoDup ids ->
  (forall id, In id ids ->
     exists r, In r rows /\ row_id r = id /\ row_is_read r = 0) ->
  flagsChanged rows (map (markSet ids) rows) = length ids.
Proof.
  intros Hrows Hids Hunread. rewrite flagsChanged_map.
  rewrite (filter_ext_in _ (fun r => existsb (Z.eqb (row_id r)) ids)).
  - rewrite <- (length_map row_id). apply Permutation_length.
    apply NoDup_Permutation;
      [apply NoDup_map_filter; exact Hrows | exact Hids |].
    intros id. rewrite !list_elem_of_In, in_map_iff. split.
    + intros (r & <- & Hr). apply filter_In in Hr as [_ Hr].
      apply In_existsb. exact Hr.
    + intros Hid. destruct (Hunread id Hid) as (r & Hr & <- & _).
      exists r. split; [reflexivity|]. apply filter_In.
      split; [exact Hr | apply In_existsb; exact Hid].
  - intros r Hr. unfold markSet.
    destruct (existsb (Z.eqb (row_id r)) ids) eqn:Hex; [|].
    + apply In_existsb in Hex.
      destruct (Hunread _ Hex) as (r' & Hr' & Hid' & Hflag).
      rewrite <- (NoDup_map_unique row_id rows r' r Hrows Hr' Hr Hid').
      rewrite Hflag. reflexivity.
    + rewrite Z.eqb_refl. reflexivity.
Qed.

(** The rows the query of [markAllRead] selects. *)
Lemma GetEntries_unread (s : Store) :
  head (driver s) <> Some true ->
  exists rows,
    GetEntries unreadOptions s =
      (Ok (map entryOfRow rows), mkStore (db s) (tail (driver s))) /\
    rows ≡ₚ List.filter (fun r => row_is_read r =? 0) (entries (db s)).
Proof.
  intros Hq. unfold GetEntries. rewrite (exec_quiet _ _ Hq).
  unfold sqlGetEntries, unreadOptions. cbn.
  eexists. split; [reflexivity|].
  rewrite merge_sort_Permutation.
  induction (entries (db s)) as [|r rows IH]; cbn; [reflexivity|].
  destruct (row_is_read r =? 0); cbn; [constructor|]; exact IH.
Qed.

(** C9.  On a database built through the store's interface, when the
    store opens and the query of the unread entries is served,
    mark-all-read reports as [marked_read] the size of the snapshot of
    unread entries it queried, whatever became of the updates:
    the error of each [MarkEntryRead] call is dropped.  The number of rows
    whose read flag changed is the number of calls that returned no
    error, so as soon as one call fails the reported count exceeds the
    number of entries actually marked. *)
Theorem C9_markAllRead_reports_snapshot (c : Context) (disk : Store)
    (Hopen : canOpen c = true)
    (Hquery : head (driver disk) <> Some true)
    (Hreach : reachable (db disk)) :
  exists snapshot s1,
    GetEntries unreadOptions disk = (Ok snapshot, s1) /\
    (canWrite c = true ->
       (markAllRead c disk).1 = Ok (length snapshot)) /\
    length (markOutcomes (map model.ID snapshot) s1) = length snapshot /\
    flagsChanged (entries (db disk)) (entries (db (markAllRead c disk).2)) =
      succeeded (markOutcomes (map model.ID snapshot) s1) /\
    (In false (markOutcomes (map model.ID snapshot) s1) ->
       (flagsChanged (entries (db disk))
                     (entries (db (markAllRead c disk).2))
        < length snapshot)%nat).
Proof.
  pose proof (reachable_wellFormed _ Hreach) as Hwf.
  destruct (GetEntries_unread disk Hquery) as (rows & Hget & Hperm).
  exists (map entryOfRow rows), (mkStore (db disk) (tail (driver disk))).
  assert (Hids : map model.ID (map entryOfRow rows) = map row_id rows).
  { rewrite map_map. reflexivity. }
  assert (Hchanged :
            flagsChanged (entries (db disk))
                         (entries (db (markAllRead c disk).2)) =
            succeeded (markOutcomes (map model.ID (map entryOfRow rows))
                         (mkStore (db disk) (tail (driver disk))))).
  { unfold markAllRead, getStore. rewrite Hopen, Hget. cbn [snd].
    rewrite markAllLoop_rows. cbn [db].
    rewrite <- markedIds_length. rewrite Hids.
    assert (Hsel : NoDup (map row_id rows)).
    { rewrite Hperm. apply NoDup_map_filter. exact (wf_entry_ids _ Hwf). }
    apply flagsChanged_markSet.
    - exact (wf_entry_ids _ Hwf).
    - apply markedIds_NoDup. exact Hsel.
    - intros id Hid. apply markedIds_In in Hid.
      apply in_map_iff in Hid as (r & <- & Hr).
      apply list_elem_of_In in Hr. rewrite Hperm in Hr.
      apply list_elem_of_In, filter_In in Hr as [Hr Hflag].
      exists r. split; [exact Hr|]. split; [reflexivity|].
      apply Z.eqb_eq. exact Hflag. }
  split; [exact Hget|]. split; [|split; [|split]].
  - intros Hw. unfold markAllRead, getStore, outputJSON.
    rewrite Hopen, Hget, Hw. reflexivity.
  - rewrite markOutcomes_length. apply length_map.
  - exact Hchanged.
  - intros Hfail. rewrite Hchanged.
    pose proof (succeeded_lt _ Hfail) as Hlt.
    rewrite markOutcomes_length, length_map in Hlt. exact Hlt.
Qed.

(** The theorem at the sample database, with a driver that serves the
    query and fails the first update. *)
Lemma C9_markAllRead_witness :
  canOpen (mkContext [] 0 true true) = true /\
  head (driver (mkStore sampleDB [false; true])) <> Some true /\
  reachable (db (mkStore sampleDB [false; true])) /\
  exists snapshot s1,
    GetEntries unreadOptions (mkStore sampleDB [false; true])
      = (Ok snapshot, s1) /\
    (canWrite (mkContext [] 0 true true) = true ->
       (markAllRead (mkContext [] 0 true true)
                    (mkStore sampleDB [false; true])).1
       = Ok (length snapshot)) /\
    length (markOutcomes (map model.ID snapshot) s1) = length snapshot /\
    flagsChanged
      (entries (db (mkStore sampleDB [false; true])))
      (entries (db (markAllRead (mkContext [] 0 true true)
                                (mkStore sampleDB [false; true])).2)) =
      succeeded (markOutcomes (map model.ID snapshot) s1) /\
    (In false (markOutcomes (map model.ID snapshot) s1) ->
       (flagsChanged
          (entries (db (mkStore sampleDB [false; true])))
          (entries (db (markAllRead (mkContext [] 0 true true)
                                    (mkStore sampleDB [false; true])).2))
        < length snapshot)%nat).
Proof.
  assert (Hopen : canOpen (mkContext [] 0 true true) = true)
    by reflexivity.
  assert (Hquery : head (driver (mkStore sampleDB [false; true])) <> Some true)
    by (cbn; discriminate).
  assert (Hwf : reachable (db (mkStore sampleDB [false; true]))).
  { unfold reachable, sampleDB. eexists _, _. reflexivity. }
  split; [exact Hopen|]. split; [exact Hquery|]. split; [exact Hwf|].
  exact (C9_markAllRead_reports_snapshot (mkContext [] 0 true true)
           (mkStore sampleDB [false; true]) Hopen Hquery Hwf).
Defined.

(** The same run, evaluated: two entries are reported, one is marked. *)
Lemma markAllRead_sample :
  (markAllRead (mkContext [] 0 true true) (mkStore sampleDB [false; true])).1
    = Ok 2%nat /\
  flagsChanged
    (entries sampleDB)
    (entries (db (markAllRead (mkContext [] 0 true true)
                              (mkStore sampleDB [false; true])).2)) = 1%nat.
Proof. split; vm_compute; reflexivity. Qed.

End ReadTrackingFacts.

(** ** The sync engine *)

Section SyncFacts.

Import store main.

Variable ParseURL : string -> result gofeed.Feed string.
Variable Now : string -> nat -> time.Time.

Local Abbreviation Fetch := (feed.Fetch ParseURL Now).
Local Abbreviation step := (main.step ParseURL Now).
Local Abbreviation steps := (main.steps ParseURL Now).
Local Abbreviation Inv := (main.Inv ParseURL Now).
Local Abbreviation due := (main.due ParseURL Now).
Local Abbreviation carries := (main.carries ParseURL Now).
Local Abbreviation measure := (main.measure ParseURL Now).
Local Abbreviation weight := (main.weight ParseURL Now).
Local Abbreviation fetched := (main.fetched ParseURL Now).

(** *** Sums over the goroutines *)

Lemma sum_list_with_insert {A : Type} (w : A -> nat) (l : list A) (i : nat)
    (x y : A) :
  l !! i = Some x ->
  (sum_list_with w (<[i:=y]> l) + w x = sum_list_with w l + w y)%nat.
Proof.
  revert i. induction l as [|z l IH]; intros i Hi; [discriminate|].
  destruct i as [|i].
  - cbn in *. injection Hi as ->. lia.
  - change (<[S i:=y]> (z :: l)) with (z :: <[i:=y]> l).
    cbn [sum_list_with]. specialize (IH i Hi). lia.
Qed.

Lemma countPhase_insert (P : Phase -> bool) (ts : list (model.Feed * Phase))
    (i : nat) (f : model.Feed) (p p' : Phase) :
  ts !! i = Some (f, p) ->
  (countPhase P (<[i:=(f, p')]> ts) + (if P p then 1 else 0) =
   countPhase P ts + (if P p' then 1 else 0))%nat.
Proof.
  intros Hi. unfold countPhase.
  exact (sum_list_with_insert _ ts i (f, p) (f, p') Hi).
Qed.

Lemma countPhase_snoc (P : Phase -> bool) (ts : list (model.Feed * Phase))
    (f : model.Feed) (p : Phase) :
  countPhase P (ts ++ [(f, p)]) =
    (countPhase P ts + (if P p then 1 else 0))%nat.
Proof.
  unfold countPhase. rewrite sum_list_with_app. cbn. lia.
Qed.

Lemma countPhase_zero (P : Phase -> bool) (ts : list (model.Feed * Phase)) :
  countPhase P ts = 0%nat <->
  forall i f p, ts !! i = Some (f, p) -> P p = false.
Proof.
  unfold countPhase. induction ts as [|[f p] ts IH]; cbn.
  - split; [intros _ i f p Hi; discriminate | reflexivity].
  - split.
    + intros H i f' p' Hi. destruct i as [|i]; cbn in Hi.
      * injection Hi as <- <-. destruct (P p); [lia | reflexivity].
      * apply (proj1 IH ltac:(lia) i f' p' Hi).
    + intros H. rewrite (H 0%nat f p eq_refl).
      apply IH. intros i f' p' Hi. exact (H (S i) f' p' Hi).
Qed.

Lemma countPhase_le (P Q : Phase -> bool) (ts : list (model.Feed * Phase)) :
  (forall p, P p = true -> Q p = true) ->
  (countPhase P ts <= countPhase Q ts)%nat.
Proof.
  intros HPQ. unfold countPhase. induction ts as [|[f p] ts IH]; cbn; [lia|].
  specialize (HPQ p). destruct (P p); [rewrite HPQ by reflexivity|];
    destruct (Q p); lia.
Qed.

(** *** The cases of a step *)

Ltac step_cases H :=
  match type of H with
  | main.step _ _ ?t ?g = Some ?g' =>
      destruct t as [|i]; cbn [main.step] in H;
      [ unfold stepMain in H;
        destruct (pending g) as [|f rest] eqn:Hpend;
        [ destruct (returned g) eqn:Hret; [discriminate H|];
          destruct (wg g =? 0)%nat eqn:Hwg; [|discriminate H]
        | ]
      | unfold stepWorker in H;
        destruct (tasks g !! i) as [[f p]|] eqn:Hi; [|discriminate H];
        destruct p as [| |es todo n|r|r| | | |];
        [ destruct (sem g <? semCap)%nat eqn:Hsem; [|discriminate H]
        | destruct (feed.Fetch _ _ (model.URL f)) as [[fd es]|msg] eqn:Hfetch
        | destruct todo as [|e todo];
          [|destruct (SaveEntry _ (st g)) as [r s'] eqn:Hsave]
        | destruct (mu g) eqn:Hmu; [discriminate H|]
        | idtac | idtac | idtac | idtac
        | discriminate H ] ];
      injection H as <-
  end.

(** Every step uses up some of the measure: no run goes on for ever. *)
Lemma step_measure (t : Tid) (g g' : State) :
  step t g = Some g' -> (measure g' < measure g)%nat.
Proof.
  intros H. unfold main.measure. step_cases H;
    cbn [tasks pending returned]; unfold setTask;
    try (match goal with
         | |- context [<[_:=(_, ?p')]> (tasks g)] =>
             pose proof (sum_list_with_insert weight _ i _ (f, p') Hi) as Hw
         end;
         unfold main.weight, main.fetched in *; cbn [fst snd length] in *;
         rewrite ?Hfetch in *; lia).
  - lia.
  - rewrite sum_list_with_app. cbn [sum_list_with].
    unfold main.weight at 2. cbn [fst snd]. lia.
Qed.

(** *** The invariant *)

Lemma tasks_fst_insert (ts : list (model.Feed * Phase)) (i : nat)
    (f : model.Feed) (p p' : Phase) :
  ts !! i = Some (f, p) -> (<[i:=(f, p')]> ts).*1 = ts.*1.
Proof.
  intros Hi. rewrite list_fmap_insert. apply list_insert_id.
  rewrite list_lookup_fmap, Hi. reflexivity.
Qed.

Lemma lookup_insert_cases {A : Type} (l : list A) (i j : nat) (x y : A) :
  <[i:=x]> l !! j = Some y ->
  (j = i /\ y = x) \/ (j <> i /\ l !! j = Some y).
Proof.
  rewrite list_lookup_insert. destruct (decide (i = j ∧ i < length l)%nat)
    as [[-> _]|Hn].
  - intros H. injection H as <-. left. split; reflexivity.
  - intros H. destruct (decide (j = i)) as [->|Hne]; [|right; split; assumption].
    assert (i < length l)%nat by (eapply lookup_lt_Some; exact H).
    destruct Hn. split; [reflexivity | assumption].
Qed.

Lemma countPhase_pos (P : Phase -> bool) (ts : list (model.Feed * Phase))
    (i : nat) (f : model.Feed) (p : Phase) :
  ts !! i = Some (f, p) -> P p = true -> (1 <= countPhase P ts)%nat.
Proof.
  intros Hi HP. destruct (countPhase P ts) eqn:Hc; [|lia].
  rewrite (proj1 (countPhase_zero P ts) Hc i f p Hi) in HP. discriminate.
Qed.

(** Distinct sources have distinct places in the working set. *)
Lemma url_task_task (fs : list model.Feed) (ts : list (model.Feed * Phase))
    (pend : list model.Feed) (i j : nat) (f f' : model.Feed) (p p' : Phase) :
  NoDup (model.URL <$> fs) -> ts.*1 ++ pend = fs ->
  ts !! i = Some (f, p) -> ts !! j = Some (f', p') ->
  model.URL f = model.URL f' -> i = j.
Proof.
  intros Hnd <- Hi Hj Hurl.
  assert (Hli : (model.URL <$> ts.*1 ++ pend) !! i = Some (model.URL f)).
  { rewrite list_lookup_fmap, lookup_app_l
      by (rewrite length_fmap; eapply lookup_lt_Some; exact Hi).
    rewrite list_lookup_fmap, Hi. reflexivity. }
  assert (Hlj : (model.URL <$> ts.*1 ++ pend) !! j = Some (model.URL f)).
  { rewrite list_lookup_fmap, lookup_app_l
      by (rewrite length_fmap; eapply lookup_lt_Some; exact Hj).
    rewrite list_lookup_fmap, Hj, Hurl. reflexivity. }
  exact (NoDup_lookup _ _ _ _ Hnd Hli Hlj).
Qed.

Lemma url_task_pending (fs : list model.Feed) (ts : list (model.Feed * Phase))
    (pend : list model.Feed) (i : nat) (f f' : model.Feed) (p : Phase) :
  NoDup (model.URL <$> fs) -> ts.*1 ++ pend = fs ->
  ts !! i = Some (f, p) -> f' ∈ pend ->
  model.URL f <> model.URL f'.
Proof.
  intros Hnd <- Hi Hin Hurl.
  apply list_elem_of_lookup in Hin as [k Hk].
  pose proof (lookup_lt_Some _ _ _ Hi) as Hlt.
  assert (Hli : (model.URL <$> ts.*1 ++ pend) !! i = Some (model.URL f)).
  { rewrite list_lookup_fmap, lookup_app_l by (rewrite length_fmap; exact Hlt).
    rewrite list_lookup_fmap, Hi. reflexivity. }
  assert (Hlk : (model.URL <$> ts.*1 ++ pend) !! (length ts + k)%nat
                = Some (model.URL f)).
  { rewrite list_lookup_fmap, lookup_app_r by (rewrite length_fmap; lia).
    rewrite length_fmap.
    replace (length ts + k - length ts)%nat with k by lia.
    rewrite Hk, Hurl. reflexivity. }
  pose proof (NoDup_lookup _ _ _ _ Hnd Hli Hlk). lia.
Qed.

Lemma sumNew_empty : sumNew ∅ = 0%nat.
Proof. unfold sumNew. apply map_fold_empty. Qed.

Lemma sumNew_insert (m : gmap string ResultEntry) (u : string)
    (r : ResultEntry) :
  m !! u = None -> sumNew (<[u:=r]> m) = (newOf r + sumNew m)%nat.
Proof.
  intros Hu. unfold sumNew.
  apply (map_fold_insert_L (fun _ r acc => (newOf r + acc)%nat)); [|exact Hu].
  intros. lia.
Qed.

(** A step of a worker keeps the invariant, given what the step does to
    the counters and to the report. *)
Lemma worker_Inv (fs : list model.Feed) (g g' : State) (i : nat)
    (f : model.Feed) (p p' : Phase) :
  NoDup (model.URL <$> fs) -> Inv fs g ->
  tasks g !! i = Some (f, p) ->
  tasks g' = <[i:=(f, p')]> (tasks g) ->
  pending g' = pending g -> returned g' = returned g ->
  carries f p' ->
  (sem g' + (if holdsSlot p then 1 else 0) =
   sem g + (if holdsSlot p' then 1 else 0))%nat ->
  (sem g' <= semCap)%nat ->
  ((if mu g' then 1 else 0) + (if holdsMutex p then 1 else 0) =
   (if mu g then 1 else 0) + (if holdsMutex p' then 1 else 0))%nat ->
  (wg g' + (if live p then 1 else 0) =
   wg g + (if live p' then 1 else 0))%nat ->
  (wg g' <= wg g)%nat ->
  ((wrote p' = wrote p /\ results g' = results g /\
    totalNewEntries g' = totalNewEntries g) \/
   (exists r, p = Writing r /\ p' = Unlocking /\
      results g' = <[model.URL f := r]> (results g) /\
      totalNewEntries g' = (totalNewEntries g + newOf r)%nat)) ->
  Inv fs g'.
Proof.
  intros Hnd HI Hi Hts Hpend Hret Hcar Hsem Hcap Hmu Hwg Hwgle Hres.
  destruct HI as [Ifeeds Isem Icap Imu Iwg Icar Iunw Iwr Ipend Idom Itot Iret].
  assert (Hfst : (tasks g').*1 = (tasks g).*1)
    by (rewrite Hts; exact (tasks_fst_insert _ _ _ _ _ Hi)).
  assert (Hlook : forall j f' q, tasks g' !! j = Some (f', q) ->
            (j = i /\ f' = f /\ q = p') \/
            (j <> i /\ tasks g !! j = Some (f', q))).
  { intros j f' q Hj. rewrite Hts in Hj.
    destruct (lookup_insert_cases _ _ _ _ _ Hj) as [[-> Heq]|[Hne Hold]].
    - injection Heq as -> ->. left. repeat split.
    - right. split; assumption. }
  constructor.
  - rewrite Hfst, Hpend. exact Ifeeds.
  - rewrite Hts.
    pose proof (countPhase_insert holdsSlot _ _ _ _ p' Hi). lia.
  - exact Hcap.
  - rewrite Hts.
    pose proof (countPhase_insert holdsMutex _ _ _ _ p' Hi). lia.
  - rewrite Hts.
    pose proof (countPhase_insert live _ _ _ _ p' Hi). lia.
  - intros j f' q Hj.
    destruct (Hlook j f' q Hj) as [(-> & -> & ->)|[_ Hold]];
      [exact Hcar | exact (Icar _ _ _ Hold)].
  - intros j f' q Hj Hq.
    destruct Hres as [(Hw & -> & _)|(r & -> & -> & -> & _)].
    + destruct (Hlook j f' q Hj) as [(-> & -> & ->)|[_ Hold]].
      * apply (Iunw _ _ _ Hi). congruence.
      * exact (Iunw _ _ _ Hold Hq).
    + destruct (Hlook j f' q Hj) as [(-> & -> & ->)|[Hne Hold]];
        [discriminate Hq|].
      rewrite lookup_insert_ne; [exact (Iunw _ _ _ Hold Hq)|].
      intros Hurl. apply Hne. symmetry.
      exact (url_task_task _ _ _ _ _ _ _ _ _ Hnd Ifeeds Hi Hold Hurl).
  - intros j f' q Hj Hq.
    destruct Hres as [(Hw & -> & _)|(r & -> & -> & -> & _)].
    + destruct (Hlook j f' q Hj) as [(-> & -> & ->)|[_ Hold]].
      * apply (Iwr _ _ _ Hi). congruence.
      * exact (Iwr _ _ _ Hold Hq).
    + destruct (Hlook j f' q Hj) as [(-> & -> & ->)|[Hne Hold]].
      * exists r. rewrite lookup_insert_eq. split; [reflexivity|].
        exact (Icar _ _ _ Hi).
      * rewrite lookup_insert_ne; [exact (Iwr _ _ _ Hold Hq)|].
        intros Hurl. apply Hne. symmetry.
        exact (url_task_task _ _ _ _ _ _ _ _ _ Hnd Ifeeds Hi Hold Hurl).
  - intros f' Hf'. rewrite Hpend in Hf'.
    destruct Hres as [(_ & -> & _)|(r & -> & -> & -> & _)].
    + exact (Ipend _ Hf').
    + rewrite lookup_insert_ne; [exact (Ipend _ Hf')|].
      exact (url_task_pending _ _ _ _ _ _ _ Hnd Ifeeds Hi Hf').
  - intros u Hu. rewrite Hfst.
    destruct Hres as [(_ & Hr & _)|(r & -> & -> & Hr & _)];
      rewrite Hr in Hu; [exact (Idom _ Hu)|].
    destruct (decide (model.URL f = u)) as [<-|Hne].
    + exists f. split; [|reflexivity].
      apply list_elem_of_fmap. exists (f, Writing r). split; [reflexivity|].
      eapply list_elem_of_lookup_2. exact Hi.
    + rewrite lookup_insert_ne in Hu by exact Hne. exact (Idom _ Hu).
  - destruct Hres as [(_ & -> & ->)|(r & -> & -> & -> & ->)];
      [exact Itot|].
    rewrite sumNew_insert by (exact (Iunw _ _ _ Hi eq_refl)). lia.
  - intros Hr. rewrite Hret in Hr. destruct (Iret Hr) as [Hp Hw].
    rewrite Hpend. split; [exact Hp | lia].
Qed.

Ltac worker_facts HI Hi :=
  let Isem := fresh "Isem" in
  let Icap := fresh "Icap" in
  let Imu := fresh "Imu" in
  let Iwg := fresh "Iwg" in
  pose proof (main.inv_sem _ _ _ _ HI) as Isem;
  pose proof (main.inv_cap _ _ _ _ HI) as Icap;
  pose proof (main.inv_mu _ _ _ _ HI) as Imu;
  pose proof (main.inv_wg _ _ _ _ HI) as Iwg;
  let Hs := fresh "Hs" in
  let Hm := fresh "Hm" in
  let Hl := fresh "Hl" in
  pose proof (countPhase_pos holdsSlot _ _ _ _ Hi) as Hs;
  pose proof (countPhase_pos holdsMutex _ _ _ _ Hi) as Hm;
  pose proof (countPhase_pos live _ _ _ _ Hi) as Hl;
  cbn [holdsSlot holdsMutex live] in Hs, Hm, Hl;
  try specialize (Hs eq_refl); try specialize (Hm eq_refl);
  try specialize (Hl eq_refl).

Ltac worker_arith :=
  cbn [tasks pending returned sem mu wg results totalNewEntries st
       holdsSlot holdsMutex live wrote];
  match goal with
  | |- _ = _ :> list _ => reflexivity
  | |- _ = _ :> bool => reflexivity
  | |- (_ <= _)%nat => try (destruct (mu _)); lia
  | |- (_ = _)%nat => try (destruct (mu _)); lia
  | |- _ => idtac
  end.

(** Every step keeps the invariant. *)
Lemma step_Inv (fs : list model.Feed) (t : Tid) (g g' : State) :
  NoDup (model.URL <$> fs) -> Inv fs g -> step t g = Some g' -> Inv fs g'.
Proof.
  intros Hnd HI H. step_cases H.
  - (* wg.Wait() returns *)
    destruct HI as [Ifeeds Isem Icap Imu Iwg Icar Iunw Iwr Ipend Idom Itot Iret].
    rewrite Hpend in *.
    constructor; cbn [tasks pending returned sem mu wg results
                      totalNewEntries st]; try assumption.
    intros _. split; [reflexivity|]. apply Nat.eqb_eq. exact Hwg.
  - (* go func *)
    destruct HI as [Ifeeds Isem Icap Imu Iwg Icar Iunw Iwr Ipend Idom Itot Iret].
    rewrite Hpend in *.
    constructor; cbn [tasks pending returned sem mu wg results
                      totalNewEntries st]; try assumption.
    + rewrite fmap_app, <- app_assoc. exact Ifeeds.
    + rewrite countPhase_snoc. cbn. lia.
    + rewrite countPhase_snoc. cbn. lia.
    + rewrite countPhase_snoc. cbn. lia.
    + intros j f' q Hj. apply lookup_snoc_Some in Hj as [[_ Hj]|[_ Heq]].
      * exact (Icar _ _ _ Hj).
      * injection Heq as <- <-. exact I.
    + intros j f' q Hj Hq. apply lookup_snoc_Some in Hj as [[_ Hj]|[_ Heq]].
      * exact (Iunw _ _ _ Hj Hq).
      * injection Heq as <- <-. apply Ipend. left.
    + intros j f' q Hj Hq. apply lookup_snoc_Some in Hj as [[_ Hj]|[_ Heq]].
      * exact (Iwr _ _ _ Hj Hq).
      * injection Heq as <- <-. discriminate Hq.
    + intros f' Hf'. apply Ipend. right. exact Hf'.
    + intros u Hu. destruct (Idom u Hu) as (f' & Hf' & Hurl).
      exists f'. split; [|exact Hurl].
      rewrite fmap_app. apply elem_of_app. left. exact Hf'.
    + intros Hr. destruct (Iret Hr) as [Hp _]. discriminate Hp.
  - (* sem <- struct{}{} *)
    worker_facts HI Hi. apply Nat.ltb_lt in Hsem.
    apply (worker_Inv fs g _ i f Spawned Fetching Hnd HI Hi);
      worker_arith.
    + exact I.
    + left. repeat split.
  - (* Fetch returns entries *)
    worker_facts HI Hi.
    apply (worker_Inv fs g _ i f Fetching (Saving es es 0) Hnd HI Hi);
      worker_arith.
    + split; [exists fd; exact Hfetch|].
      split; [cbn; lia | exists []; reflexivity].
    + left. repeat split.
  - (* Fetch returns an error *)
    worker_facts HI Hi.
    apply (worker_Inv fs g _ i f Fetching (Locking (ResError msg)) Hnd HI Hi);
      worker_arith.
    + unfold main.carries, main.due. rewrite Hfetch. reflexivity.
    + left. repeat split.
  - (* the loop over the entries ends *)
    worker_facts HI Hi.
    pose proof (main.inv_carries _ _ _ _ HI _ _ _ Hi) as ([fd Hfd] & Hn & _).
    apply (worker_Inv fs g _ i f (Saving es [] n)
             (Locking (ResCounts n (length es))) Hnd HI Hi);
      worker_arith.
    + unfold main.carries, main.due. rewrite Hfd.
      exists n. split; [reflexivity | cbn in Hn; lia].
    + left. repeat split.
  - (* SaveEntry *)
    worker_facts HI Hi.
    pose proof (main.inv_carries _ _ _ _ HI _ _ _ Hi)
      as (Hfd & Hn & gone & Hgone).
    apply (worker_Inv fs g _ i f (Saving es (e :: todo) n)
             (Saving es todo (match r with Err _ => n | Ok _ => S n end))
             Hnd HI Hi);
      worker_arith.
    + split; [exact Hfd|]. split; [cbn [length] in Hn; destruct r; lia|].
      exists (gone ++ [e]). rewrite <- app_assoc. exact Hgone.
    + left. repeat split.
  - (* mu.Lock() *)
    worker_facts HI Hi.
    pose proof (main.inv_carries _ _ _ _ HI _ _ _ Hi) as Hdue.
    rewrite Hmu in Imu.
    apply (worker_Inv fs g _ i f (Locking r) (Writing r) Hnd HI Hi);
      worker_arith.
    + exact Hdue.
    + left. repeat split.
  - (* the writes under the lock *)
    worker_facts HI Hi.
    apply (worker_Inv fs g _ i f (Writing r) Unlocking Hnd HI Hi);
      worker_arith.
    + exact I.
    + right. exists r. repeat split. destruct r; cbn; lia.
  - (* mu.Unlock() *)
    worker_facts HI Hi.
    apply (worker_Inv fs g _ i f Unlocking Releasing Hnd HI Hi);
      worker_arith.
    + exact I.
    + left. repeat split.
  - (* <-sem *)
    worker_facts HI Hi.
    apply (worker_Inv fs g _ i f Releasing Finishing Hnd HI Hi);
      worker_arith.
    + exact I.
    + left. repeat split.
  - (* wg.Done() *)
    worker_facts HI Hi.
    apply (worker_Inv fs g _ i f Finishing Done Hnd HI Hi);
      worker_arith.
    + exact I.
    + left. repeat split.
Qed.

Lemma Inv_init (fs : list model.Feed) (s : Store) : Inv fs (init fs s).
Proof.
  constructor; cbn [init tasks pending returned sem mu wg results
                    totalNewEntries st].
  - reflexivity.
  - reflexivity.
  - unfold semCap. lia.
  - reflexivity.
  - reflexivity.
  - intros i f p Hi. discriminate.
  - intros i f p Hi. discriminate.
  - intros i f p Hi. discriminate.
  - intros f _. apply lookup_empty.
  - intros u [r Hr]. rewrite lookup_empty in Hr. discriminate.
  - symmetry. exact sumNew_empty.
  - intros Hr. discriminate.
Qed.

Lemma steps_app (a b : list Tid) (g : State) :
  steps (a ++ b) g =
    match steps a g with
    | Some g1 => steps b g1
    | None => None
    end.
Proof.
  revert g. induction a as [|t a IH]; intros g; cbn; [reflexivity|].
  destruct (step t g); [apply IH | reflexivity].
Qed.

Lemma steps_Inv (fs : list model.Feed) (sched : list Tid) (g g' : State) :
  NoDup (model.URL <$> fs) -> Inv fs g -> steps sched g = Some g' ->
  Inv fs g'.
Proof.
  intros Hnd. revert g. induction sched as [|t sched IH]; intros g HI H.
  - cbn in H. injection H as <-. exact HI.
  - cbn in H. destruct (step t g) as [g1|] eqn:Ht; [|discriminate].
    exact (IH g1 (step_Inv fs t g g1 Hnd HI Ht) H).
Qed.

(** The length of a run is bounded by the measure of its first state. *)
Lemma steps_measure (sched : list Tid) (g g' : State) :
  steps sched g = Some g' -> (length sched + measure g' <= measure g)%nat.
Proof.
  revert g. induction sched as [|t sched IH]; intros g H; cbn in H.
  - injection H as <-. cbn. lia.
  - destruct (step t g) as [g1|] eqn:Ht; [|discriminate].
    pose proof (step_measure t g g1 Ht). specialize (IH g1 H).
    cbn [length]. lia.
Qed.

(** *** The admission gate *)

(** The tokens in the channel are the slots held, and never exceed its
    capacity; no assumption on the working set is needed. *)
Lemma step_slots (t : Tid) (g g' : State) :
  sem g = countPhase holdsSlot (tasks g) /\ (sem g <= semCap)%nat ->
  step t g = Some g' ->
  sem g' = countPhase holdsSlot (tasks g') /\ (sem g' <= semCap)%nat.
Proof.
  intros [Hs Hc] H. step_cases H;
    cbn [tasks sem]; unfold setTask;
    try (match goal with
         | |- context [<[_:=(_, ?p')]> (tasks g)] =>
             pose proof (countPhase_insert holdsSlot _ _ _ _ p' Hi) as Hins;
             pose proof (countPhase_pos holdsSlot _ _ _ _ Hi) as Hpos
         end;
         cbn [holdsSlot] in Hins, Hpos; try specialize (Hpos eq_refl);
         try (apply Nat.ltb_lt in Hsem); split; lia).
  - split; assumption.
  - rewrite countPhase_snoc. cbn. split; lia.
Qed.

Lemma steps_slots (fs : list model.Feed) (s : Store) (sched : list Tid)
    (g : State) :
  steps sched (init fs s) = Some g ->
  sem g = countPhase holdsSlot (tasks g) /\ (sem g <= semCap)%nat.
Proof.
  assert (Hgen : forall g0,
            sem g0 = countPhase holdsSlot (tasks g0) /\ (sem g0 <= semCap)%nat ->
            steps sched g0 = Some g ->
            sem g = countPhase holdsSlot (tasks g) /\ (sem g <= semCap)%nat).
  { induction sched as [|t sched IH]; intros g0 H0 H; cbn in H.
    - injection H as <-. exact H0.
    - destruct (step t g0) as [g1|] eqn:Ht; [|discriminate].
      exact (IH g1 (step_slots t g0 g1 H0 Ht) H). }
  apply Hgen. cbn. split; [reflexivity | unfold semCap; lia].
Qed.

(** C3.  In every state a sync can reach, for any working set and any
    interleaving, at most 50 fetches are in flight: the goroutines that
    have sent on [sem] and not yet received back from it are as many as
    the tokens in the channel, at most its capacity of 50, and a fetch is
    in flight only in such a goroutine.  A goroutine that has not yet got
    its slot takes one when fewer than 50 are held and is blocked when 50
    are held; the deferred receive gives the slot back. *)
Theorem C3_at_most_fifty_fetches (fs : list model.Feed) (s : Store)
    (sched : list Tid) (g : State)
    (Hrun : steps sched (init fs s) = Some g) :
  semCap = 50%nat /\
  (inFlight g <= 50)%nat /\
  (inFlight g <= slotsHeld g)%nat /\
  slotsHeld g = sem g /\
  (sem g <= semCap)%nat /\
  (forall i f, tasks g !! i = Some (f, Spawned) ->
     sem g = semCap -> step (Worker i) g = None) /\
  (forall i f, tasks g !! i = Some (f, Spawned) ->
     (sem g < semCap)%nat ->
     exists g', step (Worker i) g = Some g' /\
                tasks g' !! i = Some (f, Fetching) /\
                sem g' = S (sem g)) /\
  (forall i f, tasks g !! i = Some (f, Releasing) ->
     exists g', step (Worker i) g = Some g' /\
                tasks g' !! i = Some (f, Finishing) /\
                S (sem g') = sem g).
Proof.
  destruct (steps_slots fs s sched g Hrun) as [Hs Hc].
  assert (Hle : (inFlight g <= slotsHeld g)%nat).
  { apply countPhase_le. intros p. destruct p; cbn; congruence. }
  split; [reflexivity|].
  split; [unfold slotsHeld in Hle; unfold semCap in Hc; lia|].
  split; [|split; [|split; [|split; [|split]]]].
  - exact Hle.
  - unfold slotsHeld. symmetry. exact Hs.
  - exact Hc.
  - intros i f Hi Hfull. cbn. unfold stepWorker. rewrite Hi, Hfull.
    reflexivity.
  - intros i f Hi Hfree. cbn. unfold stepWorker. rewrite Hi.
    apply Nat.ltb_lt in Hfree. rewrite Hfree. eexists.
    split; [reflexivity|]. cbn. unfold setTask. split; [|reflexivity].
    apply list_lookup_insert_eq. eapply lookup_lt_Some. exact Hi.
  - intros i f Hi. cbn. unfold stepWorker. rewrite Hi. eexists.
    split; [reflexivity|]. cbn. unfold setTask. split.
    + apply list_lookup_insert_eq. eapply lookup_lt_Some. exact Hi.
    + pose proof (countPhase_pos holdsSlot _ _ _ _ Hi eq_refl). lia.
Qed.

(** *** The end of a run *)

(** When [wg.Wait()] has returned the loop has spawned every source,
    every goroutine has finished, and the report has the due entry of
    each source and no other entry. *)
Lemma Inv_final (fs : list model.Feed) (g : State) :
  Inv fs g -> returned g = true ->
  (tasks g).*1 = fs /\
  (forall i f p, tasks g !! i = Some (f, p) -> p = Done) /\
  (forall f, f ∈ fs -> exists r, results g !! model.URL f = Some r /\ due f r) /\
  (forall u, is_Some (results g !! u) <-> u ∈ model.URL <$> fs).
Proof.
  intros HI Hret.
  destruct HI as [Ifeeds Isem Icap Imu Iwg Icar Iunw Iwr Ipend Idom Itot Iret].
  destruct (Iret Hret) as [Hpend Hwg0]. rewrite Hpend, app_nil_r in Ifeeds.
  assert (Hdone : forall i f p, tasks g !! i = Some (f, p) -> p = Done).
  { intros i f p Hi. rewrite Hwg0 in Iwg. symmetry in Iwg.
    pose proof (proj1 (countPhase_zero live _) Iwg i f p Hi) as Hl.
    destruct p; try discriminate Hl; reflexivity. }
  assert (Hall : forall f, f ∈ fs ->
            exists r, results g !! model.URL f = Some r /\ due f r).
  { intros f Hf. rewrite <- Ifeeds in Hf.
    apply list_elem_of_fmap in Hf as ([f' p] & -> & Hfp).
    apply list_elem_of_lookup in Hfp as [i Hi].
    pose proof (Hdone _ _ _ Hi) as ->.
    exact (Iwr _ _ _ Hi eq_refl). }
  split; [exact Ifeeds|]. split; [exact Hdone|]. split; [exact Hall|].
  intros u. split.
  - intros Hu. destruct (Idom u Hu) as (f & Hf & <-).
    rewrite Ifeeds in Hf. apply list_elem_of_fmap. exists f.
    split; [reflexivity | exact Hf].
  - intros Hu. apply list_elem_of_fmap in Hu as (f & -> & Hf).
    destruct (Hall f Hf) as (r & Hr & _). exists r. exact Hr.
Qed.

(** An entry of the report, once written, stays as it is. *)
Lemma step_results_stable (fs : list model.Feed) (t : Tid) (g g' : State)
    (u : string) (entry : ResultEntry) :
  Inv fs g -> step t g = Some g' ->
  results g !! u = Some entry -> results g' !! u = Some entry.
Proof.
  intros HI H Hu. step_cases H; cbn [results]; try exact Hu.
  rewrite lookup_insert_ne; [exact Hu|].
  intros <-.
  rewrite (main.inv_unwritten _ _ _ _ HI _ _ _ Hi eq_refl) in Hu.
  discriminate.
Qed.

Lemma steps_results_stable (fs : list model.Feed) (sched : list Tid)
    (g g' : State) (u : string) (r : ResultEntry) :
  NoDup (model.URL <$> fs) -> Inv fs g -> steps sched g = Some g' ->
  results g !! u = Some r -> results g' !! u = Some r.
Proof.
  intros Hnd. revert g. induction sched as [|t sched IH]; intros g HI H Hu.
  - cbn in H. injection H as <-. exact Hu.
  - cbn in H. destruct (step t g) as [g1|] eqn:Ht; [|discriminate].
    apply (IH g1 (step_Inv fs t g g1 Hnd HI Ht) H).
    exact (step_results_stable fs t g g1 u r HI Ht Hu).
Qed.

(** *** No deadlock, and an end to every run *)

Lemma countPhase_zero_or (P : Phase -> bool) (ts : list (model.Feed * Phase)) :
  countPhase P ts = 0%nat \/
  exists i f p, ts !! i = Some (f, p) /\ P p = true.
Proof.
  induction ts as [|[f p] ts IH].
  - left. reflexivity.
  - destruct (P p) eqn:HP.
    + right. exists 0%nat, f, p. split; [reflexivity | exact HP].
    + destruct IH as [H0|(i & f' & p' & Hi & HP')].
      * left. unfold countPhase in *. cbn. rewrite HP. exact H0.
      * right. exists (S i), f', p'. split; assumption.
Qed.

(** A run that has not ended can go on: some goroutine is able to
    step. *)
Lemma progress (fs : list model.Feed) (g : State) :
  Inv fs g -> returned g = false -> exists t g', step t g = Some g'.
Proof.
  intros HI Hret.
  destruct (pending g) as [|f0 rest] eqn:Hpend.
  2:{ exists Main. cbn. unfold stepMain. rewrite Hpend. eexists. reflexivity. }
  destruct (countPhase_zero_or unblocked (tasks g))
    as [Hun|(i & f & p & Hi & Hp)].
  2:{ exists (Worker i). cbn. unfold stepWorker. rewrite Hi.
      destruct p as [| |es todo n|r|r| | | |]; try discriminate Hp.
      - destruct (Fetch (model.URL f)) as [[fd es]|msg]; eexists; reflexivity.
      - destruct todo as [|e todo]; [eexists; reflexivity|].
        destruct (SaveEntry _ (st g)) as [r s']. eexists. reflexivity.
      - eexists. reflexivity.
      - eexists. reflexivity.
      - eexists. reflexivity.
      - eexists. reflexivity. }
  pose proof (proj1 (countPhase_zero _ _) Hun) as Hblocked.
  destruct (countPhase_zero_or waitsLock (tasks g))
    as [Hnl|(i & f & p & Hi & Hp)].
  2:{ assert (Hfree : mu g = false).
      { pose proof (main.inv_mu _ _ _ _ HI) as Imu.
        assert (Hz : countPhase holdsMutex (tasks g) = 0%nat).
        { apply countPhase_zero. intros j f' q Hj.
          pose proof (Hblocked j f' q Hj). destruct q; try discriminate;
            reflexivity. }
        rewrite Hz in Imu. destruct (mu g); [discriminate | reflexivity]. }
      exists (Worker i). cbn. unfold stepWorker. rewrite Hi.
      destruct p; try discriminate Hp. rewrite Hfree.
      eexists. reflexivity. }
  pose proof (proj1 (countPhase_zero _ _) Hnl) as Hnolock.
  destruct (countPhase_zero_or waitsSlot (tasks g))
    as [Hns|(i & f & p & Hi & Hp)].
  2:{ assert (Hfree : (sem g <? semCap)%nat = true).
      { pose proof (main.inv_sem _ _ _ _ HI) as Isem.
        assert (Hz : countPhase holdsSlot (tasks g) = 0%nat).
        { apply countPhase_zero. intros j f' q Hj.
          pose proof (Hblocked j f' q Hj). pose proof (Hnolock j f' q Hj).
          destruct q; try discriminate; reflexivity. }
        rewrite Hz in Isem. rewrite Isem. reflexivity. }
      exists (Worker i). cbn. unfold stepWorker. rewrite Hi.
      destruct p; try discriminate Hp. rewrite Hfree.
      eexists. reflexivity. }
  pose proof (proj1 (countPhase_zero _ _) Hns) as Hnoslot.
  assert (Hwg : wg g = 0%nat).
  { rewrite (main.inv_wg _ _ _ _ HI). apply countPhase_zero.
    intros j f' q Hj.
    pose proof (Hblocked j f' q Hj). pose proof (Hnolock j f' q Hj).
    pose proof (Hnoslot j f' q Hj).
    destruct q; try discriminate; reflexivity. }
  exists Main. cbn. unfold stepMain. rewrite Hpend, Hret, Hwg.
  eexists. reflexivity.
Qed.

(** From every state of a run there is a way to its end. *)
Lemma completes (fs : list model.Feed) (n : nat) :
  NoDup (model.URL <$> fs) ->
  forall g, (measure g <= n)%nat -> Inv fs g ->
  exists sched g', steps sched g = Some g' /\ returned g' = true.
Proof.
  intros Hnd. induction n as [|n IH]; intros g Hm HI.
  - destruct (returned g) eqn:Hret.
    + exists [], g. split; [reflexivity | exact Hret].
    + unfold main.measure in Hm. rewrite Hret in Hm. lia.
  - destruct (returned g) eqn:Hret.
    + exists [], g. split; [reflexivity | exact Hret].
    + destruct (progress fs g HI Hret) as (t & g1 & Ht).
      pose proof (step_measure t g g1 Ht) as Hlt.
      destruct (IH g1 ltac:(lia) (step_Inv fs t g g1 Hnd HI Ht))
        as (sched & g' & Hs & Hr).
      exists (t :: sched), g'. split; [|exact Hr].
      cbn. rewrite Ht. exact Hs.
Qed.

(** The sync has complete runs, and no run is longer than the measure
    of its first state. *)
Lemma sync_terminates (fs : list model.Feed) (s : Store) :
  NoDup (model.URL <$> fs) ->
  (exists sched g, steps sched (init fs s) = Some g /\ returned g = true) /\
  (forall sched g, steps sched (init fs s) = Some g ->
     (length sched <= measure (init fs s))%nat).
Proof.
  intros Hnd. split.
  - exact (completes fs _ Hnd (init fs s) (le_n _) (Inv_init fs s)).
  - intros sched g H. pose proof (steps_measure sched _ g H). lia.
Qed.

(** *** The report *)

Local Abbreviation updateFeeds := (main.updateFeeds ParseURL Now).

(** A run of [updateFeeds] that returns a report went through a complete
    run of the goroutines over the working set. *)
Lemma updateFeeds_report (c : Context) (sched : list Tid)
    (disk disk' : Store) (rep : Report) :
  updateFeeds c sched disk = Some (Ok rep, disk') ->
  canOpen c = true /\ canWrite c = true /\
  exists fs s g,
    resolve c disk = (Ok fs, s) /\
    steps sched (init fs s) = Some g /\ returned g = true /\
    rep = reportOf fs g /\ disk' = st g.
Proof.
  unfold main.updateFeeds, getStore, outputJSON.
  destruct (canOpen c); [|discriminate].
  destruct (resolve c disk) as [[fs|failure] s]; [|discriminate].
  destruct (main.steps _ _ sched (init fs s)) as [g|] eqn:Hsteps;
    [|discriminate].
  destruct (returned g) eqn:Hret; [|discriminate].
  destruct (canWrite c); [|discriminate].
  intros H. injection H as <- <-.
  split; [reflexivity|]. split; [reflexivity|].
  exists fs, s, g. repeat split; assumption.
Qed.

(** C1.  Take a run of [updateFeeds] that returns a report, over a
    working set whose origin URLs are distinct.  The report counts the
    sources of the working set; its map has one entry for each of them,
    under the source's URL, and no other: the error of the fetch when the
    fetch failed, the pair of new and total entries, the total being the
    number of items fetched, when it succeeded.  An entry written at any
    point of the run is the entry of the final report, so the failure of
    one source leaves the entries of the others alone.  The grand total is
    the sum of the new entries over the entries that have counts. *)
Theorem C1_one_entry_per_source (c : Context) (sched : list Tid)
    (disk disk' : Store) (fs : list model.Feed) (s : Store) (rep : Report)
    (Hset : resolve c disk = (Ok fs, s))
    (Hdistinct : NoDup (model.URL <$> fs))
    (Hrun : updateFeeds c sched disk = Some (Ok rep, disk')) :
  updated_feeds rep = length fs /\
  dom (report_results rep) = list_to_set (model.URL <$> fs) /\
  size (report_results rep) = length fs /\
  (forall f msg, f ∈ fs -> Fetch (model.URL f) = Err msg ->
     report_results rep !! model.URL f = Some (ResError msg)) /\
  (forall f fd entries, f ∈ fs -> Fetch (model.URL f) = Ok (fd, entries) ->
     exists n, report_results rep !! model.URL f
               = Some (ResCounts n (length entries)) /\
               (n <= length entries)%nat) /\
  (forall before after g u entry,
     sched = before ++ after ->
     steps before (init fs s) = Some g ->
     results g !! u = Some entry ->
     report_results rep !! u = Some entry) /\
  total_new_entries rep = sumNew (report_results rep).
Proof.
  destruct (updateFeeds_report c sched disk disk' rep Hrun)
    as (_ & _ & fs' & s' & g & Hset' & Hsteps & Hret & -> & _).
  rewrite Hset in Hset'. injection Hset' as <- <-.
  pose proof (steps_Inv fs sched _ g Hdistinct (Inv_init fs s) Hsteps) as HI.
  destruct (Inv_final fs g HI Hret) as (Hfst & Hdone & Hall & Hdom).
  cbn [reportOf updated_feeds report_results total_new_entries].
  assert (Hd : dom (results g) = list_to_set (model.URL <$> fs)).
  { apply set_eq. intros u.
    rewrite elem_of_dom, elem_of_list_to_set. apply Hdom. }
  split; [reflexivity|]. split; [exact Hd|]. split.
  { rewrite <- size_dom, Hd, size_list_to_set by exact Hdistinct.
    apply length_fmap. }
  split; [|split; [|split]].
  - intros f msg Hf Hfetch. destruct (Hall f Hf) as (r & Hr & Hdue).
    unfold main.due in Hdue. rewrite Hfetch in Hdue. subst r. exact Hr.
  - intros f fd entries Hf Hfetch. destruct (Hall f Hf) as (r & Hr & Hdue).
    unfold main.due in Hdue. rewrite Hfetch in Hdue.
    destruct Hdue as (n & -> & Hn). exists n. split; assumption.
  - intros before after g1 u entry -> Hbefore Hu.
    rewrite steps_app, Hbefore in Hsteps.
    pose proof (steps_Inv fs before _ g1 Hdistinct (Inv_init fs s) Hbefore)
      as HI1.
    exact (steps_results_stable fs after g1 g u entry Hdistinct HI1 Hsteps Hu).
  - exact (main.inv_total _ _ _ _ HI).
Qed.

(** The working set the store hands out has distinct URLs: the
    hypothesis of C1 holds of every database the interface can build. *)
Lemma resolve_distinct (c : Context) (disk s : Store) (fs : list model.Feed) :
  wellFormed (db disk) -> resolve c disk = (Ok fs, s) ->
  NoDup (model.URL <$> fs).
Proof.
  intros Hwf. unfold resolve.
  destruct (0 <? feedIDFlag c).
  - destruct (GetFeed (feedIDFlag c) disk) as [[f|e] s']; [|discriminate].
    intros H. injection H as <- _. apply NoDup_singleton.
  - destruct (GetAllFeeds disk) as [[feeds|e] s'] eqn:Hget; [|discriminate].
    intros H. injection H as <- _.
    apply exec_Ok in Hget as (Hget & _).
    apply sqlGetAllFeeds_db in Hget as [_ ->].
    pose proof (wf_feed_urls _ Hwf) as Hurls.
    replace (model.URL <$> map feedOfRow (store.feeds (db disk)))
      with (map frow_url (store.feeds (db disk))); [exact Hurls|].
    induction (store.feeds (db disk)) as [|r rows IH]; cbn;
      [reflexivity | f_equal; apply IH].
    apply NoDup_cons_In in Hurls as [_ Hurls]. exact Hurls.
Qed.

(** *** Store errors during a sync *)

(** C2.  An item whose [SaveEntry] returns an error, be it the
    uniqueness constraint or any failure of the driver, adds nothing to
    the count of new items of its source, and the goroutine goes on with
    the remaining items; an item whose [SaveEntry] succeeds adds one.  The
    step touches neither the report nor the grand total.  At the end of a
    run a source whose fetch succeeded has its counts in the report,
    never an error, whatever the driver did.  [updateFeeds] itself fails
    only when the store cannot be opened, the working set cannot be read,
    or the report cannot be written. *)
Theorem C2_save_errors_absorbed :
  (forall g i f es e todo n,
     tasks g !! i = Some (f, Saving es (e :: todo) n) ->
     exists g',
       step (Worker i) g = Some g' /\
       st g' = (SaveEntry (model.withFeedID e (model.Feed_ID f)) (st g)).2 /\
       tasks g' !! i =
         Some (f, Saving es todo
                    (if is_ok (SaveEntry (model.withFeedID e (model.Feed_ID f))
                                         (st g)).1
                     then S n else n)) /\
       results g' = results g /\
       totalNewEntries g' = totalNewEntries g) /\
  (forall fs s sched g f fd es,
     NoDup (model.URL <$> fs) ->
     steps sched (init fs s) = Some g -> returned g = true ->
     f ∈ fs -> Fetch (model.URL f) = Ok (fd, es) ->
     exists n, results g !! model.URL f = Some (ResCounts n (length es)) /\
               (n <= length es)%nat) /\
  (forall c sched disk res disk',
     updateFeeds c sched disk = Some (res, disk') ->
     (exists rep, res = Ok rep) \/
     (canOpen c = false /\ res = Err (Exit OpenFailed ExitDataError)) \/
     (exists e s, resolve c disk = (Err (Exit (StoreFailed e) ExitDataError), s)
                  /\ res = Err (Exit (StoreFailed e) ExitDataError)) \/
     (canWrite c = false /\ res = Err WriteFailed)).
Proof.
  split; [|split].
  - intros g i f es e todo n Hi. cbn [main.step]. unfold stepWorker.
    rewrite Hi.
    destruct (SaveEntry (model.withFeedID e (model.Feed_ID f)) (st g))
      as [r s']. eexists. split; [reflexivity|].
    cbn [st tasks results totalNewEntries fst snd]. unfold setTask.
    split; [reflexivity|]. split; [|split; reflexivity].
    rewrite list_lookup_insert_eq by (eapply lookup_lt_Some; exact Hi).
    destruct r; reflexivity.
  - intros fs s sched g f fd es Hnd Hsteps Hret Hf Hfetch.
    pose proof (steps_Inv fs sched _ g Hnd (Inv_init fs s) Hsteps) as HI.
    destruct (Inv_final fs g HI Hret) as (_ & _ & Hall & _).
    destruct (Hall f Hf) as (r & Hr & Hdue).
    unfold main.due in Hdue. rewrite Hfetch in Hdue.
    destruct Hdue as (n & -> & Hn). exists n. split; assumption.
  - intros c sched disk res disk'.
    unfold main.updateFeeds, getStore, outputJSON.
    destruct (canOpen c).
    2:{ intros H. injection H as <- _. right. left. split; reflexivity. }
    destruct (resolve c disk) as [[fs|failure] s] eqn:Hres.
    2:{ intros H. injection H as <- _. right. right. left.
        unfold resolve in Hres.
        destruct (0 <? feedIDFlag c).
        - destruct (GetFeed _ disk) as [[f|e] s1]; [discriminate|].
          injection Hres as <- <-. exists e, s1. split; reflexivity.
        - destruct (GetAllFeeds disk) as [[l|e] s1]; [discriminate|].
          injection Hres as <- <-. exists e, s1. split; reflexivity. }
    destruct (main.steps _ _ sched (init fs s)) as [g|]; [|discriminate].
    destruct (returned g); [|discriminate].
    destruct (canWrite c); intros H; injection H as <- _.
    + left. eexists. reflexivity.
    + right. right. right. split; reflexivity.
Qed.

(** *** Repeating a sync *)

(** What the normalizer hands over has no store identifier yet. *)
Lemma Fetch_ID (url : string) (fd : model.Feed) (es : list model.Entry)
    (e : model.Entry) :
  Fetch url = Ok (fd, es) -> e ∈ es -> model.ID e = 0.
Proof.
  unfold feed.Fetch. destruct (ParseURL url) as [gf|cause]; [|discriminate].
  intros H He. injection H as _ <-. unfold feed.convert in He. cbn [snd] in He.
  apply elem_of_lookup_imap_1 in He as (k & item & -> & _). reflexivity.
Qed.

Lemma sqlSaveEntry_grows (e e' : model.Entry) (d d' : DB) :
  model.ID e = 0 -> sqlSaveEntry e d = Ok (e', d') ->
  store.feeds d' = store.feeds d /\
  entries d' = entries d ++ [rowOfEntry (entries_seq d + 1) e].
Proof.
  intros Hid. unfold sqlSaveEntry. rewrite Hid. cbn.
  destruct (keyTaken None _ _ _); [discriminate|].
  intros H. injection H as _ <-. split; reflexivity.
Qed.

(** Whatever the driver does, saving a fresh entry only ever appends to
    table [entries] and leaves table [feeds] alone. *)
Lemma SaveEntry_grows (e : model.Entry) (s : Store) :
  model.ID e = 0 ->
  store.feeds (db (SaveEntry e s).2) = store.feeds (db s) /\
  exists l, entries (db (SaveEntry e s).2) = entries (db s) ++ l.
Proof.
  intros Hid. unfold SaveEntry.
  destruct (exec_db (sqlSaveEntry e) s) as [->|[e' H]].
  - split; [reflexivity|]. exists []. rewrite app_nil_r. reflexivity.
  - destruct (sqlSaveEntry_grows e e' _ _ Hid H) as [Hf Hr].
    split; [exact Hf|]. eexists. exact Hr.
Qed.

(** With a driver that does not fail, the key of the entry is in the
    table afterwards: it was there, or the entry went in. *)
Lemma SaveEntry_quiet (e : model.Entry) (s : Store) :
  model.ID e = 0 -> head (driver s) <> Some true ->
  keyTaken None (model.FeedID e) (model.GUID e)
           (entries (db (SaveEntry e s).2)) = true /\
  driver (SaveEntry e s).2 = tail (driver s).
Proof.
  intros Hid Hq. unfold SaveEntry. rewrite (exec_quiet _ _ Hq).
  destruct (keyTaken None (model.FeedID e) (model.GUID e) (entries (db s)))
    eqn:Htaken.
  - rewrite (sqlSaveEntry_duplicate e (db s) Hid Htaken). cbn.
    split; [exact Htaken | reflexivity].
  - rewrite (sqlSaveEntry_insert e (db s) Hid Htaken). cbn [snd db entries].
    split; [|reflexivity].
    rewrite keyTaken_app. cbn.
    rewrite Z.eqb_refl, String.eqb_refl. apply orb_true_r.
Qed.

(** An entry whose key is in the table is refused, whatever the driver
    does, and the database stays as it is. *)
Lemma SaveEntry_taken (e : model.Entry) (s : Store) :
  model.ID e = 0 ->
  keyTaken None (model.FeedID e) (model.GUID e) (entries (db s)) = true ->
  is_ok (SaveEntry e s).1 = false /\ db (SaveEntry e s).2 = db s.
Proof.
  intros Hid Htaken. unfold SaveEntry, exec.
  rewrite (sqlSaveEntry_duplicate e (db s) Hid Htaken).
  destruct (driver s) as [|[|] script]; cbn; split; reflexivity.
Qed.

Lemma task_in_set (fs : list model.Feed) (g : State) (i : nat)
    (f : model.Feed) (p : Phase) :
  Inv fs g -> tasks g !! i = Some (f, p) -> f ∈ fs.
Proof.
  intros HI Hi. rewrite <- (main.inv_feeds _ _ _ _ HI).
  apply elem_of_app. left. apply list_elem_of_fmap.
  exists (f, p). split; [reflexivity|].
  eapply list_elem_of_lookup_2. exact Hi.
Qed.

(** No step of a sync touches table [feeds]. *)
Lemma step_feeds_table (fs : list model.Feed) (t : Tid) (g g' : State) :
  Inv fs g -> step t g = Some g' ->
  store.feeds (db (st g')) = store.feeds (db (st g)).
Proof.
  intros HI H. step_cases H; cbn [st]; try reflexivity.
  pose proof (main.inv_carries _ _ _ _ HI _ _ _ Hi)
    as ([fd Hfd] & _ & gone & Hgone).
  assert (Hid : model.ID (model.withFeedID e (model.Feed_ID f)) = 0).
  { cbn. apply (Fetch_ID _ _ _ e Hfd). rewrite Hgone.
    apply elem_of_app. right. left. }
  pose proof (SaveEntry_grows _ (st g) Hid) as [Hf _].
  rewrite Hsave in Hf. exact Hf.
Qed.

Lemma steps_feeds_table (fs : list model.Feed) (sched : list Tid)
    (g g' : State) :
  NoDup (model.URL <$> fs) -> Inv fs g -> steps sched g = Some g' ->
  store.feeds (db (st g')) = store.feeds (db (st g)).
Proof.
  intros Hnd. revert g. induction sched as [|t sched IH]; intros g HI H.
  - cbn in H. injection H as <-. reflexivity.
  - cbn in H. destruct (step t g) as [g1|] eqn:Ht; [|discriminate].
    rewrite (IH g1 (step_Inv fs t g g1 Hnd HI Ht) H).
    exact (step_feeds_table fs t g g1 HI Ht).
Qed.

Local Abbreviation saved := (main.saved ParseURL Now).
Local Abbreviation quiet := store.quiet.
Local Abbreviation persisted := (main.persisted ParseURL Now).

Lemma saved_grows (d d' : DB) (l : list EntryRow) (f : model.Feed)
    (p : Phase) :
  entries d' = entries d ++ l -> saved d f p -> saved d' f p.
Proof.
  intros Hd. unfold main.saved.
  destruct p; try exact (fun H => H); rewrite Hd.
  - intros H gone e0 Hg He. rewrite keyTaken_app, (H gone e0 Hg He).
    reflexivity.
  - intros H fd entries e0 Hf He. rewrite keyTaken_app, (H fd entries e0 Hf He).
    reflexivity.
  - intros H fd entries e0 Hf He. rewrite keyTaken_app, (H fd entries e0 Hf He).
    reflexivity.
  - intros H fd entries e0 Hf He. rewrite keyTaken_app, (H fd entries e0 Hf He).
    reflexivity.
  - intros H fd entries e0 Hf He. rewrite keyTaken_app, (H fd entries e0 Hf He).
    reflexivity.
  - intros H fd entries e0 Hf He. rewrite keyTaken_app, (H fd entries e0 Hf He).
    reflexivity.
  - intros H fd entries e0 Hf He. rewrite keyTaken_app, (H fd entries e0 Hf He).
    reflexivity.
Qed.

Lemma quiet_head (s : Store) : quiet s -> head (driver s) <> Some true.
Proof.
  unfold quiet. destruct (driver s) as [|b script]; cbn; [discriminate|].
  intros H. apply Forall_cons in H as [-> _]. discriminate.
Qed.

Lemma quiet_tail (s s' : Store) :
  quiet s -> driver s' = tail (driver s) -> quiet s'.
Proof.
  unfold quiet. intros H ->. destruct (driver s) as [|b script]; cbn;
    [constructor|]. apply Forall_cons in H as [_ H]. exact H.
Qed.

Lemma worker_saved (ts : list (model.Feed * Phase)) (d d' : DB) (i : nat)
    (f : model.Feed) (p' : Phase) (l : list EntryRow) :
  (forall j f' q, ts !! j = Some (f', q) -> saved d f' q) ->
  entries d' = entries d ++ l ->
  saved d' f p' ->
  forall j f' q, <[i:=(f, p')]> ts !! j = Some (f', q) -> saved d' f' q.
Proof.
  intros Hold Hrows Hnew j f' q Hj.
  destruct (lookup_insert_cases _ _ _ _ _ Hj) as [[-> Heq]|[_ Hj']].
  - injection Heq as -> ->. exact Hnew.
  - exact (saved_grows _ _ l _ _ Hrows (Hold _ _ _ Hj')).
Qed.

(** During a sync behind a driver that does not fail, every item a
    goroutine has gone through is in the store. *)
Lemma step_saved (fs : list model.Feed) (t : Tid) (g g' : State) :
  Inv fs g -> quiet (st g) ->
  (forall j f' q, tasks g !! j = Some (f', q) -> saved (db (st g)) f' q) ->
  step t g = Some g' ->
  quiet (st g') /\
  (forall j f' q, tasks g' !! j = Some (f', q) -> saved (db (st g')) f' q).
Proof.
  intros HI Hq Hold H.
  assert (Hnil : forall d : DB, entries d = entries d ++ [])
    by (intros; rewrite app_nil_r; reflexivity).
  step_cases H; cbn [st tasks]; unfold setTask.
  - split; assumption.
  - split; [exact Hq|]. intros j f' q Hj.
    apply lookup_snoc_Some in Hj as [[_ Hj]|[_ Heq]].
    + exact (Hold _ _ _ Hj).
    + injection Heq as <- <-. exact I.
  - split; [exact Hq|].
    apply (worker_saved _ _ _ i f Fetching [] Hold (Hnil _)).
    exact I.
  - split; [exact Hq|].
    apply (worker_saved _ _ _ i f (Saving es es 0) [] Hold (Hnil _)).
    intros gone e0 Hg He. exfalso.
    assert (Hlen : length es = (length gone + length es)%nat)
      by (rewrite Hg at 1; apply length_app).
    destruct gone; [inversion He | cbn in Hlen; lia].
  - split; [exact Hq|].
    apply (worker_saved _ _ _ i f (Locking (ResError msg)) [] Hold (Hnil _)).
    intros fd entries e0 Hf. rewrite Hfetch in Hf. discriminate.
  - split; [exact Hq|].
    pose proof (main.inv_carries _ _ _ _ HI _ _ _ Hi) as ([fd Hfd] & _ & _).
    apply (worker_saved _ _ _ i f (Locking (ResCounts n (length es))) []
             Hold (Hnil _)).
    intros fd' entries e0 Hf He. rewrite Hfd in Hf. injection Hf as _ <-.
    apply (Hold _ _ _ Hi es e0); [rewrite app_nil_r; reflexivity | exact He].
  - pose proof (main.inv_carries _ _ _ _ HI _ _ _ Hi)
      as ([fd Hfd] & _ & gone & Hgone).
    assert (Hid : model.ID (model.withFeedID e (model.Feed_ID f)) = 0).
    { cbn. apply (Fetch_ID _ _ _ e Hfd). rewrite Hgone.
      apply elem_of_app. right. left. }
    pose proof (SaveEntry_quiet _ (st g) Hid (quiet_head _ Hq)) as [Hkey Hdrv].
    pose proof (SaveEntry_grows _ (st g) Hid) as [_ [l Hl]].
    rewrite Hsave in Hkey, Hdrv, Hl. cbn [snd] in Hkey, Hdrv, Hl.
    split; [exact (quiet_tail _ _ Hq Hdrv)|].
    apply (worker_saved _ _ _ i f
             (Saving es todo (match r with Err _ => n | Ok _ => S n end))
             l Hold Hl).
    intros gone' e0 Hg He.
    assert (Hgone' : gone' = gone ++ [e]).
    { rewrite Hg in Hgone. change (e :: todo) with ([e] ++ todo) in Hgone.
      rewrite app_assoc in Hgone. exact (app_inv_tail _ _ _ Hgone). }
    rewrite Hgone' in He. apply elem_of_app in He as [He|He].
    + rewrite Hl, keyTaken_app.
      rewrite (Hold _ _ _ Hi gone e0 Hgone He). reflexivity.
    + apply list_elem_of_singleton in He. subst e0. exact Hkey.
  - split; [exact Hq|].
    apply (worker_saved _ _ _ i f (Writing r) [] Hold (Hnil _)).
    exact (Hold _ _ _ Hi).
  - split; [exact Hq|].
    apply (worker_saved _ _ _ i f Unlocking [] Hold (Hnil _)).
    exact (Hold _ _ _ Hi).
  - split; [exact Hq|].
    apply (worker_saved _ _ _ i f Releasing [] Hold (Hnil _)).
    exact (Hold _ _ _ Hi).
  - split; [exact Hq|].
    apply (worker_saved _ _ _ i f Finishing [] Hold (Hnil _)).
    exact (Hold _ _ _ Hi).
  - split; [exact Hq|].
    apply (worker_saved _ _ _ i f Done [] Hold (Hnil _)).
    exact (Hold _ _ _ Hi).
Qed.

(** After a complete sync behind a driver that does not fail, every
    item of the working set is in the store. *)
Lemma sync_persists (fs : list model.Feed) (s : Store) (sched : list Tid)
    (g : State) :
  NoDup (model.URL <$> fs) -> quiet s ->
  steps sched (init fs s) = Some g -> returned g = true ->
  persisted fs (db (st g)).
Proof.
  intros Hnd Hq Hsteps Hret.
  assert (Hgen : forall g0, Inv fs g0 -> quiet (st g0) ->
            (forall j f' q, tasks g0 !! j = Some (f', q) ->
                            saved (db (st g0)) f' q) ->
            steps sched g0 = Some g ->
            forall j f' q, tasks g !! j = Some (f', q) ->
                           saved (db (st g)) f' q).
  { clear Hsteps. induction sched as [|t sched IH]; intros g0 HI0 Hq0 H0 H;
      cbn in H.
    - injection H as <-. exact H0.
    - destruct (step t g0) as [g1|] eqn:Ht; [|discriminate].
      destruct (step_saved fs t g0 g1 HI0 Hq0 H0 Ht) as [Hq1 H1].
      exact (IH g1 (step_Inv fs t g0 g1 Hnd HI0 Ht) Hq1 H1 H). }
  assert (Hsaved : forall j f' q, tasks g !! j = Some (f', q) ->
                                  saved (db (st g)) f' q).
  { apply (Hgen (init fs s) (Inv_init fs s) Hq); [|exact Hsteps].
    intros j f' q Hj. discriminate Hj. }
  pose proof (steps_Inv fs sched _ g Hnd (Inv_init fs s) Hsteps) as HI.
  destruct (Inv_final fs g HI Hret) as (Hfst & Hdone & _ & _).
  intros f fd entries e Hf Hfetch He. rewrite <- Hfst in Hf.
  apply list_elem_of_fmap in Hf as ([f' p] & -> & Hfp).
  apply list_elem_of_lookup in Hfp as [i Hi].
  pose proof (Hdone _ _ _ Hi) as ->.
  exact (Hsaved _ _ _ Hi fd entries e Hfetch He).
Qed.

Lemma sumNew_zero (m : gmap string ResultEntry) :
  (forall u r, m !! u = Some r -> newOf r = 0%nat) -> sumNew m = 0%nat.
Proof.
  induction m as [|u r m Hu IH] using map_ind.
  - intros _. exact sumNew_empty.
  - intros H. rewrite (sumNew_insert _ _ _ Hu).
    rewrite (H u r) by apply lookup_insert_eq.
    apply IH. intros u' r' Hu'. apply (H u' r').
    rewrite lookup_insert_ne; [exact Hu'|]. intros ->. congruence.
Qed.

(** During a sync over a store that has every item of the working set,
    the database does not change and nothing is counted as new. *)
Lemma step_nothingNew (fs : list model.Feed) (d0 : DB) (t : Tid)
    (g g' : State) :
  Inv fs g -> persisted fs d0 -> db (st g) = d0 ->
  (forall j f' q, tasks g !! j = Some (f', q) -> nothingNew q) ->
  (forall u v, results g !! u = Some v -> newOf v = 0%nat) ->
  step t g = Some g' ->
  db (st g') = d0 /\
  (forall j f' q, tasks g' !! j = Some (f', q) -> nothingNew q) /\
  (forall u v, results g' !! u = Some v -> newOf v = 0%nat).
Proof.
  intros HI Hper Hdb Hold Hres H.
  assert (Hmove : forall i f p',
            nothingNew p' ->
            forall j f' q, <[i:=(f, p')]> (tasks g) !! j = Some (f', q) ->
                           nothingNew q).
  { intros i f p' Hp' j f' q Hj.
    destruct (lookup_insert_cases _ _ _ _ _ Hj) as [[-> Heq]|[_ Hj']].
    - injection Heq as -> ->. exact Hp'.
    - exact (Hold _ _ _ Hj'). }
  step_cases H; cbn [st tasks results]; unfold setTask;
    try (split; [exact Hdb|]; split; [|exact Hres]).
  - exact Hold.
  - intros j f' q Hj. apply lookup_snoc_Some in Hj as [[_ Hj]|[_ Heq]].
    + exact (Hold _ _ _ Hj).
    + injection Heq as <- <-. exact I.
  - apply Hmove. exact I.
  - apply Hmove. reflexivity.
  - apply Hmove. reflexivity.
  - apply Hmove. exact (Hold _ _ _ Hi).
  - pose proof (main.inv_carries _ _ _ _ HI _ _ _ Hi)
      as ([fd Hfd] & _ & gone & Hgone).
    assert (He : e ∈ es).
    { rewrite Hgone. apply elem_of_app. right. left. }
    assert (Hid : model.ID (model.withFeedID e (model.Feed_ID f)) = 0).
    { cbn. exact (Fetch_ID _ _ _ e Hfd He). }
    pose proof (Hper f fd es e (task_in_set fs g i f _ HI Hi) Hfd He) as Hkey.
    rewrite <- Hdb in Hkey.
    pose proof (SaveEntry_taken _ (st g) Hid Hkey) as [Hfail Hsame].
    rewrite Hsave in Hfail, Hsame. cbn [fst snd] in Hfail, Hsame.
    split; [rewrite Hsame; exact Hdb|]. split; [|exact Hres].
    apply Hmove. destruct r; [discriminate Hfail|]. exact (Hold _ _ _ Hi).
  - apply Hmove. exact (Hold _ _ _ Hi).
  - split; [exact Hdb|]. split; [apply Hmove; exact I|].
    intros u v Hu. destruct (decide (model.URL f = u)) as [<-|Hne].
    + rewrite lookup_insert_eq in Hu. injection Hu as <-.
      exact (Hold _ _ _ Hi).
    + rewrite lookup_insert_ne in Hu by exact Hne. exact (Hres _ _ Hu).
  - apply Hmove. exact I.
  - apply Hmove. exact I.
  - apply Hmove. exact I.
Qed.

Lemma sync_nothingNew (fs : list model.Feed) (s : Store) (sched : list Tid)
    (g : State) :
  NoDup (model.URL <$> fs) -> persisted fs (db s) ->
  steps sched (init fs s) = Some g ->
  db (st g) = db s /\
  (forall u v, results g !! u = Some v -> newOf v = 0%nat) /\
  totalNewEntries g = 0%nat.
Proof.
  intros Hnd Hper Hsteps.
  assert (Hgen : forall g0, Inv fs g0 -> db (st g0) = db s ->
            (forall j f' q, tasks g0 !! j = Some (f', q) -> nothingNew q) ->
            (forall u v, results g0 !! u = Some v -> newOf v = 0%nat) ->
            steps sched g0 = Some g ->
            db (st g) = db s /\
            (forall u v, results g !! u = Some v -> newOf v = 0%nat)).
  { clear Hsteps. induction sched as [|t sched IH];
      intros g0 HI0 Hdb0 Ht0 Hr0 H; cbn in H.
    - injection H as <-. split; assumption.
    - destruct (step t g0) as [g1|] eqn:Ht; [|discriminate].
      destruct (step_nothingNew fs (db s) t g0 g1 HI0 Hper Hdb0 Ht0 Hr0 Ht)
        as (Hdb1 & Ht1 & Hr1).
      exact (IH g1 (step_Inv fs t g0 g1 Hnd HI0 Ht) Hdb1 Ht1 Hr1 H). }
  destruct (Hgen (init fs s) (Inv_init fs s) eq_refl) as [Hdb Hres].
  - intros j f' q Hj. discriminate Hj.
  - intros u v Hu. cbn in Hu. rewrite lookup_empty in Hu. discriminate.
  - exact Hsteps.
  - split; [exact Hdb|]. split; [exact Hres|].
    pose proof (steps_Inv fs sched _ g Hnd (Inv_init fs s) Hsteps) as HI.
    rewrite (main.inv_total _ _ _ _ HI). apply sumNew_zero. exact Hres.
Qed.

(** The working set depends on table [feeds] only. *)
Lemma resolve_again (c : Context) (disk disk2 s s2 : Store)
    (fs fs2 : list model.Feed) :
  resolve c disk = (Ok fs, s) -> resolve c disk2 = (Ok fs2, s2) ->
  store.feeds (db disk2) = store.feeds (db disk) ->
  fs2 = fs /\ db s = db disk /\ db s2 = db disk2 /\
  driver s = tail (driver disk).
Proof.
  unfold resolve. intros H1 H2 Hfeeds.
  destruct (0 <? feedIDFlag c).
  - destruct (GetFeed _ disk) as [[f|e] s1] eqn:G1; [|discriminate].
    destruct (GetFeed _ disk2) as [[f2|e] s1'] eqn:G2; [|discriminate].
    injection H1 as <- <-. injection H2 as <- <-.
    apply exec_Ok in G1 as (G1 & D1 & _). apply exec_Ok in G2 as (G2 & D2 & _).
    pose proof (sqlGetFeed_db _ _ _ _ G1) as E1.
    pose proof (sqlGetFeed_db _ _ _ _ G2) as E2.
    unfold sqlGetFeed in G1, G2. rewrite Hfeeds in G2.
    destruct (find _ (store.feeds (db disk))); [|discriminate].
    injection G1 as <- _. injection G2 as <- _.
    repeat split; assumption.
  - destruct (GetAllFeeds disk) as [[l|e] s1] eqn:G1; [|discriminate].
    destruct (GetAllFeeds disk2) as [[l2|e] s1'] eqn:G2; [|discriminate].
    injection H1 as <- <-. injection H2 as <- <-.
    apply exec_Ok in G1 as (G1 & D1 & _). apply exec_Ok in G2 as (G2 & D2 & _).
    apply sqlGetAllFeeds_db in G1 as [E1 ->].
    apply sqlGetAllFeeds_db in G2 as [E2 ->].
    rewrite Hfeeds. repeat split; assumption.
Qed.


(** [updateFeeds] completes: on a database built through the store's
    interface some schedule takes it to its end. *)
Lemma updateFeeds_completes (c : Context) (disk : Store) :
  reachable (db disk) ->
  exists sched res disk', updateFeeds c sched disk = Some (res, disk').
Proof.
  intros Hreach. unfold main.updateFeeds, getStore.
  destruct (canOpen c); [|exists []; eexists _, _; reflexivity].
  destruct (resolve c disk) as [[fs|failure] s] eqn:Hset;
    [|exists []; eexists _, _; reflexivity].
  pose proof (resolve_distinct c disk s fs (reachable_wellFormed _ Hreach) Hset)
    as Hnd.
  destruct (proj1 (sync_terminates fs s Hnd)) as (sched & g & Hsteps & Hret).
  exists sched. rewrite Hsteps, Hret. eexists _, _. reflexivity.
Qed.

End SyncFacts.

(** ** The theorems on sample runs *)

Section SampleRuns.

Import store main.

Local Abbreviation sampleSteps := (main.steps sampleParseURL sampleNow).
Local Abbreviation sampleStep := (main.step sampleParseURL sampleNow).
Local Abbreviation sampleSync :=
  (main.updateFeeds sampleParseURL sampleNow sampleContext).

Lemma sampleSyncDB_reachable : reachable sampleSyncDB.
Proof. unfold reachable, sampleSyncDB. eexists _, _. reflexivity. Qed.

(** C1 on the three sample sources, interleaved, the second of which
    fails to fetch, behind a driver that fails one insert. *)
Lemma C1_one_entry_per_source_witness :
  resolve sampleContext (mkStore sampleSyncDB [false; false; true]) =
    (Ok (sampleFeeds 3), mkStore sampleSyncDB [false; true]) /\
  NoDup (model.URL <$> sampleFeeds 3) /\
  exists rep disk',
    sampleSync mixedSchedule (mkStore sampleSyncDB [false; false; true])
      = Some (Ok rep, disk') /\
    updated_feeds rep = length (sampleFeeds 3) /\
    size (report_results rep) = length (sampleFeeds 3) /\
    total_new_entries rep = sumNew (report_results rep).
Proof.
  assert (Hset : resolve sampleContext
                   (mkStore sampleSyncDB [false; false; true]) =
                 (Ok (sampleFeeds 3), mkStore sampleSyncDB [false; true])).
  { vm_compute. reflexivity. }
  assert (Hnd : NoDup (model.URL <$> sampleFeeds 3)).
  { exact (resolve_distinct sampleContext
             (mkStore sampleSyncDB [false; false; true]) _ _
             (reachable_wellFormed sampleSyncDB sampleSyncDB_reachable)
             Hset). }
  split; [exact Hset|]. split; [exact Hnd|].
  destruct (sampleSync mixedSchedule
              (mkStore sampleSyncDB [false; false; true]))
    as [[[rep|failure] disk']|] eqn:Hrun.
  - exists rep, disk'. split; [reflexivity|].
    pose proof (C1_one_entry_per_source sampleParseURL sampleNow sampleContext
                  mixedSchedule _ disk' (sampleFeeds 3) _ rep Hset Hnd Hrun)
      as (Hn & _ & Hsize & _ & _ & _ & Htotal).
    split; [exact Hn|]. split; [exact Hsize | exact Htotal].
  - vm_compute in Hrun. discriminate Hrun.
  - vm_compute in Hrun. discriminate Hrun.
Defined.

(** The same run, evaluated: two sources report counts, one its error,
    and the grand total is the sum of the two counts. *)
Lemma sample_sync_report :
  exists rep disk',
    sampleSync mixedSchedule (mkStore sampleSyncDB [false; false; true])
      = Some (Ok rep, disk') /\
    report_results rep !! "u" = Some (ResCounts 1 3) /\
    report_results rep !! "ux"
      = Some (ResError "failed to fetch feed from ux: timeout") /\
    report_results rep !! "uxx" = Some (ResCounts 1 1) /\
    total_new_entries rep = 2%nat /\ updated_feeds rep = 3%nat.
Proof.
  eexists _, _. split; [vm_compute; reflexivity|].
  repeat split; vm_compute; reflexivity.
Qed.

(** C2 on the sample sources one after the other: of the three items of
    the first source one is a duplicate and one meets a failure of the
    driver, and the source reports counts. *)
Lemma C2_save_errors_absorbed_witness :
  NoDup (model.URL <$> sampleFeeds 3) /\
  sampleFeed 0 ∈ sampleFeeds 3 /\
  exists g fd es,
    sampleSteps serialSchedule
      (init (sampleFeeds 3) (mkStore sampleSyncDB [false; true])) = Some g /\
    returned g = true /\
    feed.Fetch sampleParseURL sampleNow (model.URL (sampleFeed 0))
      = Ok (fd, es) /\
    exists n, results g !! model.URL (sampleFeed 0)
              = Some (ResCounts n (length es)) /\ (n <= length es)%nat.
Proof.
  assert (Hnd : NoDup (model.URL <$> sampleFeeds 3)).
  { apply (resolve_distinct sampleContext (mkStore sampleSyncDB [])
             (mkStore sampleSyncDB []) (sampleFeeds 3)
             (reachable_wellFormed sampleSyncDB sampleSyncDB_reachable)).
    vm_compute. reflexivity. }
  assert (Hin : sampleFeed 0 ∈ sampleFeeds 3) by (left).
  split; [exact Hnd|]. split; [exact Hin|].
  destruct (sampleSteps serialSchedule
              (init (sampleFeeds 3) (mkStore sampleSyncDB [false; true])))
    as [g|] eqn:Hrun; [|vm_compute in Hrun; discriminate Hrun].
  destruct (feed.Fetch sampleParseURL sampleNow (model.URL (sampleFeed 0)))
    as [[fd es]|msg] eqn:Hfetch; [|vm_compute in Hfetch; discriminate Hfetch].
  assert (Hret : returned g = true).
  { vm_compute in Hrun. injection Hrun as <-. reflexivity. }
  exists g, fd, es. split; [reflexivity|]. split; [exact Hret|].
  split; [reflexivity|].
  exact (proj1 (proj2 (C2_save_errors_absorbed sampleParseURL sampleNow))
           (sampleFeeds 3) _ serialSchedule g (sampleFeed 0) fd es
           Hnd Hrun Hret Hin Hfetch).
Defined.

(** The same run, evaluated: one new entry out of three. *)
Lemma sample_save_errors :
  exists g,
    sampleSteps serialSchedule
      (init (sampleFeeds 3) (mkStore sampleSyncDB [false; true])) = Some g /\
    results g !! "u" = Some (ResCounts 1 3) /\
    length (entries (db (st g))) = 3%nat.
Proof.
  eexists. split; [vm_compute; reflexivity|].
  split; vm_compute; reflexivity.
Qed.

(** C3 on a state of the sample run with fetches in flight. *)
Lemma C3_at_most_fifty_fetches_witness :
  exists g,
    sampleSteps [Main; Main; Worker 0; Worker 1; Main; Worker 0]
      (init (sampleFeeds 3) (mkStore sampleSyncDB [])) = Some g /\
    (inFlight g <= slotsHeld g)%nat /\ slotsHeld g = sem g /\
    (sem g <= semCap)%nat.
Proof.
  destruct (sampleSteps [Main; Main; Worker 0; Worker 1; Main; Worker 0]
              (init (sampleFeeds 3) (mkStore sampleSyncDB [])))
    as [g|] eqn:Hrun; [|vm_compute in Hrun; discriminate Hrun].
  exists g. split; [reflexivity|].
  pose proof (C3_at_most_fifty_fetches sampleParseURL sampleNow
                (sampleFeeds 3) _ _ g Hrun)
    as (_ & _ & Hin & Hheld & Hcap & _).
  split; [exact Hin|]. split; [exact Hheld | exact Hcap].
Defined.

(** Fifty-one sources: once fifty goroutines hold a slot, fifty fetches
    are in flight and the fifty-first goroutine cannot step. *)
Lemma gate_blocks_the_51st :
  exists g,
    sampleSteps (replicate 51 Main ++ map Worker (seq 0 50))
      (init (sampleFeeds 51) (mkStore emptyDB [])) = Some g /\
    sem g = 50%nat /\ inFlight g = 50%nat /\
    tasks g !! 50%nat = Some (sampleFeed 50, Spawned) /\
    sampleStep (Worker 50) g = None.
Proof.
  eexists. split; [vm_compute; reflexivity|].
  repeat split; vm_compute; reflexivity.
Qed.


(** The two syncs, evaluated: the first stores two new items of u and
    one of uxx, the second stores none and reports the same totals. *)
Lemma sample_sync_twice :
  exists rep1 disk1 rep2 disk2,
    sampleSync mixedSchedule (mkStore sampleSyncDB []) = Some (Ok rep1, disk1) /\
    sampleSync serialSchedule disk1 = Some (Ok rep2, disk2) /\
    report_results rep1 !! "u" = Some (ResCounts 2 3) /\
    report_results rep2 !! "u" = Some (ResCounts 0 3) /\
    report_results rep1 !! "uxx" = Some (ResCounts 1 1) /\
    report_results rep2 !! "uxx" = Some (ResCounts 0 1) /\
    total_new_entries rep1 = 3%nat /\ total_new_entries rep2 = 0%nat /\
    length (entries (db disk1)) = 4%nat /\
    length (entries (db disk2)) = 4%nat.
Proof.
  eexists _, _, _, _. split; [vm_compute; reflexivity|].
  split; [vm_compute; reflexivity|].
  repeat split; vm_compute; reflexivity.
Qed.

End SampleRuns.

(** ** The store: keys, round trips and listings *)

Section StoreKeys.

Import store.

Lemma positiveKeys_empty : positiveKeys emptyDB.
Proof. split; cbn; first [lia | constructor]. Qed.

Lemma Forall_replace {A : Type} (P : A -> Prop) (hit : A -> bool) (x : A)
    (l : list A) :
  Forall P l -> (forall r, r ∈ l -> hit r = true -> P x) ->
  Forall P (map (fun r => if hit r then x else r) l).
Proof.
  intros Hl Hx. rewrite Forall_forall in *. intros r Hr.
  apply list_elem_of_In, in_map_iff in Hr as (r0 & <- & Hr0).
  apply list_elem_of_In in Hr0.
  destruct (hit r0) eqn:Hhit; [exact (Hx r0 Hr0 Hhit) | exact (Hl r0 Hr0)].
Qed.

Lemma sqlSaveFeed_positive (f f' : model.Feed) (d d' : DB) :
  positiveKeys d -> sqlSaveFeed f d = Ok (f', d') -> positiveKeys d'.
Proof.
  intros [Hfs Hes Hf He]. unfold sqlSaveFeed.
  destruct (model.Feed_ID f =? 0).
  - destruct (urlTaken None _ _); [discriminate|].
    intros H. injection H as _ <-. split; cbn; try assumption; [lia|].
    apply Forall_app. split; [exact Hf|].
    constructor; [cbn; lia | constructor].
  - destruct (existsb _ _); [|intros H; injection H as _ <-; split; assumption].
    destruct (urlTaken (Some _) _ _); [discriminate|].
    intros H. injection H as _ <-. split; cbn; try assumption.
    apply Forall_replace; [exact Hf|]. intros r Hr Hhit. cbn.
    apply Z.eqb_eq in Hhit. rewrite <- Hhit.
    rewrite Forall_forall in Hf. exact (Hf r Hr).
Qed.

Lemma sqlSaveEntry_positive (e e' : model.Entry) (d d' : DB) :
  positiveKeys d -> sqlSaveEntry e d = Ok (e', d') -> positiveKeys d'.
Proof.
  intros [Hfs Hes Hf He]. unfold sqlSaveEntry.
  destruct (model.ID e =? 0).
  - destruct (keyTaken None _ _ _); [discriminate|].
    intros H. injection H as _ <-. split; cbn; try assumption; [lia|].
    apply Forall_app. split; [exact He|].
    constructor; [cbn; lia | constructor].
  - destruct (hasEntry _ _); [|intros H; injection H as _ <-; split; assumption].
    destruct (keyTaken (Some _) _ _ _); [discriminate|].
    intros H. injection H as _ <-. split; cbn; try assumption.
    apply Forall_replace; [exact He|]. intros r Hr Hhit. cbn.
    apply Z.eqb_eq in Hhit. rewrite <- Hhit.
    rewrite Forall_forall in He. exact (He r Hr).
Qed.

Lemma sqlMarkEntryRead_positive (id : Z) (isRead : bool) (d d' : DB)
    (u : unit) :
  positiveKeys d -> sqlMarkEntryRead id isRead d = Ok (u, d') ->
  positiveKeys d'.
Proof.
  intros [Hfs Hes Hf He]. unfold sqlMarkEntryRead. destruct u.
  intros H. injection H as <-. split; cbn; try assumption.
  rewrite Forall_forall in *. intros r Hr.
  apply list_elem_of_In, in_map_iff in Hr as (r0 & <- & Hr0).
  apply list_elem_of_In in Hr0.
  destruct (row_id r0 =? id); cbn; exact (He r0 Hr0).
Qed.

Lemma sqlDeleteFeed_positive (id : Z) (d d' : DB) (u : unit) :
  positiveKeys d -> sqlDeleteFeed id d = Ok (u, d') -> positiveKeys d'.
Proof.
  intros [Hfs Hes Hf He]. unfold sqlDeleteFeed. destruct u.
  intros H. injection H as <-. split; cbn; try assumption.
  rewrite Forall_forall in *. intros r Hr.
  apply list_elem_of_In, filter_In in Hr as [Hr _].
  apply list_elem_of_In in Hr. exact (Hf r Hr).
Qed.

Lemma call_positive (c : Call) (s : Store) :
  positiveKeys (db s) -> positiveKeys (db (call c s)).
Proof.
  intros Hp. destruct c; cbn [call];
    unfold SaveFeed, GetFeed, GetAllFeeds, DeleteFeed, SaveEntry, GetEntry,
      GetEntries, MarkEntryRead.
  - destruct (exec_db (sqlSaveFeed f) s) as [->|[a H]]; [exact Hp|].
    exact (sqlSaveFeed_positive _ _ _ _ Hp H).
  - destruct (exec_db (sqlGetFeed id) s) as [->|[a H]]; [exact Hp|].
    rewrite (sqlGetFeed_db _ _ _ _ H). exact Hp.
  - destruct (exec_db sqlGetAllFeeds s) as [->|[a H]]; [exact Hp|].
    rewrite (proj1 (sqlGetAllFeeds_db _ _ _ H)). exact Hp.
  - destruct (exec_db (sqlDeleteFeed id) s) as [->|[a H]]; [exact Hp|].
    exact (sqlDeleteFeed_positive _ _ _ _ Hp H).
  - destruct (exec_db (sqlSaveEntry e) s) as [->|[a H]]; [exact Hp|].
    exact (sqlSaveEntry_positive _ _ _ _ Hp H).
  - destruct (exec_db (sqlGetEntry id) s) as [->|[a H]]; [exact Hp|].
    rewrite (sqlGetEntry_db _ _ _ _ H). exact Hp.
  - destruct (exec_db (sqlGetEntries opts) s) as [->|[a H]]; [exact Hp|].
    rewrite (sqlGetEntries_db _ _ _ _ H). exact Hp.
  - destruct (exec_db (sqlMarkEntryRead id isRead) s) as [->|[a H]];
      [exact Hp|].
    exact (sqlMarkEntryRead_positive _ _ _ _ _ Hp H).
Qed.

Lemma history_positive (calls : list Call) (s : Store) :
  positiveKeys (db s) -> positiveKeys (db (history calls s)).
Proof.
  revert s. induction calls as [|c calls IH]; intros s Hp; cbn.
  - exact Hp.
  - apply IH, call_positive, Hp.
Qed.

Lemma reachable_positive (d : DB) : reachable d -> positiveKeys d.
Proof.
  intros (calls & script & <-). apply history_positive.
  exact positiveKeys_empty.
Qed.

(** The counters of the AUTOINCREMENT keys never go back. *)
Lemma call_seq (c : Call) (s : Store) :
  feeds_seq (db s) <= feeds_seq (db (call c s)) /\
  entries_seq (db s) <= entries_seq (db (call c s)).
Proof.
  destruct c; cbn [call];
    unfold SaveFeed, GetFeed, GetAllFeeds, DeleteFeed, SaveEntry, GetEntry,
      GetEntries, MarkEntryRead.
  - destruct (exec_db (sqlSaveFeed f) s) as [->|[a H]]; [lia|].
    revert H. generalize (db (exec (sqlSaveFeed f) s).2). intros d' H.
    unfold sqlSaveFeed in H.
    repeat match type of H with
           | (if ?b then _ else _) = _ => destruct b
           end; try discriminate; injection H as _ <-; cbn; lia.
  - destruct (exec_db (sqlGetFeed id) s) as [->|[a H]]; [lia|].
    rewrite (sqlGetFeed_db _ _ _ _ H). lia.
  - destruct (exec_db sqlGetAllFeeds s) as [->|[a H]]; [lia|].
    rewrite (proj1 (sqlGetAllFeeds_db _ _ _ H)). lia.
  - destruct (exec_db (sqlDeleteFeed id) s) as [->|[a H]]; [lia|].
    revert H. generalize (db (exec (sqlDeleteFeed id) s).2). intros d' H.
    unfold sqlDeleteFeed in H. injection H as _ <-. cbn. lia.
  - destruct (exec_db (sqlSaveEntry e) s) as [->|[a H]]; [lia|].
    revert H. generalize (db (exec (sqlSaveEntry e) s).2). intros d' H.
    unfold sqlSaveEntry in H.
    repeat match type of H with
           | (if ?b then _ else _) = _ => destruct b
           end; try discriminate; injection H as _ <-; cbn; lia.
  - destruct (exec_db (sqlGetEntry id) s) as [->|[a H]]; [lia|].
    rewrite (sqlGetEntry_db _ _ _ _ H). lia.
  - destruct (exec_db (sqlGetEntries opts) s) as [->|[a H]]; [lia|].
    rewrite (sqlGetEntries_db _ _ _ _ H). lia.
  - destruct (exec_db (sqlMarkEntryRead id isRead) s) as [->|[a H]]; [lia|].
    revert H. generalize (db (exec (sqlMarkEntryRead id isRead) s).2).
    intros d' H. unfold sqlMarkEntryRead in H. injection H as _ <-. cbn. lia.
Qed.

Lemma history_seq (calls : list Call) (s : Store) :
  feeds_seq (db s) <= feeds_seq (db (history calls s)) /\
  entries_seq (db s) <= entries_seq (db (history calls s)).
Proof.
  revert s. induction calls as [|c calls IH]; intros s; [cbn; lia|].
  change (history (c :: calls) s) with (history calls (call c s)).
  pose proof (call_seq c s). pose proof (IH (call c s)). lia.
Qed.

End StoreKeys.

Section RoundTrips.

Import store.

Lemma find_fresh {A : Type} (id : A -> Z) (n : Z) (l : list A) (x : A) :
  Forall (fun r => id r <= n) l -> id x = n + 1 ->
  find (fun r => id r =? n + 1) (l ++ [x]) = Some x.
Proof.
  intros Hl Hx. induction l as [|r l IH]; cbn.
  - rewrite Hx, Z.eqb_refl. reflexivity.
  - apply Forall_cons in Hl as [Hr Hl].
    destruct (Z.eqb_spec (id r) (n + 1)); [lia | exact (IH Hl)].
Qed.

Lemma find_replaced {A : Type} (id : A -> Z) (k : Z) (x : A) (l : list A) :
  id x = k -> existsb (fun r => id r =? k) l = true ->
  find (fun r => id r =? k)
       (map (fun r => if id r =? k then x else r) l) = Some x.
Proof.
  intros Hx. induction l as [|r l IH]; cbn; [discriminate|].
  destruct (Z.eqb_spec (id r) k) as [Heq|Hne]; cbn.
  - intros _. rewrite Hx, Z.eqb_refl. reflexivity.
  - intros H. destruct (Z.eqb_spec (id r) k); [contradiction | exact (IH H)].
Qed.

Lemma find_absent {A : Type} (p : A -> bool) (l : list A) :
  existsb p l = false -> find p l = None.
Proof.
  induction l as [|r l IH]; cbn; [reflexivity|].
  destruct (p r); cbn; [discriminate | exact IH].
Qed.

Lemma intToBool_boolToInt (b : bool) : intToBool (boolToInt b) = b.
Proof. destruct b; reflexivity. Qed.

(** What [GetEntry] reads of an entry that was saved. *)
Lemma entryOfRow_rowOfEntry (id : Z) (e : model.Entry) :
  entryOfRow (rowOfEntry id e) =
    model.mkEntry id (model.FeedID e) (model.GUID e) (model.Title e)
                  (model.Link e) (model.Content e)
                  (unixToTime (time.Unix (model.Published e)))
                  (model.IsRead e) [].
Proof.
  unfold entryOfRow, rowOfEntry. cbn. rewrite intToBool_boolToInt.
  reflexivity.
Qed.

(** X1: a feed saved without an identifier gets the next identifier of
    the table written back, a positive one, and [GetFeed] of that
    identifier returns the URL, the title, the category and the cache
    validators that were saved; [LastUpdated] is not a column the store
    writes or reads and comes back absent. *)
Theorem SaveFeed_GetFeed_round_trip (f f' : model.Feed) (s s' : Store) :
  reachable (db s) -> model.Feed_ID f = 0 ->
  SaveFeed f s = (Ok f', s') ->
  head (driver s') <> Some true ->
  model.Feed_ID f' = feeds_seq (db s) + 1 /\
  0 < model.Feed_ID f' /\
  (GetFeed (model.Feed_ID f') s').1 =
    Ok (model.mkFeed (model.Feed_ID f') (model.URL f) (model.Feed_Title f)
                     (model.Category f) None (model.ETag f)
                     (model.LastModified f)).
Proof.
  intros Hreach Hnew Hsave Hq.
  pose proof (reachable_wellFormed _ Hreach) as Hwf.
  pose proof (reachable_positive _ Hreach) as Hpos.
  apply exec_Ok in Hsave as (Hsave & _ & _).
  unfold sqlSaveFeed in Hsave. rewrite Hnew in Hsave. cbn in Hsave.
  destruct (urlTaken None _ _); [discriminate|].
  injection Hsave as <- Hdb. cbn.
  split; [reflexivity|]. split; [pose proof (pos_feed_seq _ Hpos); lia|].
  unfold GetFeed. rewrite (exec_quiet _ _ Hq). unfold sqlGetFeed.
  rewrite <- Hdb. cbn.
  rewrite (find_fresh frow_id (feeds_seq (db s)) (feeds (db s))
             (rowOfFeed (feeds_seq (db s) + 1) f)
             (wf_feed_seq _ Hwf) eq_refl).
  reflexivity.
Qed.

(** X2: whether [SaveEntry] inserted the entry or updated the row that
    has its identifier, [GetEntry] then returns what was saved, with
    two losses: the publication time is cut to the whole second, and
    the tags are gone.  An inserted entry gets the next identifier of
    the table, a positive one. *)
Theorem SaveEntry_GetEntry_round_trip (e e' : model.Entry) (s s' : Store) :
  reachable (db s) ->
  model.ID e = 0 \/ hasEntry (model.ID e) (entries (db s)) = true ->
  SaveEntry e s = (Ok e', s') ->
  head (driver s') <> Some true ->
  (model.ID e = 0 -> model.ID e' = entries_seq (db s) + 1) /\
  (model.ID e <> 0 -> model.ID e' = model.ID e) /\
  0 < model.ID e' /\
  (GetEntry (model.ID e') s').1 =
    Ok (model.mkEntry (model.ID e') (model.FeedID e) (model.GUID e)
                      (model.Title e) (model.Link e) (model.Content e)
                      (unixToTime (time.Unix (model.Published e)))
                      (model.IsRead e) []) /\
  model.Published e - 1000000000 <
    unixToTime (time.Unix (model.Published e)) <= model.Published e.
Proof.
  intros Hreach Hrow Hsave Hq.
  pose proof (reachable_wellFormed _ Hreach) as Hwf.
  pose proof (reachable_positive _ Hreach) as Hpos.
  apply exec_Ok in Hsave as (Hsave & _ & _).
  assert (Hcut : model.Published e - 1000000000 <
                 unixToTime (time.Unix (model.Published e)) <=
                 model.Published e).
  { unfold unixToTime, time.Unix.
    pose proof (Z.mod_pos_bound (model.Published e) 1000000000 ltac:(lia)).
    pose proof (Z.div_mod (model.Published e) 1000000000 ltac:(lia)). lia. }
  unfold sqlSaveEntry in Hsave.
  destruct (Z.eqb_spec (model.ID e) 0) as [Hnew|Hold].
  - destruct (keyTaken None _ _ _); [discriminate|].
    injection Hsave as <- Hdb. cbn.
    split; [reflexivity|]. split; [congruence|].
    split; [pose proof (pos_entry_seq _ Hpos); lia|].
    split; [|exact Hcut].
    unfold GetEntry. rewrite (exec_quiet _ _ Hq). unfold sqlGetEntry.
    rewrite <- Hdb. cbn.
    rewrite (find_fresh row_id (entries_seq (db s)) (entries (db s))
               (rowOfEntry (entries_seq (db s) + 1) e)
               (wf_entry_seq _ Hwf) eq_refl).
    rewrite entryOfRow_rowOfEntry. reflexivity.
  - destruct Hrow as [Hnew|Hrow]; [contradiction|].
    rewrite Hrow in Hsave.
    destruct (keyTaken (Some _) _ _ _); [discriminate|].
    injection Hsave as <- Hdb.
    split; [contradiction|]. split; [reflexivity|].
    assert (Hid : 0 < model.ID e).
    { unfold hasEntry in Hrow. apply existsb_exists in Hrow as (r & Hr & Heq).
      apply Z.eqb_eq in Heq. rewrite <- Heq.
      pose proof (pos_entry_ids _ Hpos) as Hall.
      rewrite Forall_forall in Hall. apply Hall, list_elem_of_In, Hr. }
    split; [exact Hid|]. split; [|exact Hcut].
    unfold GetEntry. rewrite (exec_quiet _ _ Hq). unfold sqlGetEntry.
    rewrite <- Hdb. cbn.
    rewrite (find_replaced row_id (model.ID e) (rowOfEntry (model.ID e) e)
               (entries (db s)) eq_refl Hrow).
    rewrite entryOfRow_rowOfEntry. reflexivity.
Qed.

(** X3: saving an entry under an identifier that no row has is not an
    insert and not an error: the call reports success, returns the
    entry as it was, and the table is what it was, so [GetEntry] of
    that identifier still finds nothing. *)
Theorem SaveEntry_unknown_id (e : model.Entry) (s : Store) :
  model.ID e <> 0 -> hasEntry (model.ID e) (entries (db s)) = false ->
  quiet s ->
  (SaveEntry e s).1 = Ok e /\
  db (SaveEntry e s).2 = db s /\
  (GetEntry (model.ID e) (SaveEntry e s).2).1 = Err ErrNotFound.
Proof.
  intros Hid Hrow Hq. unfold SaveEntry.
  rewrite (exec_quiet _ _ (quiet_head _ Hq)).
  unfold sqlSaveEntry.
  destruct (Z.eqb_spec (model.ID e) 0) as [Hnew|_]; [contradiction|].
  rewrite Hrow. cbn [fst snd db]. split; [reflexivity|]. split; [reflexivity|].
  unfold GetEntry. rewrite exec_quiet.
  - unfold sqlGetEntry. cbn [db]. unfold hasEntry in Hrow.
    rewrite (find_absent _ _ Hrow). reflexivity.
  - apply quiet_head. apply (quiet_tail s); [exact Hq | reflexivity].
Qed.

End RoundTrips.

Section Keys.

Import store.

Lemma urlTaken_In (url : string) (rows : list FeedRow) :
  In url (map frow_url rows) -> urlTaken None url rows = true.
Proof.
  intros Hin. apply in_map_iff in Hin as (r & Hr & Hin).
  unfold urlTaken. apply existsb_exists. exists r. split; [exact Hin|].
  rewrite Hr, String.eqb_refl. reflexivity.
Qed.

(** An insert that succeeds writes the next identifier back, appends
    one row and does nothing else. *)
Lemma SaveFeed_insert (f f' : model.Feed) (s s' : Store) :
  model.Feed_ID f = 0 -> SaveFeed f s = (Ok f', s') ->
  f' = model.feedWithID f (feeds_seq (db s) + 1) /\
  feeds (db s') = feeds (db s) ++ [rowOfFeed (feeds_seq (db s) + 1) f] /\
  entries (db s') = entries (db s) /\
  urlTaken None (model.URL f) (feeds (db s)) = false /\
  driver s' = tail (driver s).
Proof.
  intros Hnew H. apply exec_Ok in H as (H & Hd & _).
  unfold sqlSaveFeed in H. rewrite Hnew in H. cbn in H.
  destruct (urlTaken None _ _); [discriminate|].
  injection H as <- <-. cbn. repeat split. exact Hd.
Qed.

(** X4: no two feeds of a database built through the store share a
    URL, and [SaveFeed] of a new feed whose URL a row already has is
    refused: it returns an error and leaves the database as it was. *)
Theorem feed_urls_unique (d : DB) :
  reachable d ->
  NoDup (map frow_url (feeds d)) /\
  forall (f : model.Feed) (script : list bool),
    model.Feed_ID f = 0 -> In (model.URL f) (map frow_url (feeds d)) ->
    exists e,
      SaveFeed f (mkStore d script) = (Err e, mkStore d (tail script)) /\
      (head script <> Some true -> e = ErrConstraint).
Proof.
  intros Hreach. split; [exact (wf_feed_urls _ (reachable_wellFormed _ Hreach))|].
  intros f script Hnew Hin. unfold SaveFeed.
  destruct script as [|[|] script].
  - exists ErrConstraint. rewrite exec_quiet by (cbn; discriminate).
    unfold sqlSaveFeed. rewrite Hnew. cbn. rewrite (urlTaken_In _ _ Hin).
    split; [reflexivity | reflexivity].
  - exists ErrDriver. rewrite exec_fault by reflexivity. cbn.
    split; [reflexivity | intros H; congruence].
  - exists ErrConstraint. rewrite exec_quiet by (cbn; discriminate).
    unfold sqlSaveFeed. rewrite Hnew. cbn. rewrite (urlTaken_In _ _ Hin).
    split; reflexivity.
Qed.

(** X5: identifiers are never handed out twice.  A feed inserted at any
    later point of a history of calls gets an identifier greater than
    that of every feed the table has held before, also of the feeds
    deleted since; and so for the entries. *)
Theorem identifiers_never_reused (script : list bool) (before after : list Call) :
  let s1 := history before (mkStore emptyDB script) in
  let s2 := history after s1 in
  (forall r f f' s',
      In r (feeds (db s1)) -> model.Feed_ID f = 0 ->
      SaveFeed f s2 = (Ok f', s') -> frow_id r < model.Feed_ID f') /\
  (forall r e e' s',
      In r (entries (db s1)) -> model.ID e = 0 ->
      SaveEntry e s2 = (Ok e', s') -> row_id r < model.ID e').
Proof.
  intros s1 s2.
  assert (Hwf : wellFormed (db s1)).
  { apply history_wf. exact wellFormed_empty. }
  pose proof (history_seq after s1) as [Hfs Hes]. fold s2 in Hfs, Hes.
  split.
  - intros r f f' s' Hr Hnew Hsave.
    apply exec_Ok in Hsave as (Hsave & _ & _).
    unfold sqlSaveFeed in Hsave. rewrite Hnew in Hsave. cbn in Hsave.
    destruct (urlTaken None _ _); [discriminate|].
    injection Hsave as <- _. cbn.
    pose proof (wf_feed_seq _ Hwf) as Hall. rewrite Forall_forall in Hall.
    apply list_elem_of_In in Hr. specialize (Hall r Hr). cbn in Hall. lia.
  - intros r e e' s' Hr Hnew Hsave.
    apply exec_Ok in Hsave as (Hsave & _ & _).
    unfold sqlSaveEntry in Hsave. rewrite Hnew in Hsave. cbn in Hsave.
    destruct (keyTaken None _ _ _); [discriminate|].
    injection Hsave as <- _. cbn.
    pose proof (wf_entry_seq _ Hwf) as Hall. rewrite Forall_forall in Hall.
    apply list_elem_of_In in Hr. specialize (Hall r Hr). cbn in Hall. lia.
Qed.

End Keys.

Section Listings.

Import query store.

#[local] Instance newerFirst_total : Total newerFirst.
Proof. intros r1 r2. unfold newerFirst. lia. Qed.

#[local] Instance newerFirst_trans : Transitive newerFirst.
Proof. intros r1 r2 r3. unfold newerFirst. lia. Qed.

(** The rows a listing is made of: filtered and ordered, before the
    window of LIMIT and OFFSET is cut. *)
Lemma sqlGetEntries_rows (opts : QueryOptions) (d d' : DB)
    (es : list model.Entry) :
  sqlGetEntries opts d = Ok (es, d') ->
  exists ordered : list EntryRow,
    ordered ≡ₚ
      List.filter (fun r => match SinceTime opts with
                            | Some t => t <=? row_published r
                            | None => true
                            end)
        (List.filter (fun r => negb (UnreadOnly opts) || (row_is_read r =? 0))
                     (entries d)) /\
    StronglySorted newerFirst ordered /\
    es = map entryOfRow
           ((if 0 <? Limit opts then take (Z.to_nat (Limit opts)) else id)
              ((if 0 <? Offset opts then drop (Z.to_nat (Offset opts)) else id)
                 ordered)) /\
    d' = d.
Proof.
  unfold sqlGetEntries. destruct (_ && _); [discriminate|].
  intros H. injection H as <- <-.
  eexists (merge_sort newerFirst _). split; [apply merge_sort_Permutation|].
  split; [apply StronglySorted_merge_sort; apply _|].
  split; [|reflexivity].
  destruct (0 <? Limit opts), (0 <? Offset opts); reflexivity.
Qed.

Lemma StronglySorted_take {A : Type} (R : relation A) (n : nat) (l : list A) :
  StronglySorted R l -> StronglySorted R (take n l).
Proof.
  intros H. rewrite <- (take_drop n l) in H.
  exact (StronglySorted_app_1_l _ _ _ H).
Qed.

Lemma StronglySorted_drop {A : Type} (R : relation A) (n : nat) (l : list A) :
  StronglySorted R l -> StronglySorted R (drop n l).
Proof.
  intros H. rewrite <- (take_drop n l) in H.
  exact (StronglySorted_app_1_r _ _ _ H).
Qed.

Lemma window_sorted {A : Type} (R : relation A) (b1 b2 : bool) (n k : nat)
    (l : list A) :
  StronglySorted R l ->
  StronglySorted R ((if b1 then take n else id) ((if b2 then drop k else id) l)).
Proof.
  intros H. destruct b1, b2; cbn;
    auto using StronglySorted_take, StronglySorted_drop.
Qed.

Lemma window_elem {A : Type} (b1 b2 : bool) (n k : nat) (l : list A) (x : A) :
  x ∈ (if b1 then take n else id) ((if b2 then drop k else id) l) -> x ∈ l.
Proof.
  intros H.
  assert (H' : x ∈ (if b2 then drop k else id) l).
  { destruct b1; [|exact H]. apply elem_of_take in H as (i & Hi & _).
    eapply list_elem_of_lookup_2. exact Hi. }
  destruct b2; [|exact H']. apply list_elem_of_lookup in H' as (i & Hi).
  rewrite lookup_drop in Hi. eapply list_elem_of_lookup_2. exact Hi.
Qed.

(** X6: a listing is ordered by publication time, newest first,
    whatever the filters and the window, and taking it leaves the
    database as it was. *)
Theorem GetEntries_newest_first (opts : QueryOptions) (s s' : Store)
    (es : list model.Entry) :
  GetEntries opts s = (Ok es, s') ->
  StronglySorted (fun a b => model.Published b <= model.Published a) es /\
  db s' = db s.
Proof.
  intros H. apply exec_Ok in H as (H & _ & _).
  apply sqlGetEntries_rows in H as (ordered & _ & Hsorted & -> & Hdb).
  split; [|exact Hdb].
  apply (StronglySorted_fmap entryOfRow newerFirst).
  - intros r1 r2. unfold newerFirst, entryOfRow, unixToTime. cbn. lia.
  - apply window_sorted. exact Hsorted.
Qed.

Lemma Unix_unixToTime (unix : Z) : time.Unix (unixToTime unix) = unix.
Proof. unfold time.Unix, unixToTime. apply Z.div_mul. lia. Qed.

(** X7: what a listing holds.  Every entry listed is a row of the
    table; with [UnreadOnly] it is unread, and with a [SinceTime] it
    was published at that second or later.  A positive [Limit] bounds
    the length.  Without a window (no positive limit, no positive
    offset) every row that passes the filters is listed. *)
Theorem GetEntries_filters (opts : QueryOptions) (s s' : Store)
    (es : list model.Entry) :
  GetEntries opts s = (Ok es, s') ->
  (forall e, e ∈ es ->
     (exists r, r ∈ entries (db s) /\ e = entryOfRow r) /\
     (UnreadOnly opts = true -> model.IsUnread e = true) /\
     (forall t, SinceTime opts = Some t -> t <= time.Unix (model.Published e))) /\
  (0 < Limit opts -> Z.of_nat (length es) <= Limit opts) /\
  (Limit opts <= 0 -> Offset opts <= 0 ->
   forall r, r ∈ entries (db s) ->
     (UnreadOnly opts = true -> row_is_read r = 0) ->
     (forall t, SinceTime opts = Some t -> t <= row_published r) ->
     entryOfRow r ∈ es).
Proof.
  intros H. apply exec_Ok in H as (H & _ & _).
  apply sqlGetEntries_rows in H as (ordered & Hperm & _ & -> & _).
  assert (Hin : forall r, r ∈ ordered <->
            r ∈ entries (db s) /\
            (negb (UnreadOnly opts) || (row_is_read r =? 0)) = true /\
            match SinceTime opts with
            | Some t => t <=? row_published r
            | None => true
            end = true).
  { intros r. rewrite Hperm. rewrite !list_elem_of_In, !filter_In. tauto. }
  split; [|split].
  - intros e He. apply list_elem_of_fmap in He as (r & -> & Hr).
    apply window_elem, Hin in Hr as (Hr & Hunread & Hsince).
    split; [exists r; split; [exact Hr | reflexivity]|]. split.
    + intros Hu. rewrite Hu in Hunread. cbn in Hunread.
      unfold model.IsUnread, entryOfRow, intToBool. cbn.
      rewrite Hunread. reflexivity.
    + intros t Ht. rewrite Ht in Hsince. apply Z.leb_le in Hsince.
      unfold entryOfRow. cbn. rewrite Unix_unixToTime. exact Hsince.
  - intros Hlim. apply Z.ltb_lt in Hlim as Hb. rewrite Hb.
    rewrite length_map, length_take. lia.
  - intros Hlim Hoff r Hr Hunread Hsince.
    destruct (Z.ltb_spec 0 (Limit opts)); [lia|].
    destruct (Z.ltb_spec 0 (Offset opts)); [lia|]. cbn.
    apply list_elem_of_fmap. exists r. split; [reflexivity|].
    apply Hin. split; [exact Hr|]. split.
    + destruct (UnreadOnly opts); [|reflexivity]. cbn.
      apply Z.eqb_eq. exact (Hunread eq_refl).
    + destruct (SinceTime opts) as [t|]; [|reflexivity].
      apply Z.leb_le. exact (Hsince t eq_refl).
Qed.

(** X8: pages tile a listing.  With the same filters and an unchanged
    table, the page of [n] entries at offset [k] followed by the page
    of [m] entries at offset [k + n] is the page of [n + m] entries at
    offset [k]: between two consecutive pages no entry is skipped and
    none comes twice.  SQLite leaves open how it orders entries of the
    same second, so the table is one in which no two entries share
    one. *)
Theorem GetEntries_pages (n m k : Z) (unread : bool) (tag : string)
    (since : option Z) (s : Store) :
  0 < n -> 0 < m -> 0 <= k -> head (driver s) <> Some true ->
  NoDup (map row_published (entries (db s))) ->
  exists p1 p2,
    (GetEntries (mkQueryOptions n k unread tag since) s).1 = Ok p1 /\
    (GetEntries (mkQueryOptions m (k + n) unread tag since) s).1 = Ok p2 /\
    (GetEntries (mkQueryOptions (n + m) k unread tag since) s).1 =
      Ok (p1 ++ p2).
Proof.
  intros Hn Hm Hk Hq _. unfold GetEntries. rewrite !(exec_quiet _ _ Hq).
  unfold sqlGetEntries. cbn [Limit Offset UnreadOnly SinceTime].
  set (ordered := merge_sort newerFirst _).
  destruct (Z.leb_spec n 0); [lia|].
  destruct (Z.leb_spec m 0); [lia|].
  destruct (Z.leb_spec (n + m) 0); [lia|].
  destruct (Z.ltb_spec 0 n); [|lia].
  destruct (Z.ltb_spec 0 m); [|lia].
  destruct (Z.ltb_spec 0 (n + m)); [|lia].
  destruct (Z.ltb_spec 0 (k + n)); [|lia].
  cbn [andb fst].
  assert (Hwin : (if 0 <? k then drop (Z.to_nat k) ordered else ordered) =
                 drop (Z.to_nat k) ordered).
  { destruct (Z.ltb_spec 0 k); [reflexivity|].
    replace k with 0 by lia. reflexivity. }
  rewrite Hwin. eexists _, _. split; [reflexivity|]. split; [reflexivity|].
  rewrite <- map_app. do 2 f_equal.
  replace (Z.to_nat (k + n)) with (Z.to_nat k + Z.to_nat n)%nat by lia.
  replace (Z.to_nat (n + m)) with (Z.to_nat n + Z.to_nat m)%nat by lia.
  rewrite <- drop_drop. symmetry. apply take_take_drop.
Qed.

End Listings.

Section Marking.

Import store.

Lemma find_map_same {A : Type} (p : A -> bool) (g : A -> A) (l : list A) :
  (forall r, p (g r) = p r) -> find p (map g l) = option_map g (find p l).
Proof.
  intros Hp. induction l as [|r l IH]; cbn; [reflexivity|].
  rewrite Hp. destruct (p r); [reflexivity | exact IH].
Qed.

(** X9: marking touches one flag of one row.  After [MarkEntryRead] of
    an identifier, the entry of that identifier reads back with the
    flag as given and every other field as before, every other entry
    reads back unchanged, and an identifier that had no row still has
    none. *)
Theorem MarkEntryRead_frame (id id' : Z) (isRead : bool) (s : Store) :
  quiet s ->
  (MarkEntryRead id isRead s).1 = Ok tt /\
  (GetEntry id' (MarkEntryRead id isRead s).2).1 =
    match (GetEntry id' s).1 with
    | Ok e =>
        Ok (if id' =? id
            then model.mkEntry (model.ID e) (model.FeedID e) (model.GUID e)
                               (model.Title e) (model.Link e)
                               (model.Content e) (model.Published e) isRead
                               (model.Tags e)
            else e)
    | Err err => Err err
    end.
Proof.
  intros Hq. pose proof (quiet_head _ Hq) as Hh.
  unfold MarkEntryRead. rewrite (exec_quiet _ _ Hh).
  unfold sqlMarkEntryRead. cbn [fst snd]. split; [reflexivity|].
  unfold GetEntry. rewrite (exec_quiet _ _ Hh).
  rewrite exec_quiet
    by (apply quiet_head; apply (quiet_tail s); [exact Hq | reflexivity]).
  unfold sqlGetEntry. cbn [db entries].
  rewrite (find_map_same (fun r => row_id r =? id')
             (fun r => if row_id r =? id then setRead isRead r else r)).
  - destruct (find _ (entries (db s))) as [r|] eqn:Hfind; cbn; [|reflexivity].
    apply find_some in Hfind as [_ Hid]. apply Z.eqb_eq in Hid.
    subst id'. destruct (row_id r =? id); [|reflexivity].
    unfold entryOfRow, setRead. cbn. rewrite intToBool_boolToInt.
    reflexivity.
  - intros r. destruct (row_id r =? id); reflexivity.
Qed.

Lemma find_filter_other {A : Type} (key : A -> Z) (id id' : Z) (l : list A) :
  find (fun r => key r =? id')
       (List.filter (fun r => negb (key r =? id)) l) =
    if id' =? id then None else find (fun r => key r =? id') l.
Proof.
  induction l as [|r l IH]; cbn; [destruct (id' =? id); reflexivity|].
  destruct (Z.eqb_spec (key r) id) as [Hr|Hr]; cbn.
  - rewrite IH. destruct (Z.eqb_spec id' id) as [Heq|Hne]; [reflexivity|].
    destruct (Z.eqb_spec (key r) id'); [lia | reflexivity].
  - destruct (Z.eqb_spec (key r) id') as [Hr'|Hr'].
    + destruct (Z.eqb_spec id' id); [lia | reflexivity].
    + exact IH.
Qed.

(** What [DeleteFeed] leaves: no feed of that identifier, every other
    feed, and the table of entries untouched. *)
Lemma DeleteFeed_Ok (id : Z) (s s' : Store) (u : unit) :
  DeleteFeed id s = (Ok u, s') ->
  entries (db s') = entries (db s) /\
  entries_seq (db s') = entries_seq (db s) /\
  feeds_seq (db s') = feeds_seq (db s) /\
  feeds (db s') = List.filter (fun r => negb (frow_id r =? id)) (feeds (db s)).
Proof.
  intros H. apply exec_Ok in H as (H & _ & _).
  unfold sqlDeleteFeed in H. injection H as _ <-. cbn. repeat split.
Qed.

End Marking.

(** ** The query composer beyond the range of a duration *)

Section DurationFacts.

Import strconv query time.

Lemma wrap64_congr (a b : Z) : wrap64 (wrap64 a * b) = wrap64 (a * b).
Proof.
  unfold wrap64.
  replace ((((a + 2 ^ 63) mod 2 ^ 64 - 2 ^ 63) * b + 2 ^ 63))
    with ((a * b + 2 ^ 63) + (- ((a + 2 ^ 63) / 2 ^ 64) * b) * 2 ^ 64).
  - rewrite Z_mod_plus_full. reflexivity.
  - pose proof (Z.div_mod (a + 2 ^ 63) (2 ^ 64) ltac:(lia)). nia.
Qed.

Lemma wrap64_congr3 (a b c : Z) :
  wrap64 (wrap64 (wrap64 a * b) * c) = wrap64 (a * b * c).
Proof.
  rewrite wrap64_congr.
  replace (wrap64 a * b * c) with (wrap64 a * (b * c)) by ring.
  rewrite wrap64_congr. f_equal. ring.
Qed.

(** The product of [ParseDuration], whatever its size: the exact
    product brought back into the range of [int64]. *)
Lemma unit_product_wraps (n : Z) (u : ascii) :
  isUnit u = true ->
  (if String.eqb (String u EmptyString) "d" then Ok (mul (mul n 24) Hour)
   else if String.eqb (String u EmptyString) "w"
        then Ok (mul (mul (mul n 7) 24) Hour)
   else if String.eqb (String u EmptyString) "m"
        then Ok (mul (mul (mul n 30) 24) Hour)
   else if String.eqb (String u EmptyString) "y"
        then Ok (mul (mul (mul n 365) 24) Hour)
   else Err (ErrUnit (String u EmptyString)))
  = (Ok (wrap64 (n * unitDays u * 24 * Hour)) : result Duration ParseError).
Proof.
  intros Hu. unfold isUnit in Hu.
  repeat (apply orb_prop in Hu as [Hu|Hu]);
    apply Ascii.eqb_eq in Hu; subst u; cbn [String.eqb Ascii.eqb Bool.eqb];
    unfold unitDays; cbn [Ascii.eqb Bool.eqb]; unfold mul;
    rewrite ?wrap64_congr3, ?wrap64_congr; f_equal; f_equal; ring.
Qed.

(** X10: a shorthand whose number fits [int] is never refused, however
    long the span: [ParseDuration] returns the product of the number,
    the days of the unit and 24 hours reduced to the 64-bit range of a
    [Duration], which is the product itself when it fits and a wrapped
    value, possibly negative, when it does not. *)
Theorem ParseDuration_modulo (s ds : string) (u : ascii) :
  shorthand s ds u -> decimal ds <= MaxInt64 ->
  ParseDuration s = Ok (wrap64 (decimal ds * unitDays u * 24 * Hour)) /\
  (decimal ds * unitDays u * 24 * Hour <= MaxInt64 ->
   wrap64 (decimal ds * unitDays u * 24 * Hour) =
     decimal ds * unitDays u * 24 * Hour).
Proof.
  intros Hsh Hfit. pose proof Hsh as (_ & Hne & Hds & Hu). split.
  - unfold ParseDuration.
    rewrite (shorthand_nonempty _ _ _ Hsh),
      (durationPattern_shorthand _ _ _ Hsh).
    rewrite (Atoi_digits ds Hne Hds).
    destruct (Z.leb_spec (decimal ds) MaxInt64); [|lia].
    pose proof (decimal_nonneg ds Hds).
    destruct (Z.ltb_spec (decimal ds) 0); [lia|].
    apply unit_product_wraps. exact Hu.
  - intros Hsmall. apply wrap64_id.
    pose proof (decimal_nonneg ds Hds).
    assert (0 <= unitDays u).
    { unfold unitDays. repeat destruct (Ascii.eqb u _); lia. }
    unfold in_int64, MinInt64, MaxInt64 in *.
    change Hour with 3600000000000 in *. nia.
Qed.

(** X11: the error for an invalid unit is dead code.  The pattern lets
    only the four unit letters through, so the [default] branch of the
    switch is never taken: whatever the input, [ParseDuration] fails
    with one of the other three errors or not at all. *)
Theorem ParseDuration_unit_error_unreachable (s unit : string) :
  ParseDuration s <> Err (ErrUnit unit).
Proof.
  unfold ParseDuration.
  destruct (String.eqb s ""); [discriminate|].
  destruct (durationPattern s) as [[m1 m2]|] eqn:Hm; [|discriminate].
  destruct (durationPattern_sound s m1 m2 Hm) as (u & -> & Hsh).
  destruct Hsh as (_ & _ & _ & Hu).
  destruct (Atoi m1) as [num|]; [|discriminate].
  destruct (num <? 0); [discriminate|].
  rewrite (unit_product_wraps num u Hu). discriminate.
Qed.

End DurationFacts.

(** ** The fetcher beyond [Fetch] *)

Section FetcherFacts.

Import feed.

Variable ParseURL : string -> result gofeed.Feed string.
Variable Now : string -> nat -> time.Time.

(** The cache validators are not used.  [FetchWithCache] returns
    what [Fetch] returns for the URL, whatever ETag and Last-Modified
    it is given; a success always reports the feed as modified, and it
    fails exactly when [Fetch] fails, with the same error. *)
Lemma FetchWithCache_ignores_validators
    (url etag lastModified etag' lastModified' : string) :
  FetchWithCache ParseURL Now url etag lastModified =
    FetchWithCache ParseURL Now url etag' lastModified' /\
  (forall f es modified,
     FetchWithCache ParseURL Now url etag lastModified = Ok (f, es, modified) ->
     modified = true /\ Fetch ParseURL Now url = Ok (f, es)) /\
  (forall err,
     FetchWithCache ParseURL Now url etag lastModified = Err err <->
     Fetch ParseURL Now url = Err err).
Proof.
  unfold FetchWithCache. split; [reflexivity|].
  destruct (Fetch ParseURL Now url) as [[f0 es0]|err0]; split.
  - intros f es modified H. injection H as <- <- <-. split; reflexivity.
  - intros err. split; discriminate.
  - intros f es modified H. discriminate.
  - intros err. split; intros H; injection H as <-; reflexivity.
Qed.

End FetcherFacts.

Section ParserFacts.

Import feed.

Variable ParseString : string -> result gofeed.Feed string.
Variable Clock : nat -> time.Time.

(** X12: [Parse] never hands the empty payload to the parser and fails
    on it; on any other payload it fails exactly when the parser does.
    A parsed feed takes the link the payload declares as its URL, and
    its entries are the items in order, one entry per item, each
    unread and without identifiers. *)
Theorem Parse_payload (content : string) :
  (content = EmptyString -> Parse ParseString Clock content = Err EmptyContent) /\
  (content <> EmptyString ->
   match ParseString content with
   | Err cause => Parse ParseString Clock content = Err (NotParsed cause)
   | Ok gf =>
       exists f es,
         Parse ParseString Clock content = Ok (f, es) /\
         model.URL f = gofeed.Feed_Link gf /\
         model.Feed_Title f = gofeed.Feed_Title gf /\
         model.Feed_ID f = 0 /\
         length es = length (gofeed.Items gf) /\
         forall i item,
           gofeed.Items gf !! i = Some item ->
           es !! i = Some (convertItem (Clock i) item) /\
           model.IsRead (convertItem (Clock i) item) = false /\
           model.ID (convertItem (Clock i) item) = 0 /\
           model.FeedID (convertItem (Clock i) item) = 0
   end).
Proof.
  unfold Parse. split.
  - intros ->. reflexivity.
  - intros Hne. destruct (String.eqb_spec content ""); [contradiction|].
    destruct (ParseString content) as [gf|cause]; [|reflexivity].
    eexists _, _. split; [reflexivity|]. unfold convert. cbn.
    split; [destruct (String.eqb (gofeed.Feed_Link gf) "") eqn:Hl;
            [apply String.eqb_eq in Hl; rewrite Hl|]; reflexivity|].
    split; [reflexivity|]. split; [reflexivity|].
    split; [apply length_imap|].
    intros i item Hi. split; [|repeat split].
    rewrite (list_lookup_imap (fun i item => convertItem (Clock i) item) _ i).
    rewrite Hi. reflexivity.
Qed.

End ParserFacts.

Section CategoryFacts.

Import feed.

Lemma append_cons (c : ascii) (s t : string) :
  (String c s +:+ t = String c (s +:+ t))%string.
Proof. reflexivity. Qed.

Lemma append_nil (t : string) : (EmptyString +:+ t = t)%string.
Proof. reflexivity. Qed.

Lemma prefix_app (substr s : string) :
  String.prefix substr s = true <-> exists b, s = (substr +:+ b)%string.
Proof.
  revert s. induction substr as [|c substr IH]; intros s.
  - destruct s; cbn; (split; [intros _; eexists; reflexivity | reflexivity]).
  - destruct s as [|c' s]; cbn.
    + split; [discriminate | intros [b Hb]; discriminate].
    + destruct (Ascii.ascii_dec c c') as [<-|Hne].
      * rewrite IH. split; intros [b Hb]; exists b;
          [rewrite Hb; reflexivity | rewrite append_cons in Hb; congruence].
      * split; [discriminate|].
        intros [b Hb]. rewrite append_cons in Hb. congruence.
Qed.

(** [Contains] is the test for a substring. *)
Lemma Contains_substring (s substr : string) :
  Contains s substr = true <->
  exists a b, s = (a +:+ substr +:+ b)%string.
Proof.
  induction s as [|c s IH]; cbn [Contains].
  - rewrite orb_false_r, prefix_app. split.
    + intros [b Hb]. exists EmptyString, b. exact Hb.
    + intros (a & b & H). destruct a as [|? ?]; [|discriminate].
      exists b. exact H.
  - rewrite orb_true_iff, prefix_app, IH. split.
    + intros [[b Hb]|(a & b & H)].
      * exists EmptyString, b. exact Hb.
      * exists (String c a), b. rewrite append_cons, H. reflexivity.
    + intros (a & b & H). destruct a as [|c' a].
      * left. exists b. exact H.
      * right. exists a, b. rewrite append_cons in H. congruence.
Qed.

Lemma length_omap_le {A B : Type} (f : A -> option B) (l : list A) :
  (length (omap f l) <= length l)%nat.
Proof.
  induction l as [|x l IH]; cbn; [lia|]. destruct (f x); cbn; lia.
Qed.

(** X13: the categories of a text.  Whatever order the runtime visits
    the keyword map in, the result is, up to its order, the categories
    of the keywords that occur in the lowercased text, taken keyword by
    keyword: a category is returned if and only if one of its keywords
    occurs, it is returned once for each of its keywords that occurs,
    and there are never more than six. *)
Theorem ExtractCategories_keywords (ToLower : string -> string)
    (rangeMap : list (string * string) -> list (string * string))
    (content : string) :
  rangeMap keywords ≡ₚ keywords ->
  ExtractCategories ToLower rangeMap content ≡ₚ
    map snd (List.filter (fun kv => Contains (ToLower content) kv.1)
                         keywords) /\
  (forall category,
     category ∈ ExtractCategories ToLower rangeMap content <->
     exists keyword a b,
       (keyword, category) ∈ keywords /\
       ToLower content = (a +:+ keyword +:+ b)%string) /\
  (length (ExtractCategories ToLower rangeMap content) <= 6)%nat.
Proof.
  intros Hperm. unfold ExtractCategories. split; [|split].
  - rewrite Hperm. generalize keywords. intros l.
    induction l as [|[k c] l IH]; cbn; [reflexivity|].
    destruct (Contains (ToLower content) k); cbn; [f_equiv|]; exact IH.
  - intros category. rewrite list_elem_of_omap. split.
    + intros ([keyword c] & Hin & Hsome). cbn in Hsome.
      destruct (Contains _ keyword) eqn:Hc; [|discriminate].
      injection Hsome as ->. apply Contains_substring in Hc as (a & b & H).
      exists keyword, a, b. rewrite <- Hperm. split; [exact Hin | exact H].
    + intros (keyword & a & b & Hin & H).
      exists (keyword, category). rewrite Hperm. split; [exact Hin|].
      cbn. replace (Contains (ToLower content) keyword) with true;
        [reflexivity|].
      symmetry. apply Contains_substring. exists a, b. exact H.
  - etransitivity; [apply length_omap_le|].
    rewrite (Permutation_length Hperm). cbn. lia.
Qed.

End CategoryFacts.

(** ** OPML: reading and writing subscription lists *)

Section OutlineFacts.

Import opml.

(** Induction on an outline, with the property at hand for every
    outline nested in it. *)
Lemma Outline_forest_ind (P : Outline -> Prop) :
  (forall text title type xmlUrl category outlines,
      Forall P outlines ->
      P (mkOutline text title type xmlUrl category outlines)) ->
  forall outline, P outline.
Proof.
  intros H. fix IH 1. intros [text title type xmlUrl category outlines].
  apply H. induction outlines as [|o outlines IHo]; constructor;
    [apply IH | exact IHo].
Qed.

Lemma Forall_flat_map {A B : Type} (Q : B -> Prop) (f : A -> list B)
    (l : list A) :
  Forall (fun x => Forall Q (f x)) l -> Forall Q (List.flat_map f l).
Proof.
  induction 1 as [|x l Hx _ IH]; cbn; [constructor|].
  apply Forall_app. split; assumption.
Qed.

(** The body of the loop of [extractFeeds], as the source has it. *)
Lemma extractFeeds_cons (outline : Outline) (outlines : list Outline)
    (parentCategory : string) :
  extractFeeds (outline :: outlines) parentCategory =
    (if negb (String.eqb (XMLUrl outline) "") then
       [model.mkFeed 0 (XMLUrl outline)
          (if String.eqb (Title outline) "" then Text outline
           else Title outline)
          (if negb (String.eqb (Category outline) "") then Category outline
           else parentCategory)
          None EmptyString EmptyString]
     else []) ++
    extractFeeds (Outlines outline)
      (if String.eqb (Text outline) "" then parentCategory
       else Text outline) ++
    extractFeeds outlines parentCategory.
Proof.
  unfold extractFeeds. cbn [List.flat_map].
  destruct outline as [text title type xmlUrl category subs]. cbn.
  rewrite <- app_assoc. f_equal.
  - destruct (String.eqb xmlUrl ""); [reflexivity|]. cbn.
    destruct (String.eqb category ""); [|reflexivity]. cbn.
    destruct (String.eqb parentCategory "") eqn:Hp; [|reflexivity].
    apply String.eqb_eq in Hp. rewrite Hp. reflexivity.
  - f_equal. destruct subs; reflexivity.
Qed.

(** X14: every feed read from an OPML document can be saved as a new
    feed: it has a URL, so it passes [Validate], and it has no
    identifier, so [SaveFeed] inserts it; an outline without [xmlUrl]
    gives no feed. *)
Theorem extractFeeds_valid (outlines : list Outline) (parentCategory : string) :
  Forall (fun f => model.URL f <> EmptyString /\
                   model.Validate f = Ok tt /\
                   model.Feed_ID f = 0 /\
                   model.LastUpdated f = None)
         (extractFeeds outlines parentCategory).
Proof.
  unfold extractFeeds. apply Forall_flat_map.
  apply Forall_forall. intros outline _. revert parentCategory.
  induction outline as [text title type xmlUrl category subs IH]
    using Outline_forest_ind.
  intros parentCategory. cbn [extractOutline]. apply Forall_app. split.
  - destruct (String.eqb_spec xmlUrl ""); cbn; constructor; [|constructor].
    unfold model.Validate. cbn.
    destruct (String.eqb_spec xmlUrl ""); [contradiction|]. repeat split.
    exact n.
  - destruct (0 <? length subs)%nat; [|constructor].
    apply Forall_flat_map. eapply Forall_impl; [exact IH|].
    intros o Ho. apply Ho.
Qed.

(** X15: the feeds come in the order of the document, one for each
    outline with an [xmlUrl] at any depth, none for the others; each
    takes the [xmlUrl] as its URL and the title of the outline as its
    title, or the text when there is no title. *)
Theorem extractFeeds_document_order (outlines : list Outline)
    (parentCategory : string) :
  map (fun f => (model.URL f, model.Feed_Title f))
      (extractFeeds outlines parentCategory) =
  map (fun o => (XMLUrl o,
                 if String.eqb (Title o) "" then Text o else Title o))
      (List.filter (fun o => negb (String.eqb (XMLUrl o) ""))
                   (allOutlines outlines)).
Proof.
  unfold extractFeeds, allOutlines.
  assert (Hone : forall outline parent,
            map (fun f => (model.URL f, model.Feed_Title f))
                (extractOutline parent outline) =
            map (fun o => (XMLUrl o,
                           if String.eqb (Title o) "" then Text o
                           else Title o))
                (List.filter (fun o => negb (String.eqb (XMLUrl o) ""))
                             (outlineAndBelow outline))).
  { induction outline as [text title type xmlUrl category subs IH]
      using Outline_forest_ind.
    intros parent. cbn [extractOutline outlineAndBelow List.filter XMLUrl].
    rewrite map_app.
    assert (Hsubs : forall c,
              map (fun f => (model.URL f, model.Feed_Title f))
                  (List.flat_map (extractOutline c) subs) =
              map (fun o => (XMLUrl o,
                             if String.eqb (Title o) "" then Text o
                             else Title o))
                  (List.filter (fun o => negb (String.eqb (XMLUrl o) ""))
                               (List.flat_map outlineAndBelow subs))).
    { intros c. induction IH as [|o subs Ho _ IHs]; [reflexivity|].
      cbn [List.flat_map]. rewrite map_app, List.filter_app, map_app.
      rewrite Ho, IHs. reflexivity. }
    assert (Hkids : map (fun f => (model.URL f, model.Feed_Title f))
              (if (0 <? length subs)%nat
               then List.flat_map
                      (extractOutline (if String.eqb text "" then parent
                                       else text)) subs
               else []) =
            map (fun o => (XMLUrl o,
                           if String.eqb (Title o) "" then Text o
                           else Title o))
                (List.filter (fun o => negb (String.eqb (XMLUrl o) ""))
                             (List.flat_map outlineAndBelow subs))).
    { destruct subs as [|o subs]; [reflexivity|]. cbn [length Nat.ltb Nat.leb].
      apply Hsubs. }
    rewrite Hkids. destruct (String.eqb xmlUrl ""); reflexivity. }
  induction outlines as [|o outlines IH]; [reflexivity|].
  cbn [List.flat_map]. rewrite map_app, List.filter_app, map_app, Hone, IH.
  reflexivity.
Qed.

(** X16: a feed inside a named folder always gets a category.  When
    the category handed down is not empty, no feed extracted has an
    empty category: it has its own, or else that of the nearest
    enclosing outline with a text, or else the one handed down. *)
Theorem extractFeeds_inherits (outlines : list Outline)
    (parentCategory : string) :
  parentCategory <> EmptyString ->
  Forall (fun f => model.Category f <> EmptyString)
         (extractFeeds outlines parentCategory).
Proof.
  intros Hp. unfold extractFeeds. apply Forall_flat_map.
  apply Forall_forall. intros outline _. revert parentCategory Hp.
  induction outline as [text title type xmlUrl category subs IH]
    using Outline_forest_ind.
  intros parentCategory Hp. cbn [extractOutline]. apply Forall_app. split.
  - destruct (String.eqb xmlUrl ""); cbn; constructor; [|constructor]. cbn.
    destruct (String.eqb_spec category ""); cbn; [|assumption].
    destruct (String.eqb_spec parentCategory ""); cbn; [contradiction|].
    assumption.
  - destruct (0 <? length subs)%nat; [|constructor].
    apply Forall_flat_map. eapply Forall_impl; [exact IH|].
    intros o Ho. apply Ho.
    destruct (String.eqb_spec text ""); assumption.
Qed.

End OutlineFacts.

Section GenerateFacts.

Import opml.

(** What the first loop of [Generate] has built after a list of feeds:
    the groups and the feeds without a category make up the list, a
    group holds feeds of its own category, which is not empty, and a
    feed outside the groups has none. *)
Lemma categorize_groups (feeds : list model.Feed) :
  List.flat_map snd (map_to_list (categorize feeds).1) ++ (categorize feeds).2
    ≡ₚ feeds /\
  (forall k l, (categorize feeds).1 !! k = Some l ->
     k <> EmptyString /\ Forall (fun f => model.Category f = k) l) /\
  Forall (fun f => model.Category f = EmptyString) (categorize feeds).2.
Proof.
  induction feeds as [|feed feeds IH] using rev_ind.
  - cbn. rewrite map_to_list_empty. split; [reflexivity|].
    split; [|constructor]. intros k l H. rewrite lookup_empty in H.
    discriminate.
  - unfold categorize in *. rewrite foldl_snoc.
    destruct (foldl _ _ feeds) as [m u]. cbn [fst snd] in *.
    destruct IH as (Hperm & Hgroups & Hplain).
    destruct (String.eqb_spec (model.Category feed) "") as [Hcat|Hcat];
      cbn [fst snd].
    + split; [|split].
      * rewrite app_assoc, Hperm. reflexivity.
      * exact Hgroups.
      * apply Forall_app. split; [exact Hplain|].
        constructor; [exact Hcat | constructor].
    + split; [|split].
      * rewrite <- Hperm.
        destruct (m !! model.Category feed) as [old|] eqn:Hold; cbn.
        -- rewrite <- (insert_delete_eq m).
           rewrite map_to_list_insert by apply lookup_delete_eq.
           rewrite <- (map_to_list_delete m _ _ Hold). cbn.
           rewrite <- !app_assoc. apply Permutation_app_head.
           rewrite (Permutation_app_comm [feed]).
           rewrite <- !app_assoc. reflexivity.
        -- rewrite map_to_list_insert by exact Hold. cbn.
           rewrite (Permutation_app_comm _ [feed]). reflexivity.
      * intros k l Hl.
        destruct (decide (k = model.Category feed)) as [->|Hne].
        -- rewrite lookup_insert_eq in Hl. injection Hl as <-.
           split; [exact Hcat|]. apply Forall_app. split.
           ++ destruct (m !! model.Category feed) as [old|] eqn:Hold; cbn;
                [|constructor]. exact (proj2 (Hgroups _ _ Hold)).
           ++ constructor; [reflexivity | constructor].
        -- rewrite lookup_insert_ne in Hl by congruence.
           exact (Hgroups _ _ Hl).
      * exact Hplain.
Qed.

Lemma extract_categorized (parent : string) (l : list model.Feed) :
  Forall (fun f => model.URL f <> EmptyString) l ->
  Forall (fun f => model.Category f <> EmptyString) l ->
  List.flat_map (extractOutline parent) (map categorizedOutline l) =
    map subscription l.
Proof.
  intros Hurl Hcat. induction l as [|f l IH]; [reflexivity|].
  apply Forall_cons in Hurl as [Hu Hurl].
  apply Forall_cons in Hcat as [Hc Hcat].
  cbn [map List.flat_map]. rewrite (IH Hurl Hcat).
  unfold categorizedOutline at 1. cbn [extractOutline length Nat.ltb Nat.leb].
  destruct (String.eqb_spec (model.URL f) ""); [contradiction|].
  destruct (String.eqb_spec (model.Category f) ""); [contradiction|].
  cbn. unfold subscription.
  destruct (String.eqb (model.Feed_Title f) ""); reflexivity.
Qed.

Lemma extract_plain (l : list model.Feed) :
  Forall (fun f => model.URL f <> EmptyString) l ->
  Forall (fun f => model.Category f = EmptyString) l ->
  List.flat_map (extractOutline EmptyString) (map plainOutline l) =
    map subscription l.
Proof.
  intros Hurl Hcat. induction l as [|f l IH]; [reflexivity|].
  apply Forall_cons in Hurl as [Hu Hurl].
  apply Forall_cons in Hcat as [Hc Hcat].
  cbn [map List.flat_map]. rewrite (IH Hurl Hcat).
  unfold plainOutline at 1. cbn [extractOutline length Nat.ltb Nat.leb].
  destruct (String.eqb_spec (model.URL f) ""); [contradiction|].
  cbn. unfold subscription. rewrite Hc.
  destruct (String.eqb (model.Feed_Title f) ""); reflexivity.
Qed.

Lemma extract_groups (groups : list (string * list model.Feed)) :
  Forall (fun g => Forall (fun f => model.URL f <> EmptyString) g.2 /\
                   Forall (fun f => model.Category f <> EmptyString) g.2)
         groups ->
  List.flat_map (extractOutline EmptyString) (map categoryOutline groups) =
    map subscription (List.flat_map snd groups).
Proof.
  induction 1 as [|[k l] groups [Hurl Hcat] _ IH]; [reflexivity|].
  cbn [map List.flat_map snd]. rewrite IH, map_app. f_equal.
  unfold categoryOutline. cbn [extractOutline fst snd app].
  destruct l as [|f l]; [reflexivity|].
  cbn [map length Nat.ltb Nat.leb].
  exact (extract_categorized _ (f :: l) Hurl Hcat).
Qed.

(** The feeds of a body of category folders and plain outlines against
    the feeds it was built from, for the groups in any order. *)
Lemma body_extract (groups : list (string * list model.Feed))
    (feeds : list model.Feed) :
  groups ≡ₚ map_to_list (categorize feeds).1 ->
  Forall (fun f => model.URL f <> EmptyString) feeds ->
  extractFeeds (map categoryOutline groups ++
                map plainOutline (categorize feeds).2) EmptyString
  ≡ₚ map subscription feeds.
Proof.
  intros Hrange Hurl.
  destruct (categorize_groups feeds) as (Hperm & Hgroups & Hplain).
  destruct (categorize feeds) as [m u] eqn:Hcat.
  cbn [fst snd] in *.
  assert (Hall : forall f, f ∈ List.flat_map snd (map_to_list m) ++ u ->
                           model.URL f <> EmptyString).
  { intros f Hf. rewrite Hperm in Hf. rewrite Forall_forall in Hurl.
    exact (Hurl f Hf). }
  unfold extractFeeds. rewrite flat_map_app.
  rewrite extract_groups, extract_plain.
  - rewrite <- map_app. apply Permutation_map.
    rewrite <- Hperm. apply Permutation_app_tail.
    apply Permutation_flat_map. exact Hrange.
  - apply Forall_forall. intros f Hf. apply Hall.
    apply elem_of_app. right. exact Hf.
  - exact Hplain.
  - apply Forall_forall. intros [k l] Hg. cbn [snd].
    rewrite Hrange in Hg. pose proof Hg as Hin.
    apply elem_of_map_to_list in Hg.
    destruct (Hgroups k l Hg) as [Hk Hl]. split.
    + apply Forall_forall. intros f Hf. apply Hall.
      apply elem_of_app. left. apply list_elem_of_In, in_flat_map.
      exists (k, l). split; apply list_elem_of_In; assumption.
    + eapply Forall_impl; [exact Hl|]. cbn. intros f ->. exact Hk.
Qed.

(** The outlines of the document [Generate] builds. *)
Lemma document_body
    (rangeMap : gmap string (list model.Feed) ->
                list (string * list model.Feed))
    (dateCreated : string) (feeds : list model.Feed) :
  Body_Outlines (OPML_Body (document rangeMap dateCreated feeds)) =
    map categoryOutline (rangeMap (categorize feeds).1) ++
    map plainOutline (categorize feeds).2.
Proof. unfold document. destruct (categorize feeds). reflexivity. Qed.

(** X17: a subscription list survives export and import.  Whatever
    order the runtime visits the category map in, the feeds extracted
    from the document [Generate] builds are the feeds it was given, up
    to their order, each with its URL, title and category and nothing
    else, provided every feed has a URL; and [Generate] writes that
    document whenever its writer takes the three things it is sent. *)
Theorem document_round_trip
    (rangeMap : gmap string (list model.Feed) ->
                list (string * list model.Feed))
    (dateCreated : string) (accepts : Stage -> bool)
    (feeds : list model.Feed) :
  rangeMap (categorize feeds).1 ≡ₚ map_to_list (categorize feeds).1 ->
  Forall (fun f => model.URL f <> EmptyString) feeds ->
  extractFeeds
    (Body_Outlines (OPML_Body (document rangeMap dateCreated feeds)))
    EmptyString
  ≡ₚ map subscription feeds /\
  (accepts WriteHeader = true -> accepts Encode = true ->
   accepts WriteNewline = true ->
   Generate rangeMap dateCreated accepts feeds =
     Ok (document rangeMap dateCreated feeds)).
Proof.
  intros Hrange Hurl. split.
  - rewrite document_body. apply body_extract; assumption.
  - intros H1 H2 H3. unfold Generate. rewrite H1, H2, H3. reflexivity.
Qed.

End GenerateFacts.

(** ** The other commands *)

Section FeedCommands.

Import store main.

Variable ParseURL : string -> result gofeed.Feed string.
Variable Now : string -> nat -> time.Time.

Local Abbreviation addFeed := (main.addFeed ParseURL Now).

Lemma printJSON_Ok {A : Type} (c : Context) (v w : A) :
  printJSON c v = Ok w -> w = v /\ canWrite c = true.
Proof.
  unfold printJSON, outputJSON. destruct (canWrite c); [|discriminate].
  intros H. injection H as <-. split; reflexivity.
Qed.

Lemma printJSON_Err {A : Type} (c : Context) (v : A) (failure : Abort) :
  printJSON c v = Err failure -> failure = EncodeFailed /\ canWrite c = false.
Proof.
  unfold printJSON, outputJSON. destruct (canWrite c); [discriminate|].
  intros H. injection H as <-. split; reflexivity.
Qed.

(** The runs of [addFeed], by their outcome. *)
Lemma addFeed_cases (c : Context) (category : string) (disk : Store)
    (r : result model.Feed Abort) (s' : Store) :
  addFeed c category disk = (r, s') ->
  (exists why code, r = Err (ExitCode why code) /\ db s' = db disk /\
     (code = ExitUsageError /\ NArg c = 0%nat \/
      code = ExitDataError /\ NArg c <> 0%nat)) \/
  (NArg c <> 0%nat /\ canOpen c = true /\ Get c 0 <> EmptyString /\
   exists parsed items f,
     feed.Fetch ParseURL Now (Get c 0) = Ok (parsed, items) /\
     SaveFeed (model.mkFeed 0 (Get c 0) (model.Feed_Title parsed) category
                            None EmptyString EmptyString) disk = (Ok f, s') /\
     r = printJSON c f).
Proof.
  unfold main.addFeed. intros H.
  destruct (Nat.ltb_spec (NArg c) 1) as [Hn|Hn].
  { injection H as <- <-. left. eexists _, _. split; [reflexivity|].
    split; [reflexivity|]. left. split; [reflexivity | lia]. }
  assert (Hargs : NArg c <> 0%nat) by lia.
  unfold getStore in H. destruct (canOpen c) eqn:Hopen.
  2:{ injection H as <- <-. left. eexists _, _. split; [reflexivity|].
      split; [reflexivity|]. right. split; [reflexivity | exact Hargs]. }
  unfold model.Validate in H. cbn [model.URL] in H.
  destruct (String.eqb_spec (Get c 0) "") as [Hurl|Hurl].
  { injection H as <- <-. left. eexists _, _. split; [reflexivity|].
    split; [reflexivity|]. right. split; [reflexivity | exact Hargs]. }
  destruct (feed.Fetch ParseURL Now (Get c 0)) as [[parsed items]|msg]
    eqn:Hfetch.
  2:{ injection H as <- <-. left. eexists _, _. split; [reflexivity|].
      split; [reflexivity|]. right. split; [reflexivity | exact Hargs]. }
  destruct (SaveFeed _ disk) as [[f|e] s1] eqn:Hsave.
  - injection H as <- <-. right. split; [exact Hargs|].
    split; [reflexivity|]. split; [exact Hurl|].
    exists parsed, items, f. repeat split. exact Hsave.
  - injection H as <- <-. left. eexists _, _. split; [reflexivity|].
    split; [exact (proj1 (exec_Err _ _ _ _ Hsave))|].
    right. split; [reflexivity | exact Hargs].
Qed.

(** A successful [add] has saved the feed it reports. *)
Lemma addFeed_saved (c : Context) (category : string)
    (disk s' : Store) (f : model.Feed) :
  addFeed c category disk = (Ok f, s') ->
  NArg c <> 0%nat /\ canOpen c = true /\ canWrite c = true /\
  Get c 0 <> EmptyString /\
  exists parsed items,
    feed.Fetch ParseURL Now (Get c 0) = Ok (parsed, items) /\
    SaveFeed (model.mkFeed 0 (Get c 0) (model.Feed_Title parsed) category
                           None EmptyString EmptyString) disk = (Ok f, s').
Proof.
  intros H. apply addFeed_cases in H as [(why & code & H & _)|H];
    [discriminate|].
  destruct H as (Hargs & Hopen & Hurl & parsed & items & f0 & Hfetch & Hsave
                 & Hout).
  symmetry in Hout. apply printJSON_Ok in Hout as [-> Hwrite].
  repeat (split; [assumption|]). exists parsed, items.
  split; assumption.
Qed.

(** X18: what a successful [add] has done.  The URL is the first
    argument and is not empty, the fetch of it succeeded, and the
    table of feeds has one row more, with the next identifier, that
    URL, the title the fetched feed declares and the category of the
    flag; the feed reported is that row.  The items that came with the
    fetch are dropped: the table of entries is as it was. *)
Theorem addFeed_stores_one_feed (c : Context) (category : string)
    (disk s' : Store) (f : model.Feed) :
  addFeed c category disk = (Ok f, s') ->
  Get c 0 <> EmptyString /\
  (exists parsed items,
     feed.Fetch ParseURL Now (Get c 0) = Ok (parsed, items) /\
     f = model.mkFeed (feeds_seq (db disk) + 1) (Get c 0)
                      (model.Feed_Title parsed) category None EmptyString
                      EmptyString) /\
  feeds (db s') = feeds (db disk) ++ [rowOfFeed (model.Feed_ID f) f] /\
  entries (db s') = entries (db disk).
Proof.
  intros H.
  apply addFeed_saved in H
    as (_ & _ & _ & Hurl & parsed & items & Hfetch & Hsave).
  destruct (SaveFeed_insert (model.mkFeed 0 _ _ _ _ _ _) _ _ _ eq_refl Hsave)
    as (Hf & Hrows & Hentries & _ & _).
  split; [exact Hurl|]. split.
  - exists parsed, items. split; [exact Hfetch | exact Hf].
  - split; [|exact Hentries]. rewrite Hrows, Hf. reflexivity.
Qed.

(** X19: what a failed [add] has done.  When it exits with a code, the
    code is the usage code if and only if there was no argument and
    the data code otherwise, and the database is as it was: a URL that
    is empty, cannot be fetched or is subscribed already is not
    stored.  When only the report could not be written, the feed has
    been stored all the same. *)
Theorem addFeed_failure (c : Context) (category : string) (disk s' : Store)
    (failure : Abort) :
  addFeed c category disk = (Err failure, s') ->
  match failure with
  | ExitCode why code =>
      db s' = db disk /\
      (code = ExitUsageError /\ NArg c = 0%nat \/
       code = ExitDataError /\ NArg c <> 0%nat)
  | EncodeFailed =>
      canWrite c = false /\
      exists row, feeds (db s') = feeds (db disk) ++ [row] /\
                  frow_url row = Get c 0
  end.
Proof.
  intros H. apply addFeed_cases in H as [(why & code & H & Hdb & Hcode)|H].
  - injection H as ->. split; assumption.
  - destruct H as (_ & _ & _ & parsed & items & f0 & _ & Hsave & Hout).
    symmetry in Hout. apply printJSON_Err in Hout as [-> Hw].
    split; [exact Hw|].
    apply exec_Ok in Hsave as (Hsave & _ & _).
    unfold sqlSaveFeed in Hsave. cbn [model.Feed_ID model.URL Z.eqb] in Hsave.
    destruct (urlTaken None _ _); [discriminate|].
    injection Hsave as _ Hdb. eexists. rewrite <- Hdb. cbn.
    split; reflexivity.
Qed.

(** X20: a feed is subscribed once.  After a successful [add], adding
    the same URL again, under whatever category, is refused with the
    data code and the constraint error of the store, and changes
    nothing; and [feeds] lists the feed the first [add] reported. *)
Theorem addFeed_twice (c : Context) (category category' : string)
    (disk s1 : Store) (f : model.Feed) :
  addFeed c category disk = (Ok f, s1) ->
  head (driver s1) <> Some true ->
  addFeed c category' s1 =
    (Err (ExitCode (StoreError ErrConstraint) ExitDataError),
     mkStore (db s1) (tail (driver s1))) /\
  exists l, (listFeeds c s1).1 = Ok l /\ In f l.
Proof.
  intros H Hq.
  apply addFeed_saved in H
    as (Hargs & Hopen & Hwrite & Hurl & parsed & items & Hfetch & Hsave).
  destruct (SaveFeed_insert (model.mkFeed 0 _ _ _ _ _ _) _ _ _ eq_refl Hsave)
    as (Hf & Hrows & _ & _ & _).
  split.
  - unfold main.addFeed.
    destruct (Nat.ltb_spec (NArg c) 1) as [Hn|Hn]; [lia|].
    unfold getStore. rewrite Hopen.
    unfold model.Validate. cbn [model.URL].
    destruct (String.eqb_spec (Get c 0) ""); [contradiction|].
    rewrite Hfetch. unfold SaveFeed. rewrite (exec_quiet _ _ Hq).
    unfold sqlSaveFeed. cbn [model.Feed_ID model.URL Z.eqb].
    rewrite urlTaken_In; [reflexivity|].
    rewrite Hrows, map_app. apply in_or_app. right. left. reflexivity.
  - unfold listFeeds, getStore. rewrite Hopen.
    unfold GetAllFeeds. rewrite (exec_quiet _ _ Hq).
    unfold sqlGetAllFeeds, printJSON, outputJSON. rewrite Hwrite. cbn.
    eexists. split; [reflexivity|].
    rewrite Hrows, map_app. apply in_or_app. right. left.
    rewrite Hf. reflexivity.
Qed.

End FeedCommands.

Section EntryCommands.

Import query store main.

Variable Sscanf : string -> option Z.

Local Abbreviation removeFeed := (main.removeFeed Sscanf).
Local Abbreviation showEntry := (main.showEntry Sscanf).

(** [remove] with an identifier it can scan, on a store that opens
    behind a driver that does not fail. *)
Lemma removeFeed_run (c : Context) (disk : Store) (feedID : Z) :
  NArg c <> 0%nat -> Sscanf (Get c 0) = Some feedID ->
  canOpen c = true -> quiet disk ->
  removeFeed c disk =
    (printJSON c feedID,
     mkStore (mkDB (List.filter (fun r => negb (frow_id r =? feedID))
                                (feeds (db disk)))
                   (feeds_seq (db disk)) (entries (db disk))
                   (entries_seq (db disk)))
             (tail (driver disk))).
Proof.
  intros Hargs Hscan Hopen Hq. unfold main.removeFeed.
  destruct (Nat.ltb_spec (NArg c) 1) as [Hn|Hn]; [lia|].
  rewrite Hscan. unfold getStore. rewrite Hopen.
  unfold DeleteFeed. rewrite (exec_quiet _ _ (quiet_head _ Hq)).
  reflexivity.
Qed.

(** X21: [remove] does not tell a feed it deleted from one that was
    never there.  With an identifier it can scan it reports success
    for any identifier, subscribed or not; afterwards no feed has that
    identifier, and every other feed reads as before. *)
Theorem removeFeed_any_identifier (c : Context) (disk : Store)
    (feedID : Z) :
  NArg c <> 0%nat -> Sscanf (Get c 0) = Some feedID ->
  canOpen c = true -> canWrite c = true -> quiet disk ->
  (removeFeed c disk).1 = Ok feedID /\
  (GetFeed feedID (removeFeed c disk).2).1 = Err ErrNotFound /\
  (forall id, id <> feedID ->
     (GetFeed id (removeFeed c disk).2).1 = (GetFeed id disk).1).
Proof.
  intros Hargs Hscan Hopen Hwrite Hq.
  rewrite (removeFeed_run c disk feedID Hargs Hscan Hopen Hq).
  cbn [fst snd]. unfold printJSON, outputJSON. rewrite Hwrite.
  split; [reflexivity|].
  assert (Hq' : head (tail (driver disk)) <> Some true).
  { apply (quiet_head (mkStore (db disk) (tail (driver disk)))).
    apply (quiet_tail disk); [exact Hq | reflexivity]. }
  unfold GetFeed. split.
  - rewrite exec_quiet by exact Hq'. unfold sqlGetFeed. cbn [db feeds].
    rewrite (find_filter_other frow_id feedID feedID), Z.eqb_refl.
    reflexivity.
  - intros id Hid. rewrite exec_quiet by exact Hq'.
    rewrite (exec_quiet _ _ (quiet_head _ Hq)).
    unfold sqlGetFeed. cbn [db feeds].
    rewrite (find_filter_other frow_id feedID id).
    destruct (Z.eqb_spec id feedID); [contradiction|].
    destruct (find _ (feeds (db disk))); reflexivity.
Qed.

(** X22: removing a feed does not remove its entries.  The connection
    never turns the enforcement of foreign keys on, so the ON DELETE
    CASCADE of the schema does nothing: after [remove] the table of
    entries is what it was, and every listing returns what it returned
    before, the entries of the removed feed among them. *)
Theorem removeFeed_keeps_entries (c : Context) (disk : Store) (feedID : Z)
    (opts : QueryOptions) :
  NArg c <> 0%nat -> Sscanf (Get c 0) = Some feedID ->
  canOpen c = true -> quiet disk ->
  entries (db (removeFeed c disk).2) = entries (db disk) /\
  (GetEntries opts (removeFeed c disk).2).1 = (GetEntries opts disk).1.
Proof.
  intros Hargs Hscan Hopen Hq.
  rewrite (removeFeed_run c disk feedID Hargs Hscan Hopen Hq).
  cbn [fst snd db entries]. split; [reflexivity|].
  assert (Hq' : head (tail (driver disk)) <> Some true).
  { apply (quiet_head (mkStore (db disk) (tail (driver disk)))).
    apply (quiet_tail disk); [exact Hq | reflexivity]. }
  unfold GetEntries. rewrite exec_quiet by exact Hq'.
  rewrite (exec_quiet _ _ (quiet_head _ Hq)).
  unfold sqlGetEntries. cbn [db entries].
  destruct (_ && _); reflexivity.
Qed.

(** X23: [show] by its outcome.  An argument that cannot be scanned is
    a usage error, found before the store is opened.  An identifier
    that can: the entry of that identifier when a row has it, and the
    data code with the not-found error of the store when none has; in
    both cases the database is as it was. *)
Theorem showEntry_outcomes (c : Context) (disk : Store) :
  NArg c <> 0%nat ->
  match Sscanf (Get c 0) with
  | None => showEntry c disk = (Err (ExitCode InvalidID ExitUsageError), disk)
  | Some id =>
      canOpen c = true -> canWrite c = true ->
      head (driver disk) <> Some true ->
      db (showEntry c disk).2 = db disk /\
      match (showEntry c disk).1 with
      | Ok entry =>
          model.ID entry = id /\
          exists r, In r (entries (db disk)) /\ entry = entryOfRow r
      | Err failure =>
          failure = ExitCode (StoreError ErrNotFound) ExitDataError /\
          ~ In id (map row_id (entries (db disk)))
      end
  end.
Proof.
  intros Hargs. unfold main.showEntry.
  destruct (Nat.ltb_spec (NArg c) 1) as [Hn|Hn]; [lia|].
  destruct (Sscanf (Get c 0)) as [id|]; [|reflexivity].
  intros Hopen Hwrite Hq. unfold getStore. rewrite Hopen.
  unfold GetEntry. rewrite (exec_quiet _ _ Hq). unfold sqlGetEntry.
  destruct (find _ (entries (db disk))) as [r|] eqn:Hfind; cbn [fst snd db].
  - unfold printJSON, outputJSON. rewrite Hwrite.
    split; [reflexivity|]. apply find_some in Hfind as [Hr Hid].
    apply Z.eqb_eq in Hid. split; [exact Hid|].
    exists r. split; [exact Hr | reflexivity].
  - split; [reflexivity|]. split; [reflexivity|].
    intros Hin. apply in_map_iff in Hin as (r & Hr & Hin).
    pose proof (find_none _ _ Hfind r Hin) as Hne. cbn in Hne.
    rewrite Hr, Z.eqb_refl in Hne. discriminate.
Qed.

End EntryCommands.

Section ListCommand.

Import query store main.

(** The options [BuildQueryOptions] returns carry the flags as given. *)
Lemma BuildQueryOptions_flags (now : time.Time) (limit offset : Z)
    (unread : bool) (since tag : string) :
  exists bound,
    (BuildQueryOptions now limit offset unread since tag).1 =
      mkQueryOptions limit offset unread tag bound.
Proof.
  unfold BuildQueryOptions. destruct (negb _); [|eexists; reflexivity].
  destruct (SinceToUnixTime now since); eexists; reflexivity.
Qed.

(** The statement of [GetEntries] does not mention the tag. *)
Lemma sqlGetEntries_tag (limit offset : Z) (unread : bool) (tag tag' : string)
    (bound : option Z) (d : DB) :
  sqlGetEntries (mkQueryOptions limit offset unread tag bound) d =
    sqlGetEntries (mkQueryOptions limit offset unread tag' bound) d.
Proof. reflexivity. Qed.

Lemma exec_ext {A : Type} (stmt stmt' : DB -> result (A * DB) Error)
    (s : Store) :
  stmt (db s) = stmt' (db s) -> exec stmt s = exec stmt' s.
Proof.
  intros H. unfold exec. destruct (driver s) as [|[|] script];
    rewrite ?H; reflexivity.
Qed.

(** X24: an offset needs a limit.  [GetEntries] adds OFFSET to its
    statement for a positive offset and LIMIT only for a positive
    limit, and SQLite takes OFFSET only after LIMIT: [list] with a
    positive offset and a limit that is zero or negative fails with
    the data code, whatever the table holds. *)
Theorem listEntries_offset_needs_limit (c : Context) (now : time.Time)
    (limit offset : Z) (unread : bool) (since tag : string) (disk : Store) :
  canOpen c = true -> head (driver disk) <> Some true ->
  limit <= 0 -> 0 < offset ->
  (BuildQueryOptions now limit offset unread since tag).2 = None ->
  listEntries c now limit offset unread since tag disk =
    (Err (ExitCode (StoreError ErrSyntax) ExitDataError),
     mkStore (db disk) (tail (driver disk))).
Proof.
  intros Hopen Hq Hlimit Hoffset Hbuild. unfold listEntries, getStore.
  rewrite Hopen.
  destruct (BuildQueryOptions_flags now limit offset unread since tag)
    as [bound Hopts].
  destruct (BuildQueryOptions now limit offset unread since tag)
    as [opts err]. cbn [fst snd] in *. subst opts err.
  unfold GetEntries. rewrite (exec_quiet _ _ Hq).
  unfold sqlGetEntries. cbn [Limit Offset].
  destruct (Z.leb_spec limit 0); [|lia].
  destruct (Z.ltb_spec 0 offset); [|lia]. reflexivity.
Qed.

(** X25: the tag filter filters nothing.  [list] returns the same
    report and leaves the same store whatever [--tag] says, and no
    entry it lists has any tag: the store neither reads the tag of the
    options nor the tags of an entry. *)
Theorem listEntries_ignores_tag (c : Context) (now : time.Time)
    (limit offset : Z) (unread : bool) (since tag tag' : string)
    (disk : Store) :
  listEntries c now limit offset unread since tag disk =
    listEntries c now limit offset unread since tag' disk /\
  (forall report,
     (listEntries c now limit offset unread since tag disk).1 = Ok report ->
     count report = length (listed report) /\
     forall entry t, In entry (listed report) -> model.HasTag entry t = false).
Proof.
  split.
  - unfold listEntries. destruct (getStore c disk) as [s|]; [|reflexivity].
    unfold BuildQueryOptions. destruct (negb _).
    + destruct (SinceToUnixTime now since) as [bound|e]; [|reflexivity].
      unfold GetEntries.
      rewrite (exec_ext _ _ s
                 (sqlGetEntries_tag limit offset unread tag tag' (Some bound)
                                    (db s))).
      reflexivity.
    + unfold GetEntries.
      rewrite (exec_ext _ _ s
                 (sqlGetEntries_tag limit offset unread tag tag' None (db s))).
      reflexivity.
  - intros report. unfold listEntries.
    destruct (getStore c disk) as [s|]; [|discriminate].
    destruct (BuildQueryOptions now limit offset unread since tag)
      as [opts [err|]]; [discriminate|].
    destruct (GetEntries opts s) as [[entries|e] s'] eqn:Hget;
      [|discriminate].
    cbn [fst]. intros H. apply printJSON_Ok in H as [-> _].
    cbn [count listed]. split; [reflexivity|].
    intros entry t Hin. apply exec_Ok in Hget as (Hget & _ & _).
    unfold sqlGetEntries in Hget. destruct (_ && _); [discriminate|].
    injection Hget as <- _. apply in_map_iff in Hin as (r & <- & _).
    reflexivity.
Qed.

End ListCommand.

Section MarkAll.

Import query store main.

Lemma quiet_exec {A : Type} (stmt : DB -> result (A * DB) Error) (s : Store) :
  quiet s -> quiet (exec stmt s).2.
Proof.
  intros Hq. apply (quiet_tail s); [exact Hq|].
  rewrite (exec_quiet _ _ (quiet_head _ Hq)).
  destruct (stmt (db s)) as [[a d']|e]; reflexivity.
Qed.

Lemma markAllLoop_quiet (es : list model.Entry) (s : Store) :
  quiet s -> quiet (markAllLoop es s).
Proof.
  revert s. induction es as [|e es IH]; intros s Hq; [exact Hq|].
  cbn [markAllLoop]. apply IH. apply quiet_exec. exact Hq.
Qed.

(** Behind a driver that does not fail every identifier is marked. *)
Lemma markedIds_quiet (ids : list Z) (s : Store) :
  quiet s -> markedIds ids s = ids.
Proof.
  revert s. induction ids as [|id ids IH]; intros s Hq; [reflexivity|].
  cbn [markedIds]. pose proof (quiet_exec (sqlMarkEntryRead id true) s Hq)
    as Hq'.
  unfold MarkEntryRead in *.
  rewrite (exec_quiet _ _ (quiet_head _ Hq)) in *.
  unfold sqlMarkEntryRead in *. cbn [is_ok snd] in *.
  rewrite (IH _ Hq'). reflexivity.
Qed.

Lemma filter_map_none {A : Type} (p : A -> bool) (g : A -> A) (l : list A) :
  (forall r, In r l -> p (g r) = false) -> List.filter p (map g l) = [].
Proof.
  induction l as [|r l IH]; intros Hall; [reflexivity|].
  cbn [map List.filter]. rewrite (Hall r (or_introl eq_refl)).
  apply IH. intros r' Hr'. apply Hall. right. exact Hr'.
Qed.

(** X26: after [mark-all-read] nothing is unread.  Behind a driver
    that does not fail, every listing of the unread entries taken
    after the command is empty. *)
Theorem markAllRead_leaves_nothing_unread (c : Context) (disk : Store)
    (opts : QueryOptions) :
  canOpen c = true -> quiet disk ->
  UnreadOnly opts = true -> (0 < Offset opts -> 0 < Limit opts) ->
  (GetEntries opts (markAllRead c disk).2).1 = Ok [].
Proof.
  intros Hopen Hq Hunread Hwindow. unfold markAllRead, getStore.
  rewrite Hopen.
  destruct (GetEntries_unread disk (quiet_head _ Hq)) as (rows & Hget & Hrows).
  rewrite Hget. cbn [snd].
  set (s1 := mkStore (db disk) (tail (driver disk))).
  assert (Hq1 : quiet s1) by (apply (quiet_tail disk); [exact Hq | reflexivity]).
  pose proof (markAllLoop_quiet (map entryOfRow rows) s1 Hq1) as Hq2.
  pose proof (markAllLoop_rows (map entryOfRow rows) s1) as Hafter.
  rewrite (markedIds_quiet _ _ Hq1) in Hafter.
  unfold GetEntries. rewrite (exec_quiet _ _ (quiet_head _ Hq2)).
  unfold sqlGetEntries. rewrite Hafter, Hunread. cbn [negb orb db entries s1].
  assert (Hnone : List.filter (fun r => row_is_read r =? 0)
                    (map (markSet (map model.ID (map entryOfRow rows)))
                         (entries (db disk))) = []).
  { assert (Hall : forall r, In r (entries (db disk)) ->
                     (row_is_read
                        (markSet (map model.ID (map entryOfRow rows)) r) =? 0)
                     = false).
    { intros r Hr. unfold markSet.
      destruct (existsb _ _) eqn:Hex; [reflexivity|].
      destruct (Z.eqb_spec (row_is_read r) 0) as [Hzero|]; [|reflexivity].
      assert (Hin : In r rows).
      { apply list_elem_of_In. rewrite Hrows. apply list_elem_of_In.
        apply filter_In. split; [exact Hr|]. rewrite Hzero. reflexivity. }
      assert (Hid : In (row_id r) (map model.ID (map entryOfRow rows))).
      { rewrite map_map. apply in_map_iff. exists r.
        split; [reflexivity | exact Hin]. }
      apply In_existsb in Hid. congruence. }
    apply filter_map_none. exact Hall. }
  rewrite Hnone. cbn [List.filter].
  change (merge_sort newerFirst []) with (@nil EntryRow).
  destruct (Z.leb_spec (Limit opts) 0) as [Hl|Hl];
    destruct (Z.ltb_spec 0 (Offset opts)) as [Ho|Ho]; cbn [andb];
    try (specialize (Hwindow Ho); lia);
    destruct (0 <? Limit opts); rewrite ?drop_nil, ?take_nil; reflexivity.
Qed.

End MarkAll.

Section ImportCommand.

Import store main.

Variable Open : string -> option string.
Variable Decode : string -> result opml.OPML string.

Local Abbreviation importOPML := (main.importOPML Open Decode).

Lemma importLoop_counts (newFeeds : list model.Feed) (i k : nat)
    (errs : list (string * Error)) (s : Store)
    (i' k' : nat) (errs' : list (string * Error)) (s' : Store) :
  Forall (fun f => model.Feed_ID f = 0) newFeeds ->
  importLoop newFeeds i k errs s = (i', k', errs', s') ->
  (i' + k' = i + k + length newFeeds)%nat /\
  (i <= i')%nat /\ (k <= k')%nat /\
  (length errs' + k = length errs + k')%nat /\
  (length (feeds (db s')) + i = length (feeds (db s)) + i')%nat /\
  entries (db s') = entries (db s).
Proof.
  intros Hnew. revert i k errs s.
  induction Hnew as [|f newFeeds Hf _ IH]; intros i k errs s H.
  - cbn in H. injection H as <- <- <- <-. cbn [length].
    repeat split; first [lia | reflexivity].
  - cbn [importLoop] in H.
    destruct (SaveFeed f s) as [[f'|e] s1] eqn:Hsave.
    + apply IH in H as (H1 & H2 & H3 & H4 & H5 & H6).
      destruct (SaveFeed_insert _ _ _ _ Hf Hsave) as (_ & Hrows & Hent & _ & _).
      rewrite Hrows, length_app in H5. cbn [length] in *.
      rewrite Hent in H6. repeat split; try lia. exact H6.
    + apply IH in H as (H1 & H2 & H3 & H4 & H5 & H6).
      destruct (exec_Err _ _ _ _ Hsave) as [Hdb _].
      rewrite Hdb in H5, H6. rewrite length_app in H4. cbn [length] in *.
      repeat split; try lia. exact H6.
Qed.

Lemma extractFeeds_new (outlines : list opml.Outline) (parent : string) :
  Forall (fun f => model.Feed_ID f = 0) (opml.extractFeeds outlines parent).
Proof.
  unfold opml.extractFeeds. apply Forall_flat_map.
  apply Forall_forall. intros outline _. revert parent.
  induction outline as [text title type xmlUrl category subs IH]
    using Outline_forest_ind.
  intros parent. cbn [opml.extractOutline]. apply Forall_app. split.
  - destruct (String.eqb xmlUrl ""); cbn; repeat constructor.
  - destruct (0 <? length subs)%nat; [|constructor].
    apply Forall_flat_map. eapply Forall_impl; [exact IH|].
    intros o Ho. apply Ho.
Qed.

(** The runs of [import] that get as far as the loop. *)
Lemma importOPML_Ok (c : Context) (disk s' : Store)
    (r : result Import Abort) :
  importOPML c disk = (r, s') ->
  (exists why code, r = Err (ExitCode why code) /\ s' = disk) \/
  exists file doc i k errs,
    Open (Get c 0) = Some file /\ Decode file = Ok doc /\
    canOpen c = true /\
    importLoop (opml.extractFeeds (opml.Body_Outlines (opml.OPML_Body doc))
                                  EmptyString) 0 0 [] disk = (i, k, errs, s') /\
    r = printJSON c
          (mkImport i k
             (length (opml.extractFeeds
                        (opml.Body_Outlines (opml.OPML_Body doc)) EmptyString))
             errs).
Proof.
  unfold main.importOPML. intros H.
  destruct (NArg c <? 1)%nat.
  { injection H as <- <-. left. eexists _, _. split; reflexivity. }
  destruct (Open (Get c 0)) as [file|] eqn:Hopen.
  2:{ injection H as <- <-. left. eexists _, _. split; reflexivity. }
  unfold opml.Parse in H. destruct (Decode file) as [doc|msg] eqn:Hdoc.
  2:{ injection H as <- <-. left. eexists _, _. split; reflexivity. }
  unfold getStore in H. destruct (canOpen c) eqn:Hcan.
  2:{ injection H as <- <-. left. eexists _, _. split; reflexivity. }
  destruct (importLoop _ 0 0 [] disk) as [[[i k] errs] s1] eqn:Hloop.
  injection H as <- <-. right. exists file, doc, i, k, errs.
  repeat split; try assumption.
Qed.

(** X27: the report of [import] adds up.  Every feed of the file is
    either imported or skipped, each skipped feed has its line in the
    list of errors, the table of feeds has grown by the number
    imported, and the table of entries is as it was. *)
Theorem importOPML_counts (c : Context) (disk s' : Store) (report : Import) :
  importOPML c disk = (Ok report, s') ->
  (imported report + skipped report = total report)%nat /\
  length (errors report) = skipped report /\
  length (feeds (db s')) =
    (length (feeds (db disk)) + imported report)%nat /\
  entries (db s') = entries (db disk).
Proof.
  intros H. apply importOPML_Ok in H as [(why & code & H & _)|H];
    [discriminate|].
  destruct H as (file & doc & i & k & errs & _ & _ & _ & Hloop & Hout).
  symmetry in Hout. apply printJSON_Ok in Hout as [-> _].
  cbn [imported skipped total errors].
  apply importLoop_counts in Hloop as (H1 & H2 & H3 & H4 & H5 & H6);
    [|apply extractFeeds_new].
  cbn [length] in *. repeat split; try lia. exact H6.
Qed.

(** Behind a driver that does not fail, every feed the loop has gone
    through has its URL in the table, and the URLs that were there
    stay. *)
Lemma importLoop_subscribed (newFeeds : list model.Feed) (i k : nat)
    (errs : list (string * Error)) (s : Store)
    (i' k' : nat) (errs' : list (string * Error)) (s' : Store) :
  Forall (fun f => model.Feed_ID f = 0) newFeeds -> quiet s ->
  importLoop newFeeds i k errs s = (i', k', errs', s') ->
  quiet s' /\
  (forall url, In url (map frow_url (feeds (db s))) ->
               In url (map frow_url (feeds (db s')))) /\
  (forall f, In f newFeeds -> In (model.URL f) (map frow_url (feeds (db s')))).
Proof.
  intros Hnew. revert i k errs s.
  induction Hnew as [|f newFeeds Hf _ IH]; intros i k errs s Hq H.
  - cbn in H. injection H as <- <- <- <-.
    split; [exact Hq|]. split; [tauto | intros f []].
  - cbn [importLoop] in H.
    pose proof (quiet_exec (sqlSaveFeed f) s Hq) as Hq1.
    fold (SaveFeed f s) in Hq1.
    destruct (SaveFeed f s) as [[f'|e] s1] eqn:Hsave; cbn [snd] in Hq1.
    + apply (IH _ _ _ _ Hq1) in H as (Hq' & Hkeep & Hall).
      destruct (SaveFeed_insert _ _ _ _ Hf Hsave) as (_ & Hrows & _ & _ & _).
      split; [exact Hq'|]. split.
      * intros url Hurl. apply Hkeep. rewrite Hrows, map_app.
        apply in_or_app. left. exact Hurl.
      * intros g [<-|Hg]; [|exact (Hall g Hg)].
        apply Hkeep. rewrite Hrows, map_app. apply in_or_app. right.
        left. reflexivity.
    + apply (IH _ _ _ _ Hq1) in H as (Hq' & Hkeep & Hall).
      pose proof Hsave as Herr. unfold SaveFeed in Herr.
      rewrite (exec_quiet _ _ (quiet_head _ Hq)) in Herr.
      unfold sqlSaveFeed in Herr. rewrite Hf in Herr. cbn in Herr.
      destruct (urlTaken None (model.URL f) (feeds (db s))) eqn:Htaken;
        [|discriminate].
      injection Herr as _ <-. cbn [db] in *.
      split; [exact Hq'|]. split; [exact Hkeep|].
      intros g [<-|Hg]; [|exact (Hall g Hg)].
      apply Hkeep. unfold urlTaken in Htaken.
      apply existsb_exists in Htaken as (r & Hr & Heq).
      rewrite andb_true_r in Heq. apply String.eqb_eq in Heq.
      apply in_map_iff. exists r. split; assumption.
Qed.

(** When every URL is in the table already, the loop skips every feed
    and changes nothing. *)
Lemma importLoop_skips (newFeeds : list model.Feed) (i k : nat)
    (errs : list (string * Error)) (s : Store)
    (i' k' : nat) (errs' : list (string * Error)) (s' : Store) :
  Forall (fun f => model.Feed_ID f = 0) newFeeds -> quiet s ->
  (forall f, In f newFeeds -> In (model.URL f) (map frow_url (feeds (db s)))) ->
  importLoop newFeeds i k errs s = (i', k', errs', s') ->
  i' = i /\ k' = (k + length newFeeds)%nat /\ db s' = db s /\
  errs' = errs ++ map (fun f => (model.URL f, ErrConstraint)) newFeeds.
Proof.
  intros Hnew. revert i k errs s.
  induction Hnew as [|f newFeeds Hf _ IH]; intros i k errs s Hq Hall H.
  - cbn in H. injection H as <- <- <- <-. cbn. rewrite app_nil_r.
    repeat split; lia.
  - cbn [importLoop] in H. unfold SaveFeed in H.
    rewrite (exec_quiet _ _ (quiet_head _ Hq)) in H.
    unfold sqlSaveFeed in H. rewrite Hf in H. cbn in H.
    rewrite (urlTaken_In _ _ (Hall f (or_introl eq_refl))) in H.
    apply IH in H as (-> & -> & Hdb & ->).
    + cbn [length map db] in *. rewrite <- app_assoc.
      repeat split; [lia | exact Hdb].
    + apply (quiet_tail s); [exact Hq | reflexivity].
    + intros g Hg. cbn [db]. apply Hall. right. exact Hg.
Qed.

(** X28: importing a file a second time imports nothing.  After an
    [import] behind a driver that does not fail, every URL of the file
    is subscribed; importing the same file again skips every feed with
    the constraint error of the store and leaves the database as it
    was. *)
Theorem importOPML_twice (c : Context) (disk s1 : Store) (report : Import) :
  quiet disk -> importOPML c disk = (Ok report, s1) ->
  exists report',
    (importOPML c s1).1 = Ok report' /\
    imported report' = 0%nat /\
    skipped report' = total report /\
    total report' = total report /\
    Forall (fun e => e.2 = ErrConstraint) (errors report') /\
    db (importOPML c s1).2 = db s1.
Proof.
  intros Hq H. pose proof H as Hrun.
  apply importOPML_Ok in H as [(why & code & H & _)|H]; [discriminate|].
  destruct H as (file & doc & i & k & errs & Hfile & Hdoc & Hcan & Hloop & Hout).
  symmetry in Hout. apply printJSON_Ok in Hout as [-> Hwrite].
  cbn [total].
  set (newFeeds := opml.extractFeeds _ _) in *.
  pose proof (extractFeeds_new (opml.Body_Outlines (opml.OPML_Body doc))
                EmptyString) as Hnew. fold newFeeds in Hnew.
  destruct (importLoop_subscribed _ _ _ _ _ _ _ _ _ Hnew Hq Hloop)
    as (Hq1 & _ & Hall).
  destruct (importLoop newFeeds 0 0 [] s1) as [[[i2 k2] errs2] s2] eqn:Hloop2.
  destruct (importLoop_skips _ _ _ _ _ _ _ _ _ Hnew Hq1 Hall Hloop2)
    as (-> & -> & Hdb & ->).
  assert (Hsecond : importOPML c s1 =
            (Ok (mkImport 0 (length newFeeds) (length newFeeds)
                   (map (fun f => (model.URL f, ErrConstraint)) newFeeds)),
             s2)).
  { unfold main.importOPML.
    destruct (Nat.ltb_spec (NArg c) 1) as [Hn|Hn].
    { unfold main.importOPML in Hrun.
      destruct (Nat.ltb_spec (NArg c) 1); [discriminate | lia]. }
    rewrite Hfile. unfold opml.Parse. rewrite Hdoc.
    unfold getStore. rewrite Hcan. fold newFeeds. rewrite Hloop2.
    unfold printJSON, outputJSON. rewrite Hwrite. reflexivity. }
  rewrite Hsecond. cbn [fst snd]. eexists. split; [reflexivity|].
  cbn [imported skipped total errors].
  repeat split; try reflexivity; [|exact Hdb].
  apply Forall_forall. intros e He.
  apply list_elem_of_In, in_map_iff in He as (f & <- & _). reflexivity.
Qed.

End ImportCommand.

Section ExportCommand.

Import store main.

Variable Open : string -> option string.
Variable Decode : string -> result opml.OPML string.
Variable rangeMap :
  gmap string (list model.Feed) -> list (string * list model.Feed).
Variable dateCreated : string.
Variable Create : string -> bool.
Variable accepts : string -> opml.Stage -> bool.

Local Abbreviation importOPML := (main.importOPML Open Decode).
Local Abbreviation exportOPML :=
  (main.exportOPML rangeMap dateCreated Create accepts).

(** What a row keeps on its way through an OPML document. *)
Local Abbreviation subscribed :=
  (fun r : FeedRow => (frow_url r, frow_title r, frow_category r)).

Lemma urlTaken_notin (url : string) (rows : list FeedRow) :
  ~ In url (map frow_url rows) -> urlTaken None url rows = false.
Proof.
  intros Hnot. destruct (urlTaken None url rows) eqn:H; [|reflexivity].
  destruct Hnot. unfold urlTaken in H.
  apply existsb_exists in H as (r & Hr & Heq).
  rewrite andb_true_r in Heq. apply String.eqb_eq in Heq.
  apply in_map_iff. exists r. split; assumption.
Qed.

(** Feeds with URLs that differ from each other and from those of the
    table are all imported, in their order. *)
Lemma importLoop_fresh (newFeeds : list model.Feed) (i k : nat)
    (errs : list (string * Error)) (s : Store) :
  Forall (fun f => model.Feed_ID f = 0) newFeeds ->
  NoDup (map model.URL newFeeds) -> quiet s ->
  (forall f, In f newFeeds ->
             ~ In (model.URL f) (map frow_url (feeds (db s)))) ->
  exists s',
    importLoop newFeeds i k errs s =
      ((i + length newFeeds)%nat, k, errs, s') /\
    map subscribed (feeds (db s')) =
      map subscribed (feeds (db s)) ++
      map (fun f => (model.URL f, model.Feed_Title f, model.Category f))
          newFeeds.
Proof.
  intros Hnew. revert i s.
  induction Hnew as [|f newFeeds Hf _ IH]; intros i s Hnd Hq Hfresh.
  - exists s. cbn. rewrite Nat.add_0_r, app_nil_r. split; reflexivity.
  - cbn [map] in Hnd. apply NoDup_cons_In in Hnd as [Hfirst Hnd].
    cbn [importLoop]. unfold SaveFeed.
    rewrite (exec_quiet _ _ (quiet_head _ Hq)).
    unfold sqlSaveFeed. rewrite Hf. cbn [Z.eqb].
    rewrite (urlTaken_notin _ _ (Hfresh f (or_introl eq_refl))).
    set (s1 := mkStore _ (tail (driver s))).
    destruct (IH (S i) s1 Hnd) as (s' & Hloop & Hrows).
    + apply (quiet_tail s); [exact Hq | reflexivity].
    + intros g Hg. unfold s1. cbn [db feeds]. rewrite map_app.
      intros Hin. apply in_app_or in Hin as [Hin|[Heq|[]]].
      * exact (Hfresh g (or_intror Hg) Hin).
      * apply Hfirst. cbn in Heq. rewrite Heq.
        apply in_map. exact Hg.
    + exists s'. split.
      * rewrite Hloop. cbn [length]. do 3 f_equal. lia.
      * rewrite Hrows. unfold s1. cbn [db feeds map].
        rewrite map_app, <- app_assoc. reflexivity.
Qed.

(** A successful [export]: the feeds of the table, made into the
    document; the store is read, not written. *)
Lemma exportOPML_Ok (c : Context) (output : string) (disk s1 : Store)
    (ex : Export) :
  exportOPML c output disk = (Ok ex, s1) ->
  db s1 = db disk /\
  exported ex =
    opml.document rangeMap dateCreated (map feedOfRow (feeds (db disk))) /\
  status ex = if String.eqb output ""
              then None
              else Some (output, length (feeds (db disk))).
Proof.
  unfold main.exportOPML. intros H.
  destruct (getStore c disk) as [s|] eqn:Hs; [|discriminate].
  unfold getStore in Hs. destruct (canOpen c); [|discriminate].
  injection Hs as <-.
  destruct (GetAllFeeds disk) as [[l|e] s0] eqn:Hget; [|discriminate].
  apply exec_Ok in Hget as (Hget & _ & _).
  unfold sqlGetAllFeeds in Hget. injection Hget as <- Hdb.
  destruct (_ && _); [discriminate|].
  unfold opml.Generate in H.
  destruct (negb (accepts output opml.WriteHeader)); [discriminate|].
  destruct (negb (accepts output opml.Encode)); [discriminate|].
  destruct (negb (accepts output opml.WriteNewline)); [discriminate|].
  destruct (String.eqb output ""); cbn [negb] in H.
  - injection H as <- <-. cbn. rewrite <- Hdb. repeat split.
  - destruct (printJSON c _) as [v|] eqn:Hout; [|discriminate].
    apply printJSON_Ok in Hout as [-> _].
    injection H as <- <-. cbn. rewrite <- Hdb, length_map. repeat split.
Qed.

(** X29: [export] and then [import] restore the subscriptions.  When
    every feed of a database built through the store has a URL, the
    document a successful [export] writes, imported into an empty
    database, gives a table with the same feeds up to their order and
    their identifiers: every URL with its title and its category, none
    skipped.  The export itself leaves its database as it was. *)
Theorem export_import_round_trip (c c' : Context) (output file : string)
    (disk s1 : Store) (ex : Export) :
  reachable (db disk) ->
  Forall (fun r => frow_url r <> EmptyString) (feeds (db disk)) ->
  rangeMap (opml.categorize (map feedOfRow (feeds (db disk)))).1 ≡ₚ
    map_to_list (opml.categorize (map feedOfRow (feeds (db disk)))).1 ->
  exportOPML c output disk = (Ok ex, s1) ->
  NArg c' <> 0%nat -> canOpen c' = true -> canWrite c' = true ->
  Open (Get c' 0) = Some file -> Decode file = Ok (exported ex) ->
  db s1 = db disk /\
  exists report s2,
    importOPML c' (mkStore emptyDB []) = (Ok report, s2) /\
    imported report = length (feeds (db disk)) /\
    skipped report = 0%nat /\
    map subscribed (feeds (db s2)) ≡ₚ map subscribed (feeds (db disk)).
Proof.
  intros Hreach Hurls Hrange Hexport Hargs Hopen Hwrite Hfile Hdoc.
  destruct (exportOPML_Ok _ _ _ _ _ Hexport) as (Hdb & Hex & _).
  split; [exact Hdb|].
  set (old := map feedOfRow (feeds (db disk))) in *.
  set (newFeeds := opml.extractFeeds
                     (opml.Body_Outlines (opml.OPML_Body (exported ex)))
                     EmptyString).
  assert (Hperm : newFeeds ≡ₚ map opml.subscription old).
  { unfold newFeeds. rewrite Hex, document_body.
    apply body_extract; [exact Hrange|].
    unfold old. apply Forall_forall. intros f Hf.
    apply list_elem_of_In, in_map_iff in Hf as (r & <- & Hr).
    rewrite Forall_forall in Hurls. apply Hurls, list_elem_of_In, Hr. }
  assert (Hkeys : map model.URL (map opml.subscription old) =
                  map frow_url (feeds (db disk))).
  { unfold old. rewrite !map_map. reflexivity. }
  assert (Hnd : NoDup (map model.URL newFeeds)).
  { rewrite Hperm, Hkeys.
    exact (wf_feed_urls _ (reachable_wellFormed _ Hreach)). }
  destruct (importLoop_fresh newFeeds 0 0 [] (mkStore emptyDB [])
              (extractFeeds_new _ _) Hnd) as (s2 & Hloop & Hrows).
  { constructor. }
  { intros f _ []. }
  exists (mkImport (length newFeeds) 0 (length newFeeds) []), s2.
  split; [|split; [|split]].
  - unfold main.importOPML.
    destruct (Nat.ltb_spec (NArg c') 1) as [Hn|Hn]; [lia|].
    rewrite Hfile. unfold opml.Parse. rewrite Hdoc.
    unfold getStore. rewrite Hopen. fold newFeeds. rewrite Hloop.
    unfold printJSON, outputJSON. rewrite Hwrite. reflexivity.
  - cbn [imported]. rewrite (Permutation_length Hperm).
    unfold old. rewrite !length_map. reflexivity.
  - reflexivity.
  - rewrite Hrows. cbn [emptyDB db feeds map app].
    rewrite Hperm. unfold old. rewrite !map_map. reflexivity.
Qed.

End ExportCommand.

(** ** The sync only appends *)

Section SyncAppends.

Import store main.

Variable ParseURL : string -> result gofeed.Feed string.
Variable Now : string -> nat -> time.Time.

Local Abbreviation step := (main.step ParseURL Now).
Local Abbreviation steps := (main.steps ParseURL Now).
Local Abbreviation Inv := (main.Inv ParseURL Now).
Local Abbreviation updateFeeds := (main.updateFeeds ParseURL Now).

(** The one step that calls the store is the insert of the next item
    of a goroutine. *)
Lemma step_store (t : Tid) (g g' : State) :
  step t g = Some g' ->
  st g' = st g \/
  exists i f es e todo n,
    tasks g !! i = Some (f, Saving es (e :: todo) n) /\
    st g' = (SaveEntry (model.withFeedID e (model.Feed_ID f)) (st g)).2.
Proof.
  destruct t as [|i]; cbn [main.step].
  - unfold stepMain. destruct (pending g).
    + destruct (returned g); [discriminate|].
      destruct (wg g =? 0)%nat; [|discriminate].
      intros H. injection H as <-. left. reflexivity.
    + intros H. injection H as <-. left. reflexivity.
  - unfold stepWorker.
    destruct (tasks g !! i) as [[f p]|] eqn:Hi; [|discriminate].
    destruct p as [| |es todo n|r|r| | | |].
    + destruct (sem g <? semCap)%nat; [|discriminate].
      intros H. injection H as <-. left. reflexivity.
    + destruct (feed.Fetch _ _ _) as [[fd es]|msg];
        intros H; injection H as <-; left; reflexivity.
    + destruct todo as [|e todo].
      * intros H. injection H as <-. left. reflexivity.
      * destruct (SaveEntry _ (st g)) as [r s'] eqn:Hsave.
        intros H. injection H as <-. right.
        exists i, f, es, e, todo, n. split; [exact Hi|].
        cbn [st]. rewrite Hsave. reflexivity.
    + destruct (mu g); [discriminate|].
      intros H. injection H as <-. left. reflexivity.
    + intros H. injection H as <-. left. reflexivity.
    + intros H. injection H as <-. left. reflexivity.
    + intros H. injection H as <-. left. reflexivity.
    + intros H. injection H as <-. left. reflexivity.
    + discriminate.
Qed.

Lemma step_appends (fs : list model.Feed) (t : Tid) (g g' : State) :
  Inv fs g -> step t g = Some g' ->
  store.feeds (db (st g')) = store.feeds (db (st g)) /\
  exists l, entries (db (st g')) = entries (db (st g)) ++ l.
Proof.
  intros HI H. apply step_store in H as [->|H].
  - split; [reflexivity|]. exists []. rewrite app_nil_r. reflexivity.
  - destruct H as (i & f & es & e & todo & n & Hi & ->).
    pose proof (main.inv_carries _ _ _ _ HI _ _ _ Hi)
      as ([fd Hfd] & _ & gone & Hgone).
    apply SaveEntry_grows. cbn.
    apply (Fetch_ID ParseURL Now _ _ _ e Hfd). rewrite Hgone.
    apply elem_of_app. right. left.
Qed.

Lemma steps_appends (fs : list model.Feed) (sched : list Tid) (g g' : State) :
  NoDup (model.URL <$> fs) -> Inv fs g -> steps sched g = Some g' ->
  store.feeds (db (st g')) = store.feeds (db (st g)) /\
  exists l, entries (db (st g')) = entries (db (st g)) ++ l.
Proof.
  intros Hnd. revert g. induction sched as [|t sched IH]; intros g HI H.
  - cbn in H. injection H as <-. split; [reflexivity|].
    exists []. rewrite app_nil_r. reflexivity.
  - cbn in H. destruct (step t g) as [g1|] eqn:Ht; [|discriminate].
    destruct (step_appends fs t g g1 HI Ht) as (Hf1 & l1 & Hl1).
    destruct (IH g1 (step_Inv ParseURL Now fs t g g1 Hnd HI Ht) H)
      as (Hf & l & Hl).
    split; [congruence|]. exists (l1 ++ l).
    rewrite Hl, Hl1, app_assoc. reflexivity.
Qed.

(** The working set is read, not written. *)
Lemma resolve_db (c : Context) (disk s : Store)
    (r : result (list model.Feed) Failure) :
  resolve c disk = (r, s) -> db s = db disk.
Proof.
  unfold resolve. destruct (0 <? feedIDFlag c).
  - destruct (GetFeed _ disk) as [[f|e] s1] eqn:Hget;
      intros H; injection H as _ <-.
    + apply exec_Ok in Hget as (Hget & _).
      exact (sqlGetFeed_db _ _ _ _ Hget).
    + exact (proj1 (exec_Err _ _ _ _ Hget)).
  - destruct (GetAllFeeds disk) as [[l|e] s1] eqn:Hget;
      intros H; injection H as _ <-.
    + apply exec_Ok in Hget as (Hget & _).
      exact (proj1 (sqlGetAllFeeds_db _ _ _ Hget)).
    + exact (proj1 (exec_Err _ _ _ _ Hget)).
Qed.

(** X30: a sync only appends.  Under every schedule of its
    goroutines, whether it ends in a report or in an error,
    [updateFeeds] leaves the table of feeds as it was (no title, no
    validator, no time of update is written) and leaves every row of
    the table of entries in place and unchanged, read flags included:
    what it writes are new entries, added after the old ones. *)
Theorem updateFeeds_appends (c : Context) (sched : list Tid)
    (disk disk' : Store) (res : result Report Failure) :
  reachable (db disk) ->
  updateFeeds c sched disk = Some (res, disk') ->
  store.feeds (db disk') = store.feeds (db disk) /\
  exists l, entries (db disk') = entries (db disk) ++ l.
Proof.
  intros Hreach. unfold main.updateFeeds, getStore.
  destruct (canOpen c).
  2:{ intros H. injection H as _ <-. split; [reflexivity|].
      exists []. rewrite app_nil_r. reflexivity. }
  destruct (resolve c disk) as [[fs|failure] s] eqn:Hset.
  2:{ intros H. injection H as _ <-. rewrite (resolve_db _ _ _ _ Hset).
      split; [reflexivity|]. exists []. rewrite app_nil_r. reflexivity. }
  pose proof (resolve_distinct c disk s fs (reachable_wellFormed _ Hreach) Hset)
    as Hnd.
  pose proof (resolve_db _ _ _ _ Hset) as Hdb.
  destruct (main.steps _ _ sched (init fs s)) as [g|] eqn:Hsteps;
    [|discriminate].
  destruct (returned g); [|discriminate].
  intros H. injection H as _ <-.
  destruct (steps_appends fs sched _ g Hnd (Inv_init ParseURL Now fs s) Hsteps)
    as (Hf & l & Hl).
  cbn [init st] in Hf, Hl. rewrite Hdb in Hf, Hl.
  split; [exact Hf | exists l; exact Hl].
Qed.

End SyncAppends.

(** ** The store, the fetcher and the commands on the samples *)

Section MoreSampleRuns.

Import query store main.

Lemma sampleDB_reachable : reachable sampleDB.
Proof. unfold reachable, sampleDB. eexists _, _. reflexivity. Qed.

Lemma quiet_nil (d : DB) : quiet (mkStore d []).
Proof. constructor. Qed.

(** A fourth feed saved into the database of the three sample feeds. *)
Lemma SaveFeed_GetFeed_round_trip_witness :
  reachable (db (mkStore sampleSyncDB [])) /\
  model.Feed_ID (newFeed "v") = 0 /\
  (GetFeed 4 (SaveFeed (newFeed "v") (mkStore sampleSyncDB [])).2).1 =
    Ok (model.mkFeed 4 "v" EmptyString EmptyString None EmptyString
                     EmptyString).
Proof.
  split; [exact sampleSyncDB_reachable|]. split; [reflexivity|].
  assert (Hsave : SaveFeed (newFeed "v") (mkStore sampleSyncDB []) =
                  (Ok (model.feedWithID (newFeed "v") 4),
                   (SaveFeed (newFeed "v") (mkStore sampleSyncDB [])).2))
    by (vm_compute; reflexivity).
  assert (Hq : head (driver (SaveFeed (newFeed "v")
                               (mkStore sampleSyncDB [])).2) <> Some true)
    by (vm_compute; discriminate).
  exact (proj2 (proj2 (SaveFeed_GetFeed_round_trip
                         (newFeed "v") _ (mkStore sampleSyncDB []) _
                         sampleSyncDB_reachable eq_refl Hsave Hq))).
Defined.

(** A third entry, published half a second after a whole one. *)
Lemma SaveEntry_GetEntry_round_trip_witness :
  reachable (db (mkStore sampleDB [])) /\
  (GetEntry 3 (SaveEntry (sampleEntry 1 "c" 2500000000)
                         (mkStore sampleDB [])).2).1 =
    Ok (model.mkEntry 3 1 "c" "c" EmptyString EmptyString 2000000000 false
                      []).
Proof.
  split; [exact sampleDB_reachable|].
  assert (Hsave : SaveEntry (sampleEntry 1 "c" 2500000000)
                            (mkStore sampleDB []) =
                  (Ok (model.withID (sampleEntry 1 "c" 2500000000) 3),
                   (SaveEntry (sampleEntry 1 "c" 2500000000)
                              (mkStore sampleDB [])).2))
    by (vm_compute; reflexivity).
  assert (Hq : head (driver (SaveEntry (sampleEntry 1 "c" 2500000000)
                               (mkStore sampleDB [])).2) <> Some true)
    by (vm_compute; discriminate).
  exact (proj1 (proj2 (proj2 (proj2
           (SaveEntry_GetEntry_round_trip
              (sampleEntry 1 "c" 2500000000) _ (mkStore sampleDB []) _
              sampleDB_reachable (or_introl eq_refl) Hsave Hq))))).
Defined.

(** An entry saved under the identifier 9, which no row has. *)
Lemma SaveEntry_unknown_id_witness :
  hasEntry 9 (entries sampleDB) = false /\
  (SaveEntry (model.withID (sampleEntry 1 "z" 0) 9) (mkStore sampleDB [])).1 =
    Ok (model.withID (sampleEntry 1 "z" 0) 9) /\
  (GetEntry 9 (SaveEntry (model.withID (sampleEntry 1 "z" 0) 9)
                         (mkStore sampleDB [])).2).1 = Err ErrNotFound.
Proof.
  split; [reflexivity|].
  assert (Hid : model.ID (model.withID (sampleEntry 1 "z" 0) 9) <> 0)
    by (cbn; discriminate).
  destruct (SaveEntry_unknown_id (model.withID (sampleEntry 1 "z" 0) 9)
              (mkStore sampleDB []) Hid eq_refl (quiet_nil _))
    as (H1 & _ & H3).
  split; [exact H1 | exact H3].
Defined.

(** The feed u of the sample database, saved again. *)
Lemma feed_urls_unique_witness :
  reachable sampleSyncDB /\
  exists e,
    SaveFeed (newFeed "u") (mkStore sampleSyncDB []) =
      (Err e, mkStore sampleSyncDB []) /\
    e = ErrConstraint.
Proof.
  split; [exact sampleSyncDB_reachable|].
  assert (Hin : In (model.URL (newFeed "u"))
                   (map frow_url (feeds sampleSyncDB)))
    by (left; reflexivity).
  destruct (proj2 (feed_urls_unique sampleSyncDB sampleSyncDB_reachable)
              (newFeed "u") [] eq_refl Hin) as (e & Hsave & He).
  exists e. split; [exact Hsave|]. apply He. discriminate.
Defined.

(** Two feeds, the second deleted, then a third: it is feed 3. *)
Lemma identifiers_never_reused_witness :
  In (mkFeedRow 2 "v" EmptyString EmptyString EmptyString EmptyString)
     (feeds (db (history [CallSaveFeed (newFeed "u");
                          CallSaveFeed (newFeed "v")]
                         (mkStore emptyDB [])))) /\
  map frow_id
      (feeds (db (history [CallDeleteFeed 2]
                    (history [CallSaveFeed (newFeed "u");
                              CallSaveFeed (newFeed "v")]
                             (mkStore emptyDB []))))) = [1] /\
  2 < model.Feed_ID (model.feedWithID (newFeed "w") 3).
Proof.
  assert (Hin : In (mkFeedRow 2 "v" EmptyString EmptyString EmptyString
                              EmptyString)
                   (feeds (db (history [CallSaveFeed (newFeed "u");
                                        CallSaveFeed (newFeed "v")]
                                       (mkStore emptyDB [])))))
    by (right; left; reflexivity).
  split; [exact Hin|]. split; [reflexivity|].
  apply (proj1 (identifiers_never_reused []
                  [CallSaveFeed (newFeed "u"); CallSaveFeed (newFeed "v")]
                  [CallDeleteFeed 2])
           (mkFeedRow 2 "v" EmptyString EmptyString EmptyString EmptyString)
           (newFeed "w") (model.feedWithID (newFeed "w") 3)
           (SaveFeed (newFeed "w")
              (history [CallDeleteFeed 2]
                 (history [CallSaveFeed (newFeed "u");
                           CallSaveFeed (newFeed "v")]
                          (mkStore emptyDB [])))).2
           Hin eq_refl).
  vm_compute. reflexivity.
Defined.

(** All entries of the sample database, listed. *)
Lemma GetEntries_newest_first_witness :
  exists es s',
    GetEntries (mkQueryOptions 0 0 false EmptyString None)
               (mkStore sampleDB []) = (Ok es, s') /\
    map model.GUID es = ["a"; "b"]%string /\
    StronglySorted (fun a b => model.Published b <= model.Published a) es.
Proof.
  destruct (GetEntries (mkQueryOptions 0 0 false EmptyString None)
                       (mkStore sampleDB [])) as [[es|e] s'] eqn:H;
    [|vm_compute in H; discriminate].
  exists es, s'. split; [reflexivity|]. split.
  - vm_compute in H. injection H as <- _. reflexivity.
  - exact (proj1 (GetEntries_newest_first _ _ _ _ H)).
Defined.

(** The unread entries of the sample database since its second 2, one
    at most. *)
Lemma GetEntries_filters_witness :
  exists es s',
    GetEntries (mkQueryOptions 1 0 true EmptyString (Some 2))
               (mkStore sampleDB []) = (Ok es, s') /\
    map model.GUID es = ["a"]%string /\
    (Z.of_nat (length es) <= 1) /\
    forall e, e ∈ es ->
      model.IsUnread e = true /\ 2 <= time.Unix (model.Published e).
Proof.
  destruct (GetEntries (mkQueryOptions 1 0 true EmptyString (Some 2))
                       (mkStore sampleDB [])) as [[es|e] s'] eqn:H;
    [|vm_compute in H; discriminate].
  exists es, s'. split; [reflexivity|]. split.
  - vm_compute in H. injection H as <- _. reflexivity.
  - destruct (GetEntries_filters _ _ _ _ H) as (Hall & Hlimit & _).
    split; [apply Hlimit; reflexivity|].
    intros e He. destruct (Hall e He) as (_ & Hunread & Hsince).
    split; [apply Hunread; reflexivity | apply (Hsince 2); reflexivity].
Defined.

(** Two pages of one entry against one page of two. *)
Lemma GetEntries_pages_witness :
  NoDup (map row_published (entries (db (mkStore sampleDB [])))) /\
  exists p1 p2,
    (GetEntries (mkQueryOptions 1 0 false EmptyString None)
                (mkStore sampleDB [])).1 = Ok p1 /\
    (GetEntries (mkQueryOptions 1 (0 + 1) false EmptyString None)
                (mkStore sampleDB [])).1 = Ok p2 /\
    (GetEntries (mkQueryOptions (1 + 1) 0 false EmptyString None)
                (mkStore sampleDB [])).1 = Ok (p1 ++ p2).
Proof.
  assert (Hnd : NoDup (map row_published (entries (db (mkStore sampleDB [])))))
    by (apply NoDup_cons_In; split;
        [intros [H|[]]; discriminate | apply NoDup_singleton]).
  split; [exact Hnd|].
  assert (Hq : head (driver (mkStore sampleDB [])) <> Some true)
    by discriminate.
  exact (GetEntries_pages 1 1 0 false EmptyString None (mkStore sampleDB [])
           eq_refl eq_refl (Z.le_refl 0) Hq Hnd).
Defined.

(** Entry 1 of the sample database marked read, and entry 2 read
    back. *)
Lemma MarkEntryRead_frame_witness :
  quiet (mkStore sampleDB []) /\
  (GetEntry 1 (MarkEntryRead 1 true (mkStore sampleDB [])).2).1 =
    Ok (model.mkEntry 1 1 "a" "a" EmptyString EmptyString 2000000000 true
                      []) /\
  (GetEntry 2 (MarkEntryRead 1 true (mkStore sampleDB [])).2).1 =
    (GetEntry 2 (mkStore sampleDB [])).1.
Proof.
  split; [exact (quiet_nil _)|]. split.
  - exact (proj2 (MarkEntryRead_frame 1 1 true (mkStore sampleDB [])
                    (quiet_nil _))).
  - exact (proj2 (MarkEntryRead_frame 1 2 true (mkStore sampleDB [])
                    (quiet_nil _))).
Defined.

(** Three hundred years: more nanoseconds than a [Duration] holds. *)
Lemma ParseDuration_modulo_witness :
  shorthand "300y" "300" "y" /\ decimal "300" <= MaxInt64 /\
  ParseDuration "300y" = Ok (wrap64 (300 * 365 * 24 * time.Hour)) /\
  wrap64 (300 * 365 * 24 * time.Hour) = -8985944073709551616.
Proof.
  assert (Hs : shorthand "300y" "300" "y")
    by (split; [reflexivity|]; split; [discriminate|];
        split; reflexivity).
  assert (Hfit : decimal "300" <= MaxInt64) by (vm_compute; discriminate).
  split; [exact Hs|]. split; [exact Hfit|].
  split; [|reflexivity].
  exact (proj1 (ParseDuration_modulo "300y" "300" "y" Hs Hfit)).
Defined.

(** A lowercase text with both keywords of golang, and rust; the
    runtime visits the map backwards. *)
Lemma ExtractCategories_keywords_witness :
  reverse feed.keywords ≡ₚ feed.keywords /\
  feed.ExtractCategories (fun s => s) reverse "rust, golang and go " =
    ["rust"; "golang"; "golang"]%string /\
  feed.ExtractCategories (fun s => s) reverse "rust, golang and go " ≡ₚ
    map snd (List.filter
               (fun kv => feed.Contains "rust, golang and go " kv.1)
               feed.keywords).
Proof.
  assert (Hperm : reverse feed.keywords ≡ₚ feed.keywords)
    by apply reverse_Permutation.
  split; [exact Hperm|]. split; [reflexivity|].
  exact (proj1 (ExtractCategories_keywords (fun s => s) reverse
                  "rust, golang and go " Hperm)).
Defined.

(** The sample outlines under a category handed down. *)
Lemma extractFeeds_inherits_witness :
  "inbox"%string <> EmptyString /\
  map model.Category (opml.extractFeeds sampleOutlines "inbox") =
    ["Tech"; "lang"; "inbox"]%string /\
  Forall (fun f => model.Category f <> EmptyString)
         (opml.extractFeeds sampleOutlines "inbox").
Proof.
  assert (Hp : "inbox"%string <> EmptyString) by discriminate.
  split; [exact Hp|]. split; [reflexivity|].
  exact (extractFeeds_inherits sampleOutlines "inbox" Hp).
Defined.

(** The three sample subscriptions through a document. *)
Lemma document_round_trip_witness :
  sampleRange (opml.categorize sampleSubscriptions).1 ≡ₚ
    map_to_list (opml.categorize sampleSubscriptions).1 /\
  Forall (fun f => model.URL f <> EmptyString) sampleSubscriptions /\
  opml.extractFeeds
    (opml.Body_Outlines
       (opml.OPML_Body
          (opml.document sampleRange EmptyString sampleSubscriptions)))
    EmptyString
  ≡ₚ map opml.subscription sampleSubscriptions.
Proof.
  assert (Hrange : sampleRange (opml.categorize sampleSubscriptions).1 ≡ₚ
                   map_to_list (opml.categorize sampleSubscriptions).1)
    by apply reverse_Permutation.
  assert (Hurls : Forall (fun f => model.URL f <> EmptyString)
                         sampleSubscriptions)
    by (repeat constructor; discriminate).
  split; [exact Hrange|]. split; [exact Hurls|].
  exact (proj1 (document_round_trip sampleRange EmptyString (fun _ => true)
                  sampleSubscriptions Hrange Hurls)).
Defined.

Local Abbreviation sampleAdd := (main.addFeed sampleParseURL sampleNow).
Local Abbreviation sampleImport := (main.importOPML sampleOpen sampleDecode).

(** The feed uxx added to a database without feeds. *)
Lemma addFeed_stores_one_feed_witness :
  exists f s',
    sampleAdd (mkContext ["uxx"%string] 0 true true) "tech"
              (mkStore sampleDB []) = (Ok f, s') /\
    f = model.mkFeed 1 "uxx" "other" "tech" None EmptyString EmptyString /\
    feeds (db s') = feeds sampleDB ++ [rowOfFeed (model.Feed_ID f) f] /\
    entries (db s') = entries sampleDB.
Proof.
  destruct (sampleAdd (mkContext ["uxx"%string] 0 true true) "tech"
                      (mkStore sampleDB [])) as [[f|e] s'] eqn:H;
    [|vm_compute in H; discriminate].
  exists f, s'. split; [reflexivity|].
  destruct (addFeed_stores_one_feed sampleParseURL sampleNow _ _ _ _ _ H)
    as (_ & _ & Hrows & Hentries).
  split; [|split; [exact Hrows | exact Hentries]].
  vm_compute in H. injection H as <- _. reflexivity.
Defined.

(** The feed ux, whose fetch fails, added to the sample database. *)
Lemma addFeed_failure_witness :
  exists msg,
    sampleAdd (mkContext ["ux"%string] 0 true true) EmptyString
              (mkStore sampleSyncDB []) =
      (Err (ExitCode (FetchFailed msg) ExitDataError),
       mkStore sampleSyncDB []) /\
    db (mkStore sampleSyncDB []) = db (mkStore sampleSyncDB []) /\
    (ExitDataError = ExitUsageError /\
     NArg (mkContext ["ux"%string] 0 true true) = 0%nat \/
     ExitDataError = ExitDataError /\
     NArg (mkContext ["ux"%string] 0 true true) <> 0%nat).
Proof.
  eexists.
  assert (H : sampleAdd (mkContext ["ux"%string] 0 true true) EmptyString
                        (mkStore sampleSyncDB []) =
              (Err (ExitCode (FetchFailed
                                (feed.fetchError "ux" "timeout"))
                             ExitDataError),
               mkStore sampleSyncDB []))
    by (vm_compute; reflexivity).
  split; [exact H|].
  exact (addFeed_failure sampleParseURL sampleNow _ _ _ _ _ H).
Defined.

(** The feed uxx added twice. *)
Lemma addFeed_twice_witness :
  exists f s1,
    sampleAdd (mkContext ["uxx"%string] 0 true true) "tech"
              (mkStore sampleDB []) = (Ok f, s1) /\
    sampleAdd (mkContext ["uxx"%string] 0 true true) "news" s1 =
      (Err (ExitCode (StoreError ErrConstraint) ExitDataError),
       mkStore (db s1) (tail (driver s1))) /\
    exists l, (listFeeds (mkContext ["uxx"%string] 0 true true) s1).1 = Ok l /\
              In f l.
Proof.
  destruct (sampleAdd (mkContext ["uxx"%string] 0 true true) "tech"
                      (mkStore sampleDB [])) as [[f|e] s1] eqn:H;
    [|vm_compute in H; discriminate].
  exists f, s1. split; [reflexivity|].
  apply (addFeed_twice sampleParseURL sampleNow _ "tech" "news" _ _ _ H).
  vm_compute in H. injection H as _ <-. discriminate.
Defined.

(** Feed 7, which the sample database does not have, removed. *)
Lemma removeFeed_any_identifier_witness :
  scanDigits (Get (mkContext ["7"%string] 0 true true) 0) = Some 7 /\
  quiet (mkStore sampleSyncDB []) /\
  (GetFeed 7 (mkStore sampleSyncDB [])).1 = Err ErrNotFound /\
  (removeFeed scanDigits (mkContext ["7"%string] 0 true true)
              (mkStore sampleSyncDB [])).1 = Ok 7 /\
  (GetFeed 7 (removeFeed scanDigits (mkContext ["7"%string] 0 true true)
                         (mkStore sampleSyncDB [])).2).1 = Err ErrNotFound.
Proof.
  split; [reflexivity|]. split; [exact (quiet_nil _)|].
  split; [reflexivity|].
  assert (Hargs : NArg (mkContext ["7"%string] 0 true true) <> 0%nat)
    by discriminate.
  destruct (removeFeed_any_identifier scanDigits
              (mkContext ["7"%string] 0 true true) (mkStore sampleSyncDB [])
              7 Hargs eq_refl eq_refl eq_refl (quiet_nil _)) as (H1 & H2 & _).
  split; [exact H1 | exact H2].
Defined.

(** Feed 1 of the sample database removed: its entry stays. *)
Lemma removeFeed_keeps_entries_witness :
  quiet (mkStore sampleSyncDB []) /\
  map row_feed_id (entries sampleSyncDB) = [1] /\
  (GetFeed 1 (removeFeed scanDigits (mkContext ["1"%string] 0 true true)
                         (mkStore sampleSyncDB [])).2).1 = Err ErrNotFound /\
  entries (db (removeFeed scanDigits (mkContext ["1"%string] 0 true true)
                          (mkStore sampleSyncDB [])).2) =
    entries (db (mkStore sampleSyncDB [])).
Proof.
  split; [exact (quiet_nil _)|]. split; [reflexivity|].
  split; [reflexivity|].
  assert (Hargs : NArg (mkContext ["1"%string] 0 true true) <> 0%nat)
    by discriminate.
  exact (proj1 (removeFeed_keeps_entries scanDigits
                  (mkContext ["1"%string] 0 true true)
                  (mkStore sampleSyncDB []) 1 unreadOptions
                  Hargs eq_refl eq_refl (quiet_nil _))).
Defined.

(** Entry 2 of the sample database shown. *)
Lemma showEntry_outcomes_witness :
  NArg (mkContext ["2"%string] 0 true true) <> 0%nat /\
  db (showEntry scanDigits (mkContext ["2"%string] 0 true true)
                (mkStore sampleDB [])).2 = db (mkStore sampleDB []) /\
  (showEntry scanDigits (mkContext ["2"%string] 0 true true)
             (mkStore sampleDB [])).1 =
    Ok (model.mkEntry 2 1 "b" "b" EmptyString EmptyString 1000000000 false
                      []).
Proof.
  assert (Hargs : NArg (mkContext ["2"%string] 0 true true) <> 0%nat)
    by discriminate.
  split; [exact Hargs|].
  pose proof (showEntry_outcomes scanDigits
                (mkContext ["2"%string] 0 true true) (mkStore sampleDB [])
                Hargs) as H.
  change (scanDigits (Get (mkContext ["2"%string] 0 true true) 0))
    with (Some 2) in H.
  cbv beta iota in H.
  assert (Hq : head (driver (mkStore sampleDB [])) <> Some true)
    by discriminate.
  split; [exact (proj1 (H eq_refl eq_refl Hq)) | reflexivity].
Defined.

(** A listing from offset 5 without a limit. *)
Lemma listEntries_offset_needs_limit_witness :
  (BuildQueryOptions 0 0 5 false EmptyString EmptyString).2 = None /\
  listEntries sampleContext 0 0 5 false EmptyString EmptyString
              (mkStore sampleDB []) =
    (Err (ExitCode (StoreError ErrSyntax) ExitDataError),
     mkStore (db (mkStore sampleDB [])) (tail (driver (mkStore sampleDB [])))).
Proof.
  split; [reflexivity|].
  assert (Hq : head (driver (mkStore sampleDB [])) <> Some true)
    by discriminate.
  assert (Hlimit : 0 <= 0) by (apply Z.le_refl).
  exact (listEntries_offset_needs_limit sampleContext 0 0 5 false EmptyString
           EmptyString (mkStore sampleDB []) eq_refl Hq Hlimit eq_refl
           eq_refl).
Defined.

(** The two unread entries of the sample database marked, and the
    unread entries listed. *)
Lemma markAllRead_leaves_nothing_unread_witness :
  quiet (mkStore sampleDB []) /\
  (markAllRead sampleContext (mkStore sampleDB [])).1 = Ok 2%nat /\
  (GetEntries unreadOptions
              (markAllRead sampleContext (mkStore sampleDB [])).2).1 = Ok [].
Proof.
  split; [exact (quiet_nil _)|]. split; [reflexivity|].
  assert (Hwindow : 0 < Offset unreadOptions -> 0 < Limit unreadOptions)
    by (cbn; intros H; exact H).
  exact (markAllRead_leaves_nothing_unread sampleContext (mkStore sampleDB [])
           unreadOptions eq_refl (quiet_nil _) eq_refl Hwindow).
Defined.

(** The sample file imported into a database that has one of its three
    feeds. *)
Lemma importOPML_counts_witness :
  exists report s',
    sampleImport (mkContext ["subs.opml"%string] 0 true true)
      (SaveFeed (newFeed "https://news.org/rss") (mkStore emptyDB [])).2 =
      (Ok report, s') /\
    (imported report, skipped report, total report) = (2, 1, 3)%nat /\
    length (errors report) = skipped report /\
    length (feeds (db s')) = (1 + imported report)%nat.
Proof.
  destruct (sampleImport (mkContext ["subs.opml"%string] 0 true true)
              (SaveFeed (newFeed "https://news.org/rss")
                        (mkStore emptyDB [])).2)
    as [[report|e] s'] eqn:H; [|vm_compute in H; discriminate].
  exists report, s'. split; [reflexivity|].
  destruct (importOPML_counts sampleOpen sampleDecode _ _ _ _ H)
    as (_ & Herrors & Hrows & _).
  split; [|split; [exact Herrors | exact Hrows]].
  vm_compute in H. injection H as <- _. reflexivity.
Defined.

(** The sample file imported twice into an empty database. *)
Lemma importOPML_twice_witness :
  quiet (mkStore emptyDB []) /\
  exists report s1 report',
    sampleImport (mkContext ["subs.opml"%string] 0 true true)
                 (mkStore emptyDB []) = (Ok report, s1) /\
    imported report = 3%nat /\
    (sampleImport (mkContext ["subs.opml"%string] 0 true true) s1).1 =
      Ok report' /\
    imported report' = 0%nat /\ skipped report' = total report /\
    db (sampleImport (mkContext ["subs.opml"%string] 0 true true) s1).2 =
      db s1.
Proof.
  split; [exact (quiet_nil _)|].
  destruct (sampleImport (mkContext ["subs.opml"%string] 0 true true)
                         (mkStore emptyDB []))
    as [[report|e] s1] eqn:H; [|vm_compute in H; discriminate].
  destruct (importOPML_twice sampleOpen sampleDecode _ _ _ _ (quiet_nil _) H)
    as (report' & H1 & H2 & H3 & _ & _ & H6).
  exists report, s1, report'. split; [reflexivity|].
  split; [|repeat split; assumption].
  vm_compute in H. injection H as <- _. reflexivity.
Defined.

Local Abbreviation sampleDocument :=
  (opml.document sampleRange EmptyString
                 (map feedOfRow (feeds sampleSubscribedDB))).

Local Abbreviation sampleExport :=
  (main.exportOPML sampleRange EmptyString (fun _ => true)
                   (fun _ _ => true)).

Lemma sampleSubscribedDB_reachable : reachable sampleSubscribedDB.
Proof. unfold reachable, sampleSubscribedDB. eexists _, _. reflexivity. Qed.

(** The three sample subscriptions exported to standard output, and
    the document imported into an empty database. *)
Lemma export_import_round_trip_witness :
  reachable (db (mkStore sampleSubscribedDB [])) /\
  Forall (fun r => frow_url r <> EmptyString) (feeds sampleSubscribedDB) /\
  sampleExport sampleContext EmptyString (mkStore sampleSubscribedDB []) =
    (Ok (mkExport sampleDocument None),
     mkStore sampleSubscribedDB []) /\
  exists report s2,
    main.importOPML sampleOpen (decodeTo sampleDocument)
      (mkContext ["subs.opml"%string] 0 true true) (mkStore emptyDB []) =
      (Ok report, s2) /\
    imported report = 3%nat /\ skipped report = 0%nat /\
    map (fun r => (frow_url r, frow_title r, frow_category r))
        (feeds (db s2)) ≡ₚ
    map (fun r => (frow_url r, frow_title r, frow_category r))
        (feeds sampleSubscribedDB).
Proof.
  assert (Hurls : Forall (fun r => frow_url r <> EmptyString)
                         (feeds sampleSubscribedDB))
    by (repeat constructor; discriminate).
  assert (Hrange :
            sampleRange (opml.categorize
                           (map feedOfRow (feeds sampleSubscribedDB))).1 ≡ₚ
            map_to_list (opml.categorize
                           (map feedOfRow (feeds sampleSubscribedDB))).1)
    by apply reverse_Permutation.
  assert (Hexport :
            sampleExport sampleContext EmptyString
                         (mkStore sampleSubscribedDB []) =
            (Ok (mkExport sampleDocument None),
             mkStore sampleSubscribedDB []))
    by reflexivity.
  assert (Hargs : NArg (mkContext ["subs.opml"%string] 0 true true) <> 0%nat)
    by discriminate.
  split; [exact sampleSubscribedDB_reachable|]. split; [exact Hurls|].
  split; [exact Hexport|].
  exact (proj2 (export_import_round_trip sampleOpen (decodeTo sampleDocument)
                  sampleRange EmptyString (fun _ => true) (fun _ _ => true)
                  sampleContext (mkContext ["subs.opml"%string] 0 true true)
                  EmptyString "<opml>" (mkStore sampleSubscribedDB [])
                  (mkStore sampleSubscribedDB [])
                  (mkExport sampleDocument None)
                  sampleSubscribedDB_reachable Hurls Hrange Hexport Hargs
                  eq_refl eq_refl eq_refl eq_refl)).
Defined.

(** The three sample sources synced over the sample database: the
    feeds stay, and the entry that was there stays first. *)
Lemma updateFeeds_appends_witness :
  reachable (db (mkStore sampleSyncDB [])) /\
  exists res disk',
    main.updateFeeds sampleParseURL sampleNow sampleContext mixedSchedule
                     (mkStore sampleSyncDB []) = Some (res, disk') /\
    feeds (db disk') = feeds sampleSyncDB /\
    length (entries (db disk')) = 4%nat /\
    exists l, entries (db disk') = entries sampleSyncDB ++ l.
Proof.
  split; [exact sampleSyncDB_reachable|].
  destruct (main.updateFeeds sampleParseURL sampleNow sampleContext
              mixedSchedule (mkStore sampleSyncDB []))
    as [[res disk']|] eqn:H; [|vm_compute in H; discriminate].
  exists res, disk'. split; [reflexivity|].
  destruct (updateFeeds_appends sampleParseURL sampleNow _ _ _ _ _
              sampleSyncDB_reachable H) as (Hfeeds & Hentries).
  split; [exact Hfeeds|]. split; [|exact Hentries].
  vm_compute in H. injection H as _ <-. reflexivity.
Defined.

End MoreSampleRuns.
